(** * File transfer over a byte stream: the receiver and the sender

    A shallow embedding of the transfer engine of the repository:

    - [file_client_new.py]: [FileClient.connect], [FileClient.disconnect],
      [FileClient.receive_file] (three-field header, size cap on the header,
      retry loop);
    - [flet_client.py]: [FileClient.connect], [FileClient.disconnect],
      [FileClient.receive_file] (two-field header, no cap, no retry);
    - [file_server_new.py]: [FileServer.start], [FileServer.stop],
      [FileServer._listen_for_clients], [FileServer.send_file];
    - [flet_server.py]: [FileServer.start], [FileServer.stop],
      [FileServer._send_file].

    Python [bytes] are [list byte]; Python [str] is [string], holding the
    UTF-8 encoding of the text, so [.encode()] is [list_byte_of_string] and
    [.decode()] checks that the bytes are well-formed UTF-8.  Python [int] is
    [Z].  The socket, the file system and the clock are explicit parts of the
    state.  Logging, [time.sleep] and [os.makedirs] have no effect on what is
    stated below and are left out; the progress callbacks and the file
    system calls are taken not to raise, and one thread runs the call.  The exceptions
    are those of Python 3, where [socket.error] is [OSError].

    The loops of the code are recursive on a bound computed from the queue
    of the socket or from the file, and return [None] if the bound were too
    small; it never is ([new_receive_file_total], [flet_receive_file_total],
    [new_send_file_total], [flet_send_file_total]). *)

From Stdlib Require Import List ZArith Lia Bool Ascii String Strings.Byte.
From Stdlib Require Import Decimal DecimalString DecimalN DecimalZ DecimalPos.
From Stdlib Require Import SpecFloat.
Import ListNotations.

Local Open Scope string_scope.
Local Open Scope list_scope.
Local Open Scope Z_scope.

(** ** Python values *)

Definition bytes := list byte.

Definition len {A : Type} (l : list A) : Z := Z.of_nat (List.length l).

Definition newline : byte := x0a.

(** [BUFFER_SIZE = 4096] in all four files. *)
Definition BUFFER_SIZE : Z := 4096.

(** The exceptions the code raises or meets, with [str(e)]. *)
Inductive exn_kind :=
| ConnectionError
| OSError
| ValueError
| UnicodeDecodeError
| ZeroDivisionError
| OverflowError
| AttributeError.

Record exn := Raise { kind : exn_kind; text : string }.

(** [socket.error] is [OSError], and [ConnectionError] is one of its
    subclasses: [except socket.error] catches both. *)
Definition is_socket_error (e : exn) : bool :=
  match kind e with
  | ConnectionError | OSError => true
  | _ => false
  end.

(** [except ValueError] also catches [UnicodeDecodeError]. *)
Definition is_value_error (e : exn) : bool :=
  match kind e with
  | ValueError | UnicodeDecodeError => true
  | _ => false
  end.

(** *** Slices and search on [bytes] *)

(** [data.find(b)]: the index of the first occurrence, or [-1]. *)
Fixpoint find_from (b : byte) (data : bytes) (i : Z) : Z :=
  match data with
  | [] => -1
  | c :: rest => if Byte.eqb c b then i else find_from b rest (i + 1)
  end.

Definition py_find (b : byte) (data : bytes) : Z := find_from b data 0.

(** [b in data]. *)
Definition contains (b : byte) (data : bytes) : bool :=
  existsb (fun c => Byte.eqb c b) data.

(** [data[:i]] and [data[i:]], with Python's reading of a negative index. *)
Definition slice_to {A : Type} (data : list A) (i : Z) : list A :=
  if i <? 0 then firstn (Z.to_nat (len data + i)) data
  else firstn (Z.to_nat i) data.

Definition slice_from {A : Type} (data : list A) (i : Z) : list A :=
  if i <? 0 then skipn (Z.to_nat (len data + i)) data
  else skipn (Z.to_nat i) data.

(** *** UTF-8 *)

Definition in_range (lo hi : N) (b : byte) : bool :=
  (N.leb lo (Byte.to_N b) && N.leb (Byte.to_N b) hi)%bool.

Definition is_cont : byte -> bool := in_range 128 191.

(** What [bytes.decode()] accepts: well-formed UTF-8, without overlong
    forms, surrogates or code points above U+10FFFF. *)
Fixpoint utf8_valid (data : bytes) : bool :=
  match data with
  | [] => true
  | b0 :: r0 =>
    let n0 := Byte.to_N b0 in
    if N.ltb n0 128 then utf8_valid r0
    else if N.ltb n0 194 then false
    else if N.ltb n0 224 then
      match r0 with
      | b1 :: r1 => (is_cont b1 && utf8_valid r1)%bool
      | _ => false
      end
    else if N.ltb n0 240 then
      match r0 with
      | b1 :: b2 :: r2 =>
        ((if N.eqb n0 224 then in_range 160 191 b1
          else if N.eqb n0 237 then in_range 128 159 b1
          else is_cont b1)
         && is_cont b2 && utf8_valid r2)%bool
      | _ => false
      end
    else if N.ltb n0 245 then
      match r0 with
      | b1 :: b2 :: b3 :: r3 =>
        ((if N.eqb n0 240 then in_range 144 191 b1
          else if N.eqb n0 244 then in_range 128 143 b1
          else is_cont b1)
         && is_cont b2 && is_cont b3 && utf8_valid r3)%bool
      | _ => false
      end
    else false
  end.

(** [s.encode()]. *)
Definition encode (s : string) : bytes := list_byte_of_string s.

(** [data.decode()]. *)
Definition decode (data : bytes) : exn + string :=
  if utf8_valid data then inr (string_of_list_byte data)
  else inl (Raise UnicodeDecodeError "'utf-8' codec can't decode bytes").

(** *** [str.split], [int], [str] *)

(** [s.split(sep)] for a one-character separator. *)
Fixpoint split (sep : ascii) (s : string) : list string :=
  match s with
  | EmptyString => [EmptyString]
  | String c r =>
    if Ascii.eqb c sep then EmptyString :: split sep r
    else match split sep r with
         | h :: t => String c h :: t
         | [] => [String c EmptyString]
         end
  end.

Definition is_space (c : ascii) : bool :=
  let n := N_of_ascii c in
  ((N.leb 9 n && N.leb n 13) || N.eqb n 32)%bool.

Definition is_digit (c : ascii) : bool :=
  let n := N_of_ascii c in (N.leb 48 n && N.leb n 57)%bool.

Definition digit_val (c : ascii) : Z := Z.of_N (N_of_ascii c) - 48.

Fixpoint lstrip (s : string) : string :=
  match s with
  | String c r => if is_space c then lstrip r else s
  | EmptyString => s
  end.

Fixpoint all_space (s : string) : bool :=
  match s with
  | String c r => (is_space c && all_space r)%bool
  | EmptyString => true
  end.

(** The digits of a decimal literal: single underscores are allowed between
    digits only.  [prev] tells whether the character before was a digit.
    Returns the value and the text that follows the literal. *)
Fixpoint int_digits (s : string) (acc : Z) (prev : bool) : option (Z * string) :=
  match s with
  | EmptyString => if prev then Some (acc, s) else None
  | String c r =>
    if is_digit c then int_digits r (10 * acc + digit_val c) true
    else if Ascii.eqb c "_" then
      if prev then
        match r with
        | String d _ => if is_digit d then int_digits r acc false else None
        | EmptyString => None
        end
      else None
    else if prev then Some (acc, s) else None
  end.

(** [int(s)] in base 10 on ASCII text: blanks around, an optional sign,
    digits.  [None] is [ValueError].  (CPython also takes the decimal digits
    and blanks of other scripts, and from 3.11 on refuses more than 4300
    digits; a size field of either kind is outside this model.) *)
Definition py_int (s : string) : option Z :=
  let s1 := lstrip s in
  let '(neg, s2) :=
    match s1 with
    | String c r =>
      if Ascii.eqb c "-" then (true, r)
      else if Ascii.eqb c "+" then (false, r)
      else (false, s1)
    | EmptyString => (false, s1)
    end in
  match int_digits s2 0 false with
  | Some (v, rest) => if all_space rest then Some (if neg then - v else v) else None
  | None => None
  end.

(** [str(n)]. *)
Definition py_str (n : Z) : string := NilZero.string_of_int (Z.to_int n).

(** *** [os.path] (POSIX flavour) *)

Fixpoint rev_string (s acc : string) : string :=
  match s with
  | EmptyString => acc
  | String c r => rev_string r (String c acc)
  end.

(** The reversed text up to the first [c], without it, and what follows
    it; [None] when [c] does not occur. *)
Fixpoint break_at (c : ascii) (s : string) : option (string * string) :=
  match s with
  | EmptyString => None
  | String d r =>
    if Ascii.eqb d c then Some (EmptyString, r)
    else match break_at c r with
         | Some (a, b) => Some (String d a, b)
         | None => None
         end
  end.

(** [os.path.basename(p)]: what follows the last slash. *)
Definition basename (p : string) : string :=
  match break_at "/" (rev_string p "") with
  | Some (a, _) => rev_string a ""
  | None => p
  end.

Fixpoint all_dots (s : string) : bool :=
  match s with
  | String c r => (Ascii.eqb c "." && all_dots r)%bool
  | EmptyString => true
  end.

(** [os.path.splitext(p)[1]]: from the last dot of the last component,
    unless only dots come before it there. *)
Definition splitext_ext (p : string) : string :=
  match break_at "." (rev_string (basename p) "") with
  | Some (a, b) => if all_dots b then "" else String "." (rev_string a "")
  | None => ""
  end.

(** *** The percentage shown by the progress callbacks

    [int((a / b) * 100)]: [a / b] is the true division of two integers,
    rounded once to the nearest double (ties to even); the product with
    [100.0] is rounded again; [int] drops the fraction. *)

Definition fprec : Z := 53.
Definition femax : Z := 1024.

Definition true_div (a b : Z) : spec_float :=
  match a, b with
  | _, Z0 => S754_nan
  | Z0, _ => S754_zero false
  | Zpos p, Zpos q => SFdiv fprec femax (S754_finite false p 0) (S754_finite false q 0)
  | Zpos p, Zneg q => SFdiv fprec femax (S754_finite false p 0) (S754_finite true q 0)
  | Zneg p, Zpos q => SFdiv fprec femax (S754_finite true p 0) (S754_finite false q 0)
  | Zneg p, Zneg q => SFdiv fprec femax (S754_finite true p 0) (S754_finite true q 0)
  end.

Definition int_of_float (f : spec_float) : exn + Z :=
  match f with
  | S754_zero _ => inr 0
  | S754_finite s m e =>
    let v := if 0 <=? e then Z.pos m * 2 ^ e else Z.pos m / 2 ^ (- e) in
    inr (if s then - v else v)
  | S754_infinity _ => inl (Raise OverflowError "cannot convert float infinity to integer")
  | S754_nan => inl (Raise ValueError "cannot convert float NaN to integer")
  end.

Definition py_percent (a b : Z) : exn + Z :=
  if b =? 0 then inl (Raise ZeroDivisionError "division by zero")
  else
    match true_div a b with
    | S754_infinity _ =>
      inl (Raise OverflowError "integer division result too large for a float")
    | q => int_of_float (SFmul fprec femax q (S754_finite false 100 0))
    end.

(** ** The socket, the files and the clock *)

(** What the connected stream will deliver, in order: bytes, or a failure
    of the transport.  An empty queue is a peer that has closed. *)
Inductive event :=
| Data (bs : bytes)
| Fault (msg : string).

Record socket_obj := { sockname : string * Z; inbox : list event }.

(** [sock.recv(n)]: at most [n] bytes of what has arrived; what does not fit
    stays queued.  [b""] when the peer has closed; [socket.error] on a
    fault. *)
Definition recv (n : Z) (q : list event) : (exn + bytes) * list event :=
  match q with
  | [] => (inr [], [])
  | Data bs :: q' =>
    if len bs <=? n then (inr bs, q')
    else (inr (firstn (Z.to_nat n) bs), Data (skipn (Z.to_nat n) bs) :: q')
  | Fault msg :: q' => (inl (Raise OSError msg), q')
  end.

(** A bound on the number of non-empty reads a queue can serve. *)
Fixpoint weight (q : list event) : nat :=
  match q with
  | [] => O
  | Data bs :: q' => S (List.length bs + weight q')
  | Fault _ :: q' => S (weight q')
  end.

Definition files := string -> option bytes.

Definition exists_file (fs : files) (p : string) : bool :=
  match fs p with Some _ => true | None => false end.

Definition set_file (fs : files) (p : string) (content : bytes) : files :=
  fun q => if String.eqb q p then Some content else fs q.

(** [file.write(chunk)] on a file opened at its end. *)
Definition append_file (fs : files) (p : string) (chunk : bytes) : files :=
  set_file fs p (match fs p with Some old => old ++ chunk | None => chunk end).

(** [open(p, mode)]: ['wb'] truncates or creates, ['ab'] keeps the content. *)
Inductive file_mode := wb | ab.

Definition open_file (fs : files) (p : string) (m : file_mode) : files :=
  match m with
  | wb => set_file fs p []
  | ab => match fs p with Some _ => fs | None => set_file fs p [] end
  end.

Definition progress_call := (Z * Z * Z)%type.

(** Everything outside the client object.  [ticks] answers, read after
    read, whether more than 0.1 s went by since the last progress update;
    [calls] lists the invocations of the progress callback, oldest first;
    [network] is what dialing an endpoint yields. *)
Record world := {
  fs : files;
  ticks : list bool;
  now : string;
  calls : list progress_call;
  network : string -> Z -> option socket_obj;
  dialed : list (string * Z)
}.

Definition with_fs (w : world) (f : files) : world :=
  {| fs := f; ticks := ticks w; now := now w; calls := calls w;
     network := network w; dialed := dialed w |}.

Definition with_call (w : world) (c : progress_call) : world :=
  {| fs := fs w; ticks := ticks w; now := now w; calls := calls w ++ [c];
     network := network w; dialed := dialed w |}.

Definition pop_tick (w : world) : bool * world :=
  match ticks w with
  | [] => (false, w)
  | t :: ts =>
    (t, {| fs := fs w; ticks := ts; now := now w; calls := calls w;
           network := network w; dialed := dialed w |})
  end.

Definition with_dial (w : world) (host : string) (port : Z) : world :=
  {| fs := fs w; ticks := ticks w; now := now w; calls := calls w;
     network := network w; dialed := dialed w ++ [(host, port)] |}.

(** ** The client object (the same class in both client files) *)

Record download_record := {
  timestamp : string;
  file_name : string;
  original_name : string;
  size : Z;
  path : string;
  status : string
}.

Record FileClient := {
  socket : option socket_obj;
  connected : bool;
  download_history : list download_record
}.

(** [FileClient()]. *)
Definition new_client : FileClient :=
  {| socket := None; connected := false; download_history := [] |}.

Definition with_inbox (self : FileClient) (q : list event) : FileClient :=
  {| socket := match socket self with
               | Some s => Some {| sockname := sockname s; inbox := q |}
               | None => None
               end;
     connected := connected self;
     download_history := download_history self |}.

Definition with_record (self : FileClient) (r : download_record) : FileClient :=
  {| socket := socket self; connected := connected self;
     download_history := download_history self ++ [r] |}.

(** A socket object that was created and could not be connected. *)
Definition unconnected_socket : socket_obj :=
  {| sockname := ("0.0.0.0", 0); inbox := [] |}.

(** [FileClient.connect(host, port)]. *)
Definition connect (self : FileClient) (host : string) (port : Z) (w : world)
  : bool * FileClient * world :=
  if connected self then (false, self, w)
  else
    match network w host port with
    | Some s =>
      (true,
       {| socket := Some s; connected := true;
          download_history := download_history self |},
       with_dial w host port)
    | None =>
      (false,
       {| socket := Some unconnected_socket; connected := false;
          download_history := download_history self |},
       with_dial w host port)
    end.

(** How a call ends. *)
Inductive outcome :=
| Returns (b : bool)
| Raises (e : exn).

Definition or_unknown (s : string) : string :=
  if String.eqb s "" then "unknown" else s.

(** The record both clients append when the call fails. *)
Definition failed_record (w : world) (save_path : string) (e : exn) : download_record :=
  {| timestamp := now w;
     file_name := if String.eqb save_path "" then "unknown" else basename save_path;
     original_name := "unknown";
     size := 0;
     path := or_unknown save_path;
     status := "Failed: " ++ text e |}.

Definition is_empty {A : Type} (l : list A) : bool :=
  match l with [] => true | _ => false end.

(** ** [file_client_new.py] *)

Module ClientNew.

Definition MAX_RETRIES : Z := 3.

(** The bound on the accumulated header. *)
Definition HEADER_LIMIT : Z := 1024000.

Definition closed_before_header : exn :=
  Raise ConnectionError "Connection closed before receiving file header".

Definition header_too_large : exn :=
  Raise ValueError "File header too large, possibly invalid data".

Definition invalid_header : exn :=
  Raise ValueError "Invalid file header format".

Definition lost_during_transfer : exn :=
  Raise ConnectionError "Connection lost during transfer".

(** How the loop that reads the header ends. *)
Inductive header_exit :=
| HeaderRead (header_data : bytes)
| HeaderBreak (header_data : bytes) (e : exn)
| HeaderRaise (e : exn).

(** [except socket.error as e] inside the header loop: re-raised while a
    retry is left, otherwise kept in [last_exception] and the loop is left. *)
Definition header_handler (attempt : Z) (header_data : bytes) (e : exn) : header_exit :=
  if attempt <? MAX_RETRIES - 1 then HeaderRaise e else HeaderBreak header_data e.

(** [while b'\n' not in header_data: ...] (lines 75-88). *)
Fixpoint header_loop (fuel : nat) (attempt : Z) (q : list event) (header_data : bytes)
  : option (header_exit * list event) :=
  if contains newline header_data then Some (HeaderRead header_data, q)
  else
    match fuel with
    | O => None
    | S fuel' =>
      match recv BUFFER_SIZE q with
      | (inl e, q') => Some (header_handler attempt header_data e, q')
      | (inr chunk, q') =>
        if is_empty chunk then
          Some (header_handler attempt header_data closed_before_header, q')
        else
          let header_data' := header_data ++ chunk in
          if len header_data' >? HEADER_LIMIT then Some (HeaderRaise header_too_large, q')
          else header_loop fuel' attempt q' header_data'
      end
    end.

Definition read_header (attempt : Z) (q : list event) : option (header_exit * list event) :=
  header_loop (S (weight q)) attempt q [].

Record header := {
  h_name : string;
  h_size : Z;
  h_extension : string
}.

(** Lines 95-99: three fields, the second an integer. *)
Definition parse_header (line : string) : exn + header :=
  match split "|" line with
  | [name; sz; ext] =>
    match py_int sz with
    | Some n => inr {| h_name := name; h_size := n; h_extension := ext |}
    | None => inl invalid_header
    end
  | _ => inl invalid_header
  end.

(** Lines 90-99: the header line, and what was read after it. *)
Definition decode_header (header_data : bytes) : exn + (header * bytes) :=
  let header_end := py_find newline header_data in
  match decode (slice_to header_data header_end) with
  | inl e => inl e
  | inr line =>
    let remaining_data := slice_from header_data (header_end + 1) in
    match parse_header line with
    | inl e => inl e
    | inr h => inr (h, remaining_data)
    end
  end.

(** How the loop that reads the payload ends. *)
Inductive payload_exit :=
| PayloadDone
| PayloadBreak (e : exn)
| PayloadRaise (e : exn).

(** [except socket.error as e] inside the payload loop (lines 138-145). *)
Definition payload_handler (attempt : Z) (e : exn) : payload_exit :=
  if attempt <? MAX_RETRIES - 1 then PayloadBreak e else PayloadRaise e.

(** The loop variables of the payload loop. *)
Record transfer := {
  t_inbox : list event;
  t_world : world;
  received_bytes : Z
}.

(** One turn of [while received_bytes < file_size] (lines 121-145), when a
    chunk came: write it, count it, report it.  The percentage is the only
    step here that can raise, and what it raises is no [socket.error]. *)
Definition take_chunk (cb : bool) (save_path : string) (file_size : Z)
  (chunk : bytes) (q' : list event) (t : transfer) : transfer * option exn :=
  let w1 := with_fs (t_world t) (append_file (fs (t_world t)) save_path chunk) in
  let received := received_bytes t + len chunk in
  let '(due, w2) := pop_tick w1 in
  if (cb && due)%bool then
    match py_percent received file_size with
    | inl e => ({| t_inbox := q'; t_world := w2; received_bytes := received |}, Some e)
    | inr progress =>
      ({| t_inbox := q';
          t_world := with_call w2 (progress, received, file_size);
          received_bytes := received |}, None)
    end
  else ({| t_inbox := q'; t_world := w2; received_bytes := received |}, None).

(** What one turn of the payload loop does. *)
Inductive turn :=
| Next (t : transfer)
| Stop (ex : payload_exit) (t : transfer).

(** The body of [while received_bytes < file_size] (lines 122-145). *)
Definition payload_turn (attempt : Z) (cb : bool) (save_path : string)
  (file_size : Z) (t : transfer) : turn :=
  match recv (Z.min BUFFER_SIZE (file_size - received_bytes t)) (t_inbox t) with
  | (inl e, q') =>
    Stop (payload_handler attempt e)
      {| t_inbox := q'; t_world := t_world t; received_bytes := received_bytes t |}
  | (inr chunk, q') =>
    if is_empty chunk then
      Stop (if attempt <? MAX_RETRIES - 1
            then payload_handler attempt lost_during_transfer
            else PayloadDone)
        {| t_inbox := q'; t_world := t_world t; received_bytes := received_bytes t |}
    else
      match take_chunk cb save_path file_size chunk q' t with
      | (t', Some e) => Stop (PayloadRaise e) t'
      | (t', None) => Next t'
      end
  end.

Fixpoint payload_loop (fuel : nat) (attempt : Z) (cb : bool) (save_path : string)
  (file_size : Z) (t : transfer) : option (payload_exit * transfer) :=
  if received_bytes t <? file_size then
    match fuel with
    | O => None
    | S fuel' =>
      match payload_turn attempt cb save_path file_size t with
      | Stop ex t' => Some (ex, t')
      | Next t' => payload_loop fuel' attempt cb save_path file_size t'
      end
    end
  else Some (PayloadDone, t).

Definition read_payload (attempt : Z) (cb : bool) (save_path : string)
  (file_size : Z) (t : transfer) : option (payload_exit * transfer) :=
  payload_loop (S (weight (t_inbox t))) attempt cb save_path file_size t.

(** How one turn of [for attempt in range(MAX_RETRIES)] ends. *)
Inductive attempt_exit :=
| Returned (b : bool)
| Raised (e : exn)
| Fell (last_exception : option exn).

(** The variables of [receive_file] that live across attempts. *)
Record frame := {
  self : FileClient;
  env : world;
  save_path : string;
  last_exception : option exn
}.

Definition complete_record (w : world) (save_path : string) (h : header) : download_record :=
  {| timestamp := now w;
     file_name := basename save_path;
     original_name := h_name h;
     size := h_size h;
     path := save_path;
     status := "Complete" |}.

(** Line 113. *)
Definition choose_mode (attempt : Z) (fs : files) (save_path : string) : file_mode :=
  if ((0 <? attempt) && exists_file fs save_path)%bool then ab else wb.

(** Lines 102-103: the declared extension is added to a path without one. *)
Definition target (save_path : string) (h : header) : string :=
  if String.eqb (splitext_ext save_path) "" then (save_path ++ h_extension h)%string
  else save_path.

(** Lines 115-118: open the destination and write what came along with the
    header, when the file was opened with ['wb']. *)
Definition open_destination (attempt : Z) (fs : files) (save_path : string)
  (remaining_data : bytes) : files :=
  let mode := choose_mode attempt fs save_path in
  let fs1 := open_file fs save_path mode in
  match mode with
  | wb => if is_empty remaining_data then fs1 else append_file fs1 save_path remaining_data
  | ab => fs1
  end.

(** The loop variables when the payload loop starts (line 109 and the
    opened file). *)
Definition start (attempt : Z) (f : frame) (q : list event) (h : header)
  (remaining_data : bytes) : transfer :=
  {| t_inbox := q;
     t_world := with_fs (env f)
                  (open_destination attempt (fs (env f)) (target (save_path f) h)
                     remaining_data);
     received_bytes := len remaining_data |}.

(** Lines 101-164: from the decoded header to the end of the [with] block. *)
Definition store (attempt : Z) (cb : bool) (f : frame) (q : list event)
  (h : header) (remaining_data : bytes) : option (attempt_exit * frame) :=
  let save_path1 := target (save_path f) h in
  match read_payload attempt cb save_path1 (h_size h) (start attempt f q h remaining_data) with
  | None => None
  | Some (ex, t) =>
    let f1 := {| self := with_inbox (self f) (t_inbox t); env := t_world t;
                 save_path := save_path1; last_exception := last_exception f |} in
    match ex with
    | PayloadRaise e => Some (Raised e, f1)
    | PayloadDone | PayloadBreak _ =>
      let le := match ex with PayloadBreak e => Some e | _ => last_exception f end in
      if h_size h <=? received_bytes t then
        let w1 := if cb then with_call (t_world t) (100, received_bytes t, h_size h)
                  else t_world t in
        Some (Returned true,
              {| self := with_record (with_inbox (self f) (t_inbox t))
                           (complete_record w1 save_path1 h);
                 env := w1; save_path := save_path1; last_exception := le |})
      else
        Some (Fell le,
              {| self := with_inbox (self f) (t_inbox t); env := t_world t;
                 save_path := save_path1; last_exception := le |})
    end
  end.

Definition no_socket (attr : string) : exn :=
  Raise AttributeError ("'NoneType' object has no attribute '" ++ attr ++ "'").

(** Lines 73-164: one attempt, once the stream is there. *)
Definition transfer_once (attempt : Z) (cb : bool) (f : frame) : option (attempt_exit * frame) :=
  match socket (self f) with
  | None => Some (Raised (no_socket "recv"), f)
  | Some s =>
    match read_header attempt (inbox s) with
    | None => None
    | Some (hx, q) =>
      let f1 := {| self := with_inbox (self f) q; env := env f;
                   save_path := save_path f; last_exception := last_exception f |} in
      match hx with
      | HeaderRaise e => Some (Raised e, f1)
      | HeaderRead header_data | HeaderBreak header_data _ =>
        let f2 := {| self := self f1; env := env f1; save_path := save_path f1;
                     last_exception := match hx with
                                       | HeaderBreak _ e => Some e
                                       | _ => last_exception f
                                       end |} in
        match decode_header header_data with
        | inl e => Some (Raised e, f2)
        | inr (h, remaining_data) => store attempt cb f2 q h remaining_data
        end
      end
    end
  end.

(** Lines 67-164: the body of the [try] for one attempt; a retry first
    dials, at the address [getsockname()] gives. *)
Definition attempt_body (attempt : Z) (cb : bool) (f : frame) : option (attempt_exit * frame) :=
  if 0 <? attempt then
    match socket (self f) with
    | None => Some (Raised (no_socket "getsockname"), f)
    | Some s =>
      let '(ok, self', w') := connect (self f) (fst (sockname s)) (snd (sockname s)) (env f) in
      let f' := {| self := self'; env := w'; save_path := save_path f;
                   last_exception := last_exception f |} in
      if ok then transfer_once attempt cb f'
      else Some (Fell (last_exception f), f')
    end
  else transfer_once attempt cb f.

(** [for attempt in range(MAX_RETRIES)] with its [except Exception]
    (lines 66-173), then lines 175-190. *)
Fixpoint attempts (todo : list Z) (cb : bool) (f : frame) : option (outcome * frame) :=
  match todo with
  | [] =>
    match last_exception f with
    | Some e =>
      Some (Raises e,
            {| self := with_record (self f) (failed_record (env f) (save_path f) e);
               env := env f; save_path := save_path f; last_exception := last_exception f |})
    | None => Some (Returns false, f)
    end
  | attempt :: rest =>
    match attempt_body attempt cb f with
    | None => None
    | Some (Returned b, f') => Some (Returns b, f')
    | Some (Fell le, f') =>
      attempts rest cb
        {| self := self f'; env := env f'; save_path := save_path f'; last_exception := le |}
    | Some (Raised e, f') =>
      let f'' := {| self := self f'; env := env f'; save_path := save_path f';
                    last_exception := Some e |} in
      if attempt <? MAX_RETRIES - 1 then attempts rest cb f''
      else Some (Raises e, f'')
    end
  end.

(** [range(MAX_RETRIES)]. *)
Definition retry_range : list Z := [0; 1; 2].

(** [FileClient.receive_file(save_path, progress_callback)]; [cb] tells
    whether a callback was passed. *)
Definition receive_file (client : FileClient) (dest : string) (cb : bool) (w : world)
  : option (outcome * FileClient * world) :=
  if negb (connected client) then
    Some (Raises (Raise ConnectionError "Not connected to server"), client, w)
  else
    match attempts retry_range cb
            {| self := client; env := w; save_path := dest; last_exception := None |} with
    | None => None
    | Some (o, f) => Some (o, self f, env f)
    end.

End ClientNew.

(** ** [flet_client.py] *)

Module FletClient.

Definition closed_before_header : exn :=
  Raise ConnectionError "Connection closed before receiving file header".

(** [while b'\n' not in header_data: ...] (lines 64-68): no bound on what
    is accumulated. *)
Fixpoint header_loop (fuel : nat) (q : list event) (header_data : bytes)
  : option ((exn + bytes) * list event) :=
  if contains newline header_data then Some (inr header_data, q)
  else
    match fuel with
    | O => None
    | S fuel' =>
      match recv BUFFER_SIZE q with
      | (inl e, q') => Some (inl e, q')
      | (inr chunk, q') =>
        if is_empty chunk then Some (inl closed_before_header, q')
        else header_loop fuel' q' (header_data ++ chunk)
      end
    end.

Definition read_header (q : list event) : option ((exn + bytes) * list event) :=
  header_loop (S (weight q)) q [].

Record header := {
  h_name : string;
  h_size : Z
}.

(** The [ValueError] of an unpacking into two names. *)
Definition unpack_error (got : nat) : exn :=
  match got with
  | O | S O =>
    Raise ValueError ("not enough values to unpack (expected 2, got "
                      ++ py_str (Z.of_nat got) ++ ")")
  | _ => Raise ValueError "too many values to unpack (expected 2)"
  end.

Definition int_error (s : string) : exn :=
  Raise ValueError ("invalid literal for int() with base 10: '" ++ s ++ "'").

(** Lines 75-76: two fields, the second an integer. *)
Definition parse_header (line : string) : exn + header :=
  match split "|" line with
  | [name; sz] =>
    match py_int sz with
    | Some n => inr {| h_name := name; h_size := n |}
    | None => inl (int_error sz)
    end
  | fields => inl (unpack_error (List.length fields))
  end.

(** Lines 70-76. *)
Definition decode_header (header_data : bytes) : exn + (header * bytes) :=
  let header_end := py_find newline header_data in
  match decode (slice_to header_data header_end) with
  | inl e => inl e
  | inr line =>
    let remaining_data := slice_from header_data (header_end + 1) in
    match parse_header line with
    | inl e => inl e
    | inr h => inr (h, remaining_data)
    end
  end.

Record transfer := {
  t_inbox : list event;
  t_world : world;
  received_bytes : Z
}.

(** One turn of the payload loop when a chunk came (lines 94-100). *)
Definition take_chunk (cb : bool) (save_path : string) (file_size : Z)
  (chunk : bytes) (q' : list event) (t : transfer) : transfer * option exn :=
  let w1 := with_fs (t_world t) (append_file (fs (t_world t)) save_path chunk) in
  let received := received_bytes t + len chunk in
  let '(due, w2) := pop_tick w1 in
  if (cb && due)%bool then
    match py_percent received file_size with
    | inl e => ({| t_inbox := q'; t_world := w2; received_bytes := received |}, Some e)
    | inr progress =>
      ({| t_inbox := q';
          t_world := with_call w2 (progress, received, file_size);
          received_bytes := received |}, None)
    end
  else ({| t_inbox := q'; t_world := w2; received_bytes := received |}, None).

(** What one turn of the payload loop does: go on, or leave the loop,
    by [break] ([None]) or by an exception. *)
Inductive turn :=
| Next (t : transfer)
| Stop (ex : option exn) (t : transfer).

(** The body of [while received_bytes < file_size] (lines 90-100): a close
    ends the loop, an error of the transport leaves it. *)
Definition payload_turn (cb : bool) (save_path : string) (file_size : Z)
  (t : transfer) : turn :=
  match recv (Z.min BUFFER_SIZE (file_size - received_bytes t)) (t_inbox t) with
  | (inl e, q') =>
    Stop (Some e)
      {| t_inbox := q'; t_world := t_world t; received_bytes := received_bytes t |}
  | (inr chunk, q') =>
    if is_empty chunk then
      Stop None
        {| t_inbox := q'; t_world := t_world t; received_bytes := received_bytes t |}
    else
      match take_chunk cb save_path file_size chunk q' t with
      | (t', Some e) => Stop (Some e) t'
      | (t', None) => Next t'
      end
  end.

Fixpoint payload_loop (fuel : nat) (cb : bool) (save_path : string)
  (file_size : Z) (t : transfer) : option (option exn * transfer) :=
  if received_bytes t <? file_size then
    match fuel with
    | O => None
    | S fuel' =>
      match payload_turn cb save_path file_size t with
      | Stop ex t' => Some (ex, t')
      | Next t' => payload_loop fuel' cb save_path file_size t'
      end
    end
  else Some (None, t).

Definition read_payload (cb : bool) (save_path : string) (file_size : Z) (t : transfer)
  : option (option exn * transfer) :=
  payload_loop (S (weight (t_inbox t))) cb save_path file_size t.

(** Line 113. *)
Definition final_status (received file_size : Z) : string :=
  if file_size <=? received then "Complete"
  else "Incomplete (" ++ py_str received ++ "/" ++ py_str file_size ++ " bytes)".

Definition final_record (w : world) (save_path : string) (h : header) (received : Z)
  : download_record :=
  {| timestamp := now w;
     file_name := basename save_path;
     original_name := h_name h;
     size := h_size h;
     path := save_path;
     status := final_status received (h_size h) |}.

(** Lines 85-87: the destination is always opened with ['wb']. *)
Definition open_destination (fs : files) (save_path : string) (remaining_data : bytes)
  : files :=
  let fs1 := open_file fs save_path wb in
  if is_empty remaining_data then fs1 else append_file fs1 save_path remaining_data.

(** The loop variables when the payload loop starts. *)
Definition start (w : world) (save_path : string) (q : list event)
  (remaining_data : bytes) : transfer :=
  {| t_inbox := q;
     t_world := with_fs w (open_destination (fs w) save_path remaining_data);
     received_bytes := len remaining_data |}.

(** Lines 61-118: the body of the [try]; [inl] is an exception on its way
    to the handler. *)
Definition try_body (client : FileClient) (save_path : string) (cb : bool) (w : world)
  : option ((exn + bool) * FileClient * world) :=
  match socket client with
  | None =>
    Some (inl (Raise AttributeError "'NoneType' object has no attribute 'recv'"), client, w)
  | Some s =>
    match read_header (inbox s) with
    | None => None
    | Some (inl e, q) => Some (inl e, with_inbox client q, w)
    | Some (inr header_data, q) =>
      match decode_header header_data with
      | inl e => Some (inl e, with_inbox client q, w)
      | inr (h, remaining_data) =>
        match read_payload cb save_path (h_size h) (start w save_path q remaining_data) with
        | None => None
        | Some (Some e, t) => Some (inl e, with_inbox client (t_inbox t), t_world t)
        | Some (None, t) =>
          let w1 := if cb then with_call (t_world t) (100, received_bytes t, h_size h)
                    else t_world t in
          Some (inr true,
                with_record (with_inbox client (t_inbox t))
                  (final_record w1 save_path h (received_bytes t)),
                w1)
        end
      end
    end
  end.

(** [FileClient.receive_file(save_path, progress_callback)]. *)
Definition receive_file (client : FileClient) (save_path : string) (cb : bool) (w : world)
  : option (outcome * FileClient * world) :=
  if negb (connected client) then
    Some (Raises (Raise ConnectionError "Not connected to server"), client, w)
  else
    match try_body client save_path cb w with
    | None => None
    | Some (inr b, client', w') => Some (Returns b, client', w')
    | Some (inl e, client', w') =>
      Some (Raises e, with_record client' (failed_record w' save_path e), w')
    end.

End FletClient.

(** ** The sending side *)

(** What a call of [send] on the connected socket does, call after call:
    the transport takes [k] bytes, or fails.  Past the end of the script
    everything is taken. *)
Inductive tx :=
| TxAccept (k : nat)
| TxFault (msg : string).

Record peer := {
  peername : string * Z;
  capacity : list tx;
  wire : bytes
}.

(** [sock.send(data)]: the number of bytes taken. *)
Definition send (data : bytes) (sock : peer) : (exn + Z) * peer :=
  match capacity sock with
  | [] =>
    (inr (len data),
     {| peername := peername sock; capacity := []; wire := wire sock ++ data |})
  | TxAccept k :: c =>
    (inr (len (firstn k data)),
     {| peername := peername sock; capacity := c; wire := wire sock ++ firstn k data |})
  | TxFault msg :: c =>
    (inl (Raise OSError msg),
     {| peername := peername sock; capacity := c; wire := wire sock |})
  end.

(** [sock.sendall(data)]: sends until everything is taken, or fails. *)
Fixpoint sendall_script (data : bytes) (c : list tx) : option exn * bytes * list tx :=
  match data with
  | [] => (None, [], c)
  | _ =>
    match c with
    | [] => (None, data, [])
    | TxAccept k :: c' =>
      if (List.length data <=? k)%nat then (None, data, c')
      else
        let '(r, written, c'') := sendall_script (skipn k data) c' in
        (r, firstn k data ++ written, c'')
    | TxFault msg :: c' => (Some (Raise OSError msg), [], c')
    end
  end.

Definition sendall (data : bytes) (sock : peer) : option exn * peer :=
  let '(r, written, c) := sendall_script data (capacity sock) in
  (r, {| peername := peername sock; capacity := c; wire := wire sock ++ written |}).

(** What the sender does, in order. *)
Inductive action :=
| Sent (data : bytes)
| ReadChunk (data : bytes)
| Progress (percent : Z).

Record server_env := {
  s_fs : files;
  s_now : string;
  s_trace : list action
}.

Definition log (e : server_env) (a : action) : server_env :=
  {| s_fs := s_fs e; s_now := s_now e; s_trace := s_trace e ++ [a] |}.

Definition client_addr (sock : peer) : string :=
  (fst (peername sock) ++ ":" ++ py_str (snd (peername sock)))%string.

Definition no_such_file (p : string) : exn :=
  Raise OSError ("[Errno 2] No such file or directory: '" ++ p ++ "'").

(** The loop variables of the sending loops. *)
Record sending := {
  unread : bytes;
  s_sock : peer;
  s_env : server_env;
  sent_bytes : Z
}.

(** *** [file_server_new.py] *)

Module ServerNew.

Record transfer_record := {
  tr_timestamp : string;
  tr_file : string;
  tr_size : Z;
  tr_client : string;
  tr_status : string
}.

Record FileServer := { transfer_history : list transfer_record }.

(** [f"{file_name}|{file_size}"], encoded, and the newline (lines 100-101). *)
Definition encode_header (file_name : string) (file_size : Z) : bytes :=
  encode (file_name ++ "|" ++ py_str file_size) ++ [newline].

(** [while True: ...] (lines 105-115). *)
Fixpoint send_loop (fuel : nat) (cb : bool) (file_size : Z) (s : sending)
  : option (option exn * sending) :=
  match fuel with
  | O => None
  | S fuel' =>
    let data := firstn (Z.to_nat BUFFER_SIZE) (unread s) in
    let rest := skipn (Z.to_nat BUFFER_SIZE) (unread s) in
    let e1 := log (s_env s) (ReadChunk data) in
    if is_empty data then
      Some (None, {| unread := rest; s_sock := s_sock s; s_env := e1;
                     sent_bytes := sent_bytes s |})
    else
      let '(r, sock') := sendall data (s_sock s) in
      let e2 := log e1 (Sent (skipn (List.length (wire (s_sock s))) (wire sock'))) in
      match r with
      | Some e =>
        Some (Some e, {| unread := rest; s_sock := sock'; s_env := e2;
                         sent_bytes := sent_bytes s |})
      | None =>
        let sent := sent_bytes s + len data in
        if cb then
          match py_percent sent file_size with
          | inl e =>
            Some (Some e, {| unread := rest; s_sock := sock'; s_env := e2;
                             sent_bytes := sent |})
          | inr progress =>
            send_loop fuel' cb file_size
              {| unread := rest; s_sock := sock'; s_env := log e2 (Progress progress);
                 sent_bytes := sent |}
          end
        else
          send_loop fuel' cb file_size
            {| unread := rest; s_sock := sock'; s_env := e2; sent_bytes := sent |}
      end
  end.

Definition failed (e : server_env) (sock : peer) (file_path : string) (x : exn)
  : transfer_record :=
  {| tr_timestamp := s_now e;
     tr_file := basename file_path;
     tr_size := match s_fs e file_path with Some c => len c | None => 0 end;
     tr_client := client_addr sock;
     tr_status := "Failed: " ++ text x |}.

Definition add (server : FileServer) (r : transfer_record) : FileServer :=
  {| transfer_history := transfer_history server ++ [r] |}.

(** Lines 95-130: the body of the [try]. *)
Definition try_body (sock : peer) (file_path : string) (cb : bool) (e : server_env)
  : option (option exn * peer * server_env) :=
  match s_fs e file_path with
  | None => Some (Some (no_such_file file_path), sock, e)
  | Some content =>
    let file_size := len content in
    let file_name := basename file_path in
    let '(r, sock1) := sendall (encode_header file_name file_size) sock in
    let e1 := log e (Sent (skipn (List.length (wire sock)) (wire sock1))) in
    match r with
    | Some x => Some (Some x, sock1, e1)
    | None =>
      match send_loop (S (List.length content)) cb file_size
              {| unread := content; s_sock := sock1; s_env := e1; sent_bytes := 0 |} with
      | None => None
      | Some (r', s) => Some (r', s_sock s, s_env s)
      end
    end
  end.

(** [FileServer.send_file(client_socket, file_path, progress_callback)]. *)
Definition send_file (server : FileServer) (sock : peer) (file_path : string)
  (cb : bool) (e : server_env) : option (bool * FileServer * peer * server_env) :=
  match try_body sock file_path cb e with
  | None => None
  | Some (None, sock', e') =>
    Some (true,
          add server
            {| tr_timestamp := s_now e';
               tr_file := basename file_path;
               tr_size := match s_fs e' file_path with Some c => len c | None => 0 end;
               tr_client := client_addr sock';
               tr_status := "Complete" |},
          sock', e')
  | Some (Some x, sock', e') =>
    Some (false, add server (failed e' sock' file_path x), sock', e')
  end.

End ServerNew.

(** *** [flet_server.py] *)

Module FletServer.

Record transfer_record := {
  tr_timestamp : string;
  tr_file_name : string;
  tr_size : Z;
  tr_client : string;
  tr_status : string
}.

Record FileServer := { transfer_history : list transfer_record }.

(** [f"{file_name}|{file_size}\n"], encoded (lines 108-109). *)
Definition encode_header (file_name : string) (file_size : Z) : bytes :=
  encode (file_name ++ "|" ++ py_str file_size ++ String "010" "").

(** [while sent_bytes < file_size: ...] (lines 114-119): one [send] per
    chunk, its result unread. *)
Fixpoint send_loop (fuel : nat) (file_size : Z) (s : sending)
  : option (option exn * sending) :=
  if sent_bytes s <? file_size then
    match fuel with
    | O => None
    | S fuel' =>
      let chunk := firstn (Z.to_nat BUFFER_SIZE) (unread s) in
      let rest := skipn (Z.to_nat BUFFER_SIZE) (unread s) in
      let e1 := log (s_env s) (ReadChunk chunk) in
      if is_empty chunk then
        Some (None, {| unread := rest; s_sock := s_sock s; s_env := e1;
                       sent_bytes := sent_bytes s |})
      else
        let '(r, sock') := send chunk (s_sock s) in
        let e2 := log e1 (Sent (skipn (List.length (wire (s_sock s))) (wire sock'))) in
        match r with
        | inl x =>
          Some (Some x, {| unread := rest; s_sock := sock'; s_env := e2;
                           sent_bytes := sent_bytes s |})
        | inr _ =>
          send_loop fuel' file_size
            {| unread := rest; s_sock := sock'; s_env := e2;
               sent_bytes := sent_bytes s + len chunk |}
        end
    end
  else Some (None, s).

Definition final_status (sent file_size : Z) : string :=
  if file_size <=? sent then "Complete"
  else "Incomplete (" ++ py_str sent ++ "/" ++ py_str file_size ++ " bytes)".

Definition add (server : FileServer) (r : transfer_record) : FileServer :=
  {| transfer_history := transfer_history server ++ [r] |}.

(** [FileServer._send_file(client_socket, file_path, client_info)]. *)
Definition _send_file (server : FileServer) (sock : peer) (file_path : string)
  (client_info : string) (e : server_env)
  : option (bool * FileServer * peer * server_env) :=
  let fail (x : exn) (sock' : peer) (e' : server_env) :=
    Some (false,
          add server
            {| tr_timestamp := s_now e';
               tr_file_name := if String.eqb file_path "" then "unknown"
                               else basename file_path;
               tr_size := 0;
               tr_client := client_info;
               tr_status := "Failed: " ++ text x |},
          sock', e') in
  match s_fs e file_path with
  | None => fail (no_such_file file_path) sock e
  | Some content =>
    let file_size := len content in
    let file_name := basename file_path in
    let '(r, sock1) := send (encode_header file_name file_size) sock in
    let e1 := log e (Sent (skipn (List.length (wire sock)) (wire sock1))) in
    match r with
    | inl x => fail x sock1 e1
    | inr _ =>
      match send_loop (S (List.length content)) file_size
              {| unread := content; s_sock := sock1; s_env := e1; sent_bytes := 0 |} with
      | None => None
      | Some (Some x, s) => fail x (s_sock s) (s_env s)
      | Some (None, s) =>
        Some (true,
              add server
                {| tr_timestamp := s_now (s_env s);
                   tr_file_name := file_name;
                   tr_size := file_size;
                   tr_client := client_info;
                   tr_status := final_status (sent_bytes s) file_size |},
              s_sock s, s_env s)
      end
    end
  end.

End FletServer.

(** ** Connecting and listening: the rest of the four classes *)

(** *** [FileClient.disconnect] (the same method in both client files)

    [close s] is what [socket.close()] does: whether it raises, and the
    socket object as the call leaves it. *)
Definition disconnect (close : socket_obj -> option exn * socket_obj) (self : FileClient)
  : FileClient :=
  if negb (connected self) then self
  else
    match socket self with
    | None =>
      {| socket := None; connected := false; download_history := download_history self |}
    | Some s =>
      match close s with
      | (None, s') =>
        {| socket := Some s'; connected := false;
           download_history := download_history self |}
      | (Some _, s') =>
        {| socket := Some s'; connected := connected self;
           download_history := download_history self |}
      end
    end.

(** What [accept] on a listening socket yields, call after call: a
    connection, or an error (as when the socket is closed under it).  With
    nothing left the call would wait. *)
Inductive arrival :=
| Arrives (client : peer)
| AcceptFault (msg : string).

Record listener := { address : string * Z; arrivals : list arrival }.

(** The machine a server runs on: what [bind] and [listen] at an address
    yield ([None] when they fail), and what was done to it, oldest first:
    the listening threads started and the sockets closed, by address. *)
Record host := {
  listen_at : string -> Z -> option listener;
  started : list (string * Z);
  closed : list (string * Z)
}.

(** A socket object that was created and could not be bound. *)
Definition unbound_socket : listener := {| address := ("0.0.0.0", 0); arrivals := [] |}.

(** *** [file_server_new.py]: [start], [stop], [_listen_for_clients] *)

Module ListenNew.

Record FileServer := {
  server_socket : option listener;
  is_running : bool;
  connected_clients : list peer;
  transfer_history : list ServerNew.transfer_record
}.

(** [FileServer()]. *)
Definition new_server : FileServer :=
  {| server_socket := None; is_running := false; connected_clients := [];
     transfer_history := [] |}.

(** [FileServer.start(host, port, callback)] (lines 28-50). *)
Definition start (self : FileServer) (host_name : string) (port : Z) (os : host)
  : bool * FileServer * host :=
  if is_running self then (false, self, os)
  else
    match listen_at os host_name port with
    | Some l =>
      (true,
       {| server_socket := Some l; is_running := true;
          connected_clients := connected_clients self;
          transfer_history := transfer_history self |},
       {| listen_at := listen_at os; started := started os ++ [(host_name, port)];
          closed := closed os |})
    | None =>
      (false,
       {| server_socket := Some unbound_socket; is_running := false;
          connected_clients := connected_clients self;
          transfer_history := transfer_history self |},
       os)
    end.

(** [FileServer.stop()] (lines 52-74): the errors of [close] are dropped. *)
Definition stop (self : FileServer) (os : host) : FileServer * host :=
  if negb (is_running self) then (self, os)
  else
    ({| server_socket := server_socket self; is_running := false;
        connected_clients := [];
        transfer_history := transfer_history self |},
     {| listen_at := listen_at os; started := started os;
        closed := closed os ++ map peername (connected_clients self)
                  ++ match server_socket self with
                     | Some l => [address l]
                     | None => []
                     end |}).

(** How [_listen_for_clients] leaves its loop: what is still to arrive,
    the clients kept, the calls of the callback. *)
Record listening := {
  to_come : list arrival;
  kept : list peer;
  announced : list string
}.

(** [while self.is_running: ...] (lines 78-91), with the flag set: every
    connection accepted is kept and announced to the callback, when there is
    one; an error of [accept] or of the callback ends the loop; with nothing
    left to arrive the loop waits.  [callback] tells whether the callback
    raises on a client. *)
Fixpoint accept_loop (callback : option (string -> option exn)) (todo : list arrival)
  (clients : list peer) (calls : list string) : listening :=
  match todo with
  | [] => {| to_come := []; kept := clients; announced := calls |}
  | AcceptFault _ :: rest => {| to_come := rest; kept := clients; announced := calls |}
  | Arrives client :: rest =>
    let client_info := client_addr client in
    match callback with
    | None => accept_loop callback rest (clients ++ [client]) calls
    | Some f =>
      match f client_info with
      | Some _ =>
        {| to_come := rest; kept := clients ++ [client];
           announced := calls ++ [client_info] |}
      | None => accept_loop callback rest (clients ++ [client]) (calls ++ [client_info])
      end
    end
  end.

(** [FileServer._listen_for_clients(callback)]: the server as the loop
    leaves it, and the calls of the callback. *)
Definition _listen_for_clients (self : FileServer) (callback : option (string -> option exn))
  : FileServer * list string :=
  if negb (is_running self) then (self, [])
  else
    match server_socket self with
    | None => (self, [])
    | Some l =>
      let s := accept_loop callback (arrivals l) (connected_clients self) [] in
      ({| server_socket := Some {| address := address l; arrivals := to_come s |};
          is_running := is_running self;
          connected_clients := kept s;
          transfer_history := transfer_history self |},
       announced s)
    end.

End ListenNew.

(** *** [flet_server.py]: [start], [stop] *)

Module ListenFlet.

Record FileServer := {
  server_socket : option listener;
  running : bool;
  clients : list peer;
  selected_file : option string;
  transfer_history : list FletServer.transfer_record
}.

(** [FileServer.start(host, port)] (lines 31-42): there is no test of
    [running], and no thread is started here. *)
Definition start (self : FileServer) (host_name : string) (port : Z) (os : host)
  : bool * FileServer :=
  match listen_at os host_name port with
  | Some l =>
    (true,
     {| server_socket := Some l; running := true; clients := clients self;
        selected_file := selected_file self; transfer_history := transfer_history self |})
  | None =>
    (false,
     {| server_socket := Some unbound_socket; running := running self;
        clients := clients self; selected_file := selected_file self;
        transfer_history := transfer_history self |})
  end.

(** [FileServer.stop()] (lines 44-58): unguarded; the server socket is
    closed first, then the clients. *)
Definition stop (self : FileServer) (os : host) : FileServer * host :=
  ({| server_socket := server_socket self; running := false; clients := [];
      selected_file := selected_file self; transfer_history := transfer_history self |},
   {| listen_at := listen_at os; started := started os;
      closed := closed os
                ++ match server_socket self with
                   | Some l => [address l]
                   | None => []
                   end
                ++ map peername (clients self) |}).

End ListenFlet.

(** * The vocabulary of the statements, and sample runs *)

(** A client as a successful [connect] leaves it: the flag is set and the
    socket object is there. *)
Definition is_connected (c : FileClient) : Prop :=
  connected c = true /\ socket c <> None.

(** What the end of the first attempt makes of the whole call. *)
Definition new_verdict (ex : ClientNew.attempt_exit) (f : ClientNew.frame)
  : outcome * FileClient * world :=
  let fail e :=
    (Raises e,
     with_record (ClientNew.self f)
       (failed_record (ClientNew.env f) (ClientNew.save_path f) e),
     ClientNew.env f) in
  match ex with
  | ClientNew.Returned b => (Returns b, ClientNew.self f, ClientNew.env f)
  | ClientNew.Raised e => fail e
  | ClientNew.Fell (Some e) => fail e
  | ClientNew.Fell None => (Returns false, ClientNew.self f, ClientNew.env f)
  end.

(** The variables of [receive_file] when its loop starts. *)
Definition first_frame (client : FileClient) (dest : string) (w : world) : ClientNew.frame :=
  {| ClientNew.self := client; ClientNew.env := w; ClientNew.save_path := dest;
     ClientNew.last_exception := None |}.

(** What the invariant of the payload loop says of a loop state, of a turn
    from it and of the loop run from it, for the loop of either client given
    by its turn and its run. *)
Definition count_bounded {T X : Type} (inbox_of : T -> list event) (count : T -> Z)
  (turn : T -> option T) (run : T -> option (X * T)) (file_size : Z) (t : T) : Prop :=
  (forall t', count t < file_size -> turn t = Some t' ->
     exists chunk q',
       recv (Z.min BUFFER_SIZE (file_size - count t)) (inbox_of t) = (inr chunk, q')
       /\ len chunk <= Z.min BUFFER_SIZE (file_size - count t)
       /\ count t' = count t + len chunk
       /\ count t' <= file_size)
  /\ (exists x t', run t = Some (x, t'))
  /\ (forall x t', run t = Some (x, t') ->
        count t <= count t' <= file_size
        /\ (file_size <= count t' -> count t' = file_size))
  /\ (file_size <= count t -> exists x, run t = Some (x, t)).

(** The state a turn goes on with, when it goes on. *)
Definition new_next (r : ClientNew.turn) : option ClientNew.transfer :=
  match r with ClientNew.Next t => Some t | ClientNew.Stop _ _ => None end.

Definition flet_next (r : FletClient.turn) : option FletClient.transfer :=
  match r with FletClient.Next t => Some t | FletClient.Stop _ _ => None end.

(** The last call of the callback, [progress_callback(100, received,
    file_size)], when there is a callback. *)
Definition final_call (cb : bool) (received file_size : Z) : list progress_call :=
  if cb then [(100, received, file_size)] else [].

(** What a call that ended well left behind: the queue of the socket, the
    calls of the callback and the ticks of the clock that were added or
    used, the one record appended. *)
Definition ended_well (r : option (outcome * FileClient * world))
  (client : FileClient) (w : world) (q : list event)
  (new_calls : list progress_call) (st : string) (sz : Z) : Prop :=
  exists client' w' rec,
    r = Some (Returns true, client', w')
    /\ option_map inbox (socket client') = Some q
    /\ calls w' = calls w ++ new_calls
    /\ ticks w' = ticks w
    /\ download_history client' = download_history client ++ [rec]
    /\ status rec = st /\ size rec = sz.

(** A loop state [t'] extends [t] at path [p] by the bytes [more]: they
    were appended to the file and added to the count. *)
Definition grew {T : Type} (world_of : T -> world) (count : T -> Z)
  (p : string) (t t' : T) (more : bytes) : Prop :=
  forall old, fs (world_of t) p = Some old ->
    fs (world_of t') p = Some (old ++ more) /\ count t' = count t + len more.


(** What the guard of [receive_file] raises. *)
Definition not_connected : exn := Raise ConnectionError "Not connected to server".


(** The bytes a queue delivers before it closes or fails. *)
Fixpoint incoming (q : list event) : bytes :=
  match q with
  | Data bs :: q' => if is_empty bs then [] else bs ++ incoming q'
  | _ => []
  end.

(** A stream of 1,024,001 bytes without a newline, then closed. *)
Definition long_line : list event := [Data (repeat x61 (Z.to_nat 1024001))].

(** [n] bytes that differ from their neighbours. *)
Definition sample (n : nat) : bytes :=
  map (fun i => match Byte.of_nat (i mod 251) with Some b => b | None => x00 end) (seq 0 n).

(** A server that serves the file again, header line first, to whoever
    dials. *)
Definition serving (line : string) (content : bytes) : string -> Z -> option socket_obj :=
  fun _ _ =>
    Some {| sockname := ("127.0.0.1", 50001);
            inbox := [Data (encode line ++ [newline] ++ content)] |}.

(** A world in which the clock never lets a progress update through. *)
Definition quiet_world (net : string -> Z -> option socket_obj) (files0 : files) : world :=
  {| fs := files0; ticks := []; now := "2024-05-01 12:00:00"; calls := [];
     network := net; dialed := [] |}.

Definition no_files : files := fun _ => None.

(** A connected client whose socket will deliver [q]. *)
Definition client_on (q : list event) : FileClient :=
  {| socket := Some {| sockname := ("127.0.0.1", 50000); inbox := q |};
     connected := true; download_history := [] |}.

(** The header, 1,000 of the 5,000 bytes, then the connection drops. *)
Definition dropped_after_1000 : list event :=
  [Data (encode "data.bin|5000|.bin" ++ [newline]); Data (firstn 1000 (sample 5000))].

(** What is looked at after a call: how it ended, the file at a path, whom
    the client dialed, the statuses in the history, the progress calls. *)
Definition observe (r : option (outcome * FileClient * world)) (p : string)
  : option (outcome * option bytes * list (string * Z) * list string * list progress_call) :=
  match r with
  | Some (o, c, w) =>
    Some (o, fs w p, dialed w, map status (download_history c), calls w)
  | None => None
  end.

(** The value of a decimal numeral read from the left. *)
Fixpoint horner (u : uint) (acc : Z) : Z :=
  match u with
  | Nil => acc
  | D0 u' => horner u' (10 * acc)
  | D1 u' => horner u' (10 * acc + 1)
  | D2 u' => horner u' (10 * acc + 2)
  | D3 u' => horner u' (10 * acc + 3)
  | D4 u' => horner u' (10 * acc + 4)
  | D5 u' => horner u' (10 * acc + 5)
  | D6 u' => horner u' (10 * acc + 6)
  | D7 u' => horner u' (10 * acc + 7)
  | D8 u' => horner u' (10 * acc + 8)
  | D9 u' => horner u' (10 * acc + 9)
  end.

(** [c in s]. *)
Fixpoint has_char (c : ascii) (s : string) : bool :=
  match s with
  | EmptyString => false
  | String d r => (Ascii.eqb d c || has_char c r)%bool
  end.

(** The transport never fails. *)
Definition no_fault (c : list tx) : bool :=
  forallb (fun t => match t with TxAccept _ => true | TxFault _ => false end) c.

(** What the sending loop of [file_server_new.py] does with the unread
    bytes [rest] once [sent] bytes went out: read a chunk of at most 4096
    bytes, send the whole of it, report the percentage, and again, until a
    read brings nothing. *)
Inductive sends (cb : bool) (file_size : Z) : Z -> bytes -> list action -> Prop :=
| sends_done (sent : Z) : sends cb file_size sent [] [ReadChunk []]
| sends_quiet (sent : Z) (rest : bytes) (tr : list action) :
    cb = false ->
    rest <> [] ->
    sends cb file_size (sent + len (firstn (Z.to_nat BUFFER_SIZE) rest))
      (skipn (Z.to_nat BUFFER_SIZE) rest) tr ->
    sends cb file_size sent rest
      (ReadChunk (firstn (Z.to_nat BUFFER_SIZE) rest)
       :: Sent (firstn (Z.to_nat BUFFER_SIZE) rest) :: tr)
| sends_report (sent : Z) (rest : bytes) (percent : Z) (tr : list action) :
    cb = true ->
    rest <> [] ->
    py_percent (sent + len (firstn (Z.to_nat BUFFER_SIZE) rest)) file_size = inr percent ->
    sends cb file_size (sent + len (firstn (Z.to_nat BUFFER_SIZE) rest))
      (skipn (Z.to_nat BUFFER_SIZE) rest) tr ->
    sends cb file_size sent rest
      (ReadChunk (firstn (Z.to_nat BUFFER_SIZE) rest)
       :: Sent (firstn (Z.to_nat BUFFER_SIZE) rest) :: Progress percent :: tr).

(** What a successful [send_file] of [file_server_new.py] did: the header
    line first, then the chunks as [sends] has them; the stream got the line
    and the content; one [Complete] record with the size of the file. *)
Definition new_sent_well (cb : bool) (file_path : string) (content : bytes)
  (server : ServerNew.FileServer) (sock : peer) (e : server_env)
  (server' : ServerNew.FileServer) (sock' : peer) (e' : server_env) : Prop :=
  let line := ServerNew.encode_header (basename file_path) (len content) in
  exists tr rec,
    s_trace e' = s_trace e ++ Sent line :: tr
    /\ sends cb (len content) 0 content tr
    /\ wire sock' = wire sock ++ line ++ content
    /\ ServerNew.transfer_history server' = ServerNew.transfer_history server ++ [rec]
    /\ ServerNew.tr_status rec = "Complete"
    /\ ServerNew.tr_size rec = len content.

(** The same for [_send_file] of [flet_server.py], which returns [True]
    and stops reading once the declared size is sent: its reads and sends
    are those of [sends] without the last, empty read. *)
Definition flet_sent_well (file_path : string) (content : bytes)
  (server : FletServer.FileServer) (sock : peer) (e : server_env)
  (r : option (bool * FletServer.FileServer * peer * server_env)) : Prop :=
  let line := ServerNew.encode_header (basename file_path) (len content) in
  exists server' sock' e' tr rec,
    r = Some (true, server', sock', e')
    /\ s_trace e' = s_trace e ++ Sent line :: tr
    /\ sends false (len content) 0 content (tr ++ [ReadChunk []])
    /\ wire sock' = wire sock ++ line ++ content
    /\ FletServer.transfer_history server' = FletServer.transfer_history server ++ [rec]
    /\ FletServer.tr_status rec = "Complete"
    /\ FletServer.tr_size rec = len content.

(** Nobody listens, no file exists. *)
Definition idle_net : string -> Z -> option socket_obj := fun _ _ => None.

Definition w0 : world := quiet_world idle_net no_files.

(** Three bytes came with the header of a file of ten; four, then twenty
    more are on their way. *)
Definition new_midway : ClientNew.transfer :=
  {| ClientNew.t_inbox := [Data (sample 4); Data (sample 20)];
     ClientNew.t_world := w0; ClientNew.received_bytes := 3 |}.

Definition flet_midway : FletClient.transfer :=
  {| FletClient.t_inbox := [Data (sample 4); Data (sample 20)];
     FletClient.t_world := w0; FletClient.received_bytes := 3 |}.

(** The header of an empty file, in the form each client reads. *)
Definition empty_new : FileClient :=
  client_on [Data (encode "empty.txt|0|.txt" ++ [newline])].

Definition empty_flet : FileClient :=
  client_on [Data (encode "empty.txt|0" ++ [newline])].

(** Three of five bytes, then the peer closes. *)
Definition short_flet : FileClient :=
  client_on [Data (encode "a.txt|5" ++ [newline] ++ encode "abc")].

Definition short_new : FileClient :=
  client_on [Data (encode "a.txt|5|.txt" ++ [newline] ++ encode "abc")].



(** A server with a file of five bytes and a client that has connected. *)
Definition notes_env : server_env :=
  {| s_fs := set_file no_files "docs/notes.txt" (encode "hello");
     s_now := "2024-05-01 12:00:00"; s_trace := [] |}.

Definition open_peer (c : list tx) : peer :=
  {| peername := ("127.0.0.1", 40000); capacity := c; wire := [] |}.

Definition no_transfers : ServerNew.FileServer := {| ServerNew.transfer_history := [] |}.


(** ** The stream seen as bytes *)

(** The header line of a stream, and what follows its newline. *)
Definition first_line (data : bytes) : bytes := slice_to data (py_find newline data).

Definition after_newline (data : bytes) : bytes :=
  slice_from data (py_find newline data + 1).

(** [w'] differs from [w] at most by the file at [p], the calls of the
    callback and the ticks used: no other file changed, nobody was dialed. *)
Definition same_outside (p : string) (w w' : world) : Prop :=
  (forall p', p' <> p -> fs w' p' = fs w p')
  /\ dialed w' = dialed w /\ network w' = network w /\ now w' = now w.

(** Whether a progress update can fall due: there is a callback and the
    clock lets one through at some read. *)
Definition updates_due (cb : bool) (w : world) : bool :=
  (cb && existsb (fun due => due) (ticks w))%bool.

(** ** The progress reports *)

(** The calls of the callback made while the count went from [lo] to
    [hi], for the size [file_size]: each reports a count and the percentage
    computed from it; the counts grow strictly and lie above [lo] and not
    above [hi]. *)
Inductive reports (file_size : Z) : Z -> Z -> list progress_call -> Prop :=
| reports_none (lo hi : Z) : lo <= hi -> reports file_size lo hi []
| reports_next (lo hi percent received : Z) (rest : list progress_call) :
    lo < received ->
    py_percent received file_size = inr percent ->
    reports file_size received hi rest ->
    reports file_size lo hi ((percent, received, file_size) :: rest).

(** A call that stored the whole file: it returned [True]; the file at
    [p] holds [content]; nothing else changed but the calls of the callback,
    which got the progress reports of the loop, none when no update fell
    due, and then the final call when there is a callback; the history got
    one [Complete] record with the declared [name] and the size. *)
Definition stored (r : option (outcome * FileClient * world)) (client : FileClient)
  (w : world) (p : string) (name : string) (content : bytes) (cb : bool) : Prop :=
  exists client' w',
    r = Some (Returns true, client', w')
    /\ fs w' p = Some content
    /\ same_outside p w w'
    /\ (exists mids,
          calls w' = calls w ++ mids ++ final_call cb (len content) (len content)
          /\ reports (len content) 0 (len content) mids
          /\ (updates_due cb w = false -> mids = []))
    /\ download_history client' =
       download_history client
       ++ [{| timestamp := now w; file_name := basename p; original_name := name;
              size := len content; path := p; status := "Complete" |}].

(** What the socket of the client still has to deliver after a call. *)
Definition leaves (r : option (outcome * FileClient * world)) (rest : bytes) : Prop :=
  match r with
  | Some (_, client', _) =>
    option_map (fun s => incoming (inbox s)) (socket client') = Some rest
  | None => False
  end.

(** What a call of [receive_file] leaves as it was, whatever its outcome:
    it comes to an end; nobody is dialed; the flag and the address of the
    socket stay; the history is only appended to; no file changes among
    those [keeps] tells of. *)
Definition left_alone (keeps : string -> Prop) (client : FileClient) (w : world)
  (r : option (outcome * FileClient * world)) : Prop :=
  match r with
  | Some (_, client', w') =>
    dialed w' = dialed w /\ network w' = network w /\ now w' = now w
    /\ connected client' = connected client
    /\ option_map sockname (socket client') = option_map sockname (socket client)
    /\ (exists added, download_history client' = download_history client ++ added)
    /\ (forall p, keeps p -> fs w' p = fs w p)
  | None => False
  end.

(** ** Connecting and listening *)

(** The connections that arrive before [accept] first fails. *)
Fixpoint arriving (todo : list arrival) : list peer :=
  match todo with
  | Arrives client :: rest => client :: arriving rest
  | _ => []
  end.

(** A callback that never raises, or none at all. *)
Definition never_raises (callback : option (string -> option exn)) : Prop :=
  match callback with
  | Some f => forall client_info, f client_info = None
  | None => True
  end.

(** A [close] that goes through and one that raises. *)
Definition closes (s : socket_obj) : option exn * socket_obj :=
  (None, {| sockname := sockname s; inbox := [] |}).

Definition close_fails (s : socket_obj) : option exn * socket_obj :=
  (Some (Raise OSError "[Errno 5] Input/output error"), s).

(** A machine on which every address can be bound, with two connections
    on their way to whoever listens. *)
Definition two_callers : list arrival :=
  [Arrives {| peername := ("10.0.0.1", 40001); capacity := []; wire := [] |};
   Arrives {| peername := ("10.0.0.2", 40002); capacity := []; wire := [] |}].

Definition free_host : host :=
  {| listen_at := fun host_name port =>
                    Some {| address := (host_name, port); arrivals := two_callers |};
     started := []; closed := [] |}.

(** ** Sample clocks *)

(** A world whose clock lets a progress update through at the first and
    at the third read. *)
Definition ticking_world : world :=
  {| fs := no_files; ticks := [true; false; true]; now := "2024-05-01 12:00:00";
     calls := []; network := idle_net; dialed := [] |}.

(** ** The percentages reported *)

(** A percentage as a progress bar takes it. *)
Definition is_percentage (p : Z) : Prop := 0 <= p <= 100.

(** What a call of [receive_file] tells the callback: the call comes to an
    end; the calls of the callback made before stay; each call added
    reports a percentage from 0 to 100; without a callback none is added. *)
Definition tells_percentages (cb : bool) (w : world)
  (r : option (outcome * FileClient * world)) : Prop :=
  match r with
  | Some (_, _, w') =>
    exists added,
      calls w' = calls w ++ added
      /\ Forall (fun c : progress_call => is_percentage (fst (fst c))) added
      /\ (cb = false -> added = [])
  | None => False
  end.

(** The percentages [send_file] of [file_server_new.py] gave to its
    callback, in order. *)
Fixpoint percentages (tr : list action) : list Z :=
  match tr with
  | Progress percent :: rest => percent :: percentages rest
  | _ :: rest => percentages rest
  | [] => []
  end.

(** ** The errors of [receive_file] *)

(** What [receive_file] of [file_client_new.py] can raise on a client that
    has a socket: the refusal of the guard, the two errors of a closed
    connection, an error of the transport, the two [ValueError]s of the
    header, or the error of [decode]. *)
Definition new_receive_error (e : exn) : Prop :=
  e = not_connected
  \/ e = ClientNew.closed_before_header
  \/ e = ClientNew.lost_during_transfer
  \/ kind e = OSError
  \/ e = ClientNew.header_too_large
  \/ e = ClientNew.invalid_header
  \/ kind e = UnicodeDecodeError.

(** The same for [flet_client.py], which has no cap on the header, keeps
    the [ValueError] of the unpacking or of [int] as it is, and does not
    raise when the connection closes during the payload. *)
Definition flet_receive_error (e : exn) : Prop :=
  e = not_connected
  \/ e = FletClient.closed_before_header
  \/ kind e = OSError
  \/ kind e = ValueError
  \/ kind e = UnicodeDecodeError.

(** ** The life of a client object *)

(** One call of a method on the client object: [connect], [disconnect]
    with whatever [close] does, or [receive_file] of either file. *)
Inductive client_step : FileClient * world -> FileClient * world -> Prop :=
| step_connect (c : FileClient) (w : world) (host_name : string) (port : Z) :
    client_step (c, w)
      (snd (fst (connect c host_name port w)), snd (connect c host_name port w))
| step_disconnect (close : socket_obj -> option exn * socket_obj) (c : FileClient)
    (w : world) :
    client_step (c, w) (disconnect close c, w)
| step_receive_new (c : FileClient) (w : world) (dest : string) (cb : bool)
    (o : outcome) (c' : FileClient) (w' : world) :
    ClientNew.receive_file c dest cb w = Some (o, c', w') -> client_step (c, w) (c', w')
| step_receive_flet (c : FileClient) (w : world) (dest : string) (cb : bool)
    (o : outcome) (c' : FileClient) (w' : world) :
    FletClient.receive_file c dest cb w = Some (o, c', w') -> client_step (c, w) (c', w').

(** The states a client object can be in: those that come from
    [FileClient()] by calls of its methods. *)
Inductive reachable : FileClient * world -> Prop :=
| reach_new (w : world) : reachable (new_client, w)
| reach_step (x y : FileClient * world) : reachable x -> client_step x y -> reachable y.

(** * Properties *)

(** ** The Python values on samples *)

Example split_two : split "|" "report.pdf|2048" = ["report.pdf"; "2048"].
Proof. reflexivity. Qed.

Example py_int_samples :
  map py_int [" +1_0 "; "1__0"; "_1"; "1_"; "+ 1"; "-0"; "--1"; ""; "007"; "1 2"; "-12"]
  = [Some 10; None; None; None; None; Some 0; None; None; Some 7; None; Some (-12)].
Proof. reflexivity. Qed.

Example splitext_samples :
  map splitext_ext ["a/b.c/d"; ".bashrc"; "a/..b"; "x.tar.gz"; "a."; "a/.b.c"; "..."]
  = [""; ""; ""; ".gz"; "."; ".c"; ""].
Proof. reflexivity. Qed.

Example basename_samples :
  map basename ["a/b/"; "a/b/c.txt"; "c.txt"] = [""; "c.txt"; "c.txt"].
Proof. reflexivity. Qed.

Example py_str_samples : map py_str [0; 2048; -5] = ["0"; "2048"; "-5"].
Proof. reflexivity. Qed.

(** ** Reads terminate *)

Lemma len_nonneg {A : Type} (l : list A) : 0 <= len l.
Proof. unfold len. lia. Qed.

Lemma is_empty_false {A : Type} (l : list A) : is_empty l = false -> (0 < List.length l)%nat.
Proof. destruct l; simpl; [discriminate | lia]. Qed.

(** A read of at least one byte that brings bytes, or fails, uses up some of
    the queue. *)
Lemma recv_weight n q r q' :
  1 <= n -> recv n q = (r, q') ->
  match r with
  | inr chunk => is_empty chunk = false -> (weight q' < weight q)%nat
  | inl _ => (weight q' < weight q)%nat
  end.
Proof.
  intros Hn. destruct q as [|[bs|msg] q0]; simpl.
  - intros [= <- <-]. simpl. discriminate.
  - destruct (len bs <=? n) eqn:E; intros [= <- <-]; simpl.
    + lia.
    + intros _. rewrite length_skipn. apply Z.leb_gt in E. unfold len in E. lia.
  - intros [= <- <-]. simpl. lia.
Qed.

(** A read never brings more than it asked for. *)
Lemma recv_bound n q chunk q' :
  0 <= n -> recv n q = (inr chunk, q') -> len chunk <= n.
Proof.
  intros Hn. destruct q as [|[bs|msg] q0]; simpl.
  - intros [= <- <-]. unfold len. simpl. lia.
  - destruct (len bs <=? n) eqn:E; intros [= <- <-].
    + apply Z.leb_le in E. exact E.
    + unfold len. rewrite length_firstn. lia.
  - discriminate.
Qed.

Lemma new_header_loop_total fuel attempt q hd :
  (weight q < fuel)%nat -> exists r, ClientNew.header_loop fuel attempt q hd = Some r.
Proof.
  revert q hd. induction fuel as [|fuel IH]; intros q hd Hw; [lia|].
  simpl. destruct (contains newline hd); [eauto|].
  destruct (recv BUFFER_SIZE q) as [[e|chunk] q'] eqn:R; [eauto|].
  destruct (is_empty chunk) eqn:E; [eauto|].
  destruct (len (hd ++ chunk) >? ClientNew.HEADER_LIMIT); [eauto|].
  apply IH. pose proof (recv_weight BUFFER_SIZE q _ _ ltac:(unfold BUFFER_SIZE; lia) R E). lia.
Qed.

Lemma new_take_chunk_inbox cb p fsz chunk q' t t' r :
  ClientNew.take_chunk cb p fsz chunk q' t = (t', r) -> ClientNew.t_inbox t' = q'.
Proof.
  unfold ClientNew.take_chunk. destruct (pop_tick _) as [due w2].
  destruct (cb && due)%bool; [destruct (py_percent _ _)|]; intros [= <- _]; reflexivity.
Qed.

Lemma new_payload_loop_total fuel attempt cb p fsz t :
  (weight (ClientNew.t_inbox t) < fuel)%nat ->
  exists r, ClientNew.payload_loop fuel attempt cb p fsz t = Some r.
Proof.
  revert t. induction fuel as [|fuel IH]; intros t Hw; [lia|].
  simpl. destruct (ClientNew.received_bytes t <? fsz) eqn:C; [|eauto].
  apply Z.ltb_lt in C. unfold ClientNew.payload_turn.
  destruct (recv _ (ClientNew.t_inbox t)) as [[e|chunk] q'] eqn:R; [eauto|].
  destruct (is_empty chunk) eqn:E; [eauto|].
  destruct (ClientNew.take_chunk cb p fsz chunk q' t) as [t' [e|]] eqn:T; [eauto|].
  apply IH. rewrite (new_take_chunk_inbox _ _ _ _ _ _ _ _ T).
  assert (Hn : 1 <= Z.min BUFFER_SIZE (fsz - ClientNew.received_bytes t))
    by (unfold BUFFER_SIZE; lia).
  pose proof (recv_weight _ _ _ _ Hn R E). lia.
Qed.

Lemma new_read_header_total attempt q : exists r, ClientNew.read_header attempt q = Some r.
Proof. apply new_header_loop_total. lia. Qed.

Lemma new_read_payload_total attempt cb p fsz t :
  exists r, ClientNew.read_payload attempt cb p fsz t = Some r.
Proof. apply new_payload_loop_total. lia. Qed.

Lemma new_store_total attempt cb f q h rem :
  exists r, ClientNew.store attempt cb f q h rem = Some r.
Proof.
  unfold ClientNew.store. cbv zeta.
  match goal with
  | |- context [ClientNew.read_payload ?a ?b ?c ?d ?e] =>
    destruct (new_read_payload_total a b c d e) as [[ex t] E]; rewrite E
  end.
  destruct ex; [ | | eauto];
    destruct (ClientNew.h_size h <=? ClientNew.received_bytes t); eauto.
Qed.

Lemma new_transfer_once_total attempt cb f :
  exists r, ClientNew.transfer_once attempt cb f = Some r.
Proof.
  unfold ClientNew.transfer_once. destruct (socket (ClientNew.self f)) as [s|]; [|eauto].
  destruct (new_read_header_total attempt (inbox s)) as [[hx q] E]. rewrite E.
  destruct hx as [hd|hd e|e]; [ | | eauto];
    (destruct (ClientNew.decode_header hd) as [e'|[h rem]]; [eauto | apply new_store_total]).
Qed.

Lemma new_attempt_body_total attempt cb f :
  exists r, ClientNew.attempt_body attempt cb f = Some r.
Proof.
  unfold ClientNew.attempt_body. destruct (0 <? attempt); [|apply new_transfer_once_total].
  destruct (socket (ClientNew.self f)) as [s|]; [|eauto].
  destruct (connect _ _ _ _) as [[ok self'] w']. destruct ok; [apply new_transfer_once_total | eauto].
Qed.

Lemma new_attempts_total todo cb f : exists r, ClientNew.attempts todo cb f = Some r.
Proof.
  revert f. induction todo as [|a todo IH]; intros f; simpl.
  - destruct (ClientNew.last_exception f); eauto.
  - destruct (new_attempt_body_total a cb f) as [[ex f'] E]. rewrite E.
    destruct ex as [b|e|le]; [eauto | | apply IH].
    cbv zeta. destruct (a <? _); [apply IH | eauto].
Qed.

(** [receive_file] of [file_client_new.py] always ends. *)
Lemma new_receive_file_total client dest cb w :
  exists r, ClientNew.receive_file client dest cb w = Some r.
Proof.
  unfold ClientNew.receive_file. destruct (negb (connected client)); [eauto|].
  destruct (new_attempts_total ClientNew.retry_range cb
    {| ClientNew.self := client; ClientNew.env := w; ClientNew.save_path := dest;
       ClientNew.last_exception := None |}) as [[o f] E].
  rewrite E. eauto.
Qed.

Lemma flet_header_loop_total fuel q hd :
  (weight q < fuel)%nat -> exists r, FletClient.header_loop fuel q hd = Some r.
Proof.
  revert q hd. induction fuel as [|fuel IH]; intros q hd Hw; [lia|].
  simpl. destruct (contains newline hd); [eauto|].
  destruct (recv BUFFER_SIZE q) as [[e|chunk] q'] eqn:R; [eauto|].
  destruct (is_empty chunk) eqn:E; [eauto|].
  apply IH. pose proof (recv_weight BUFFER_SIZE q _ _ ltac:(unfold BUFFER_SIZE; lia) R E). lia.
Qed.

Lemma flet_take_chunk_inbox cb p fsz chunk q' t t' r :
  FletClient.take_chunk cb p fsz chunk q' t = (t', r) -> FletClient.t_inbox t' = q'.
Proof.
  unfold FletClient.take_chunk. destruct (pop_tick _) as [due w2].
  destruct (cb && due)%bool; [destruct (py_percent _ _)|]; intros [= <- _]; reflexivity.
Qed.

Lemma flet_payload_loop_total fuel cb p fsz t :
  (weight (FletClient.t_inbox t) < fuel)%nat ->
  exists r, FletClient.payload_loop fuel cb p fsz t = Some r.
Proof.
  revert t. induction fuel as [|fuel IH]; intros t Hw; [lia|].
  simpl. destruct (FletClient.received_bytes t <? fsz) eqn:C; [|eauto].
  apply Z.ltb_lt in C. unfold FletClient.payload_turn.
  destruct (recv _ (FletClient.t_inbox t)) as [[e|chunk] q'] eqn:R; [eauto|].
  destruct (is_empty chunk) eqn:E; [eauto|].
  destruct (FletClient.take_chunk cb p fsz chunk q' t) as [t' [e|]] eqn:T; [eauto|].
  apply IH. rewrite (flet_take_chunk_inbox _ _ _ _ _ _ _ _ T).
  assert (Hn : 1 <= Z.min BUFFER_SIZE (fsz - FletClient.received_bytes t))
    by (unfold BUFFER_SIZE; lia).
  pose proof (recv_weight _ _ _ _ Hn R E). lia.
Qed.

Lemma flet_try_body_total client p cb w :
  exists r, FletClient.try_body client p cb w = Some r.
Proof.
  unfold FletClient.try_body. destruct (socket client) as [s|]; [|eauto].
  destruct (flet_header_loop_total (S (weight (inbox s))) (inbox s) [] ltac:(lia)) as [[r q] E].
  unfold FletClient.read_header. rewrite E.
  destruct r as [e|hd]; [eauto|].
  destruct (FletClient.decode_header hd) as [e|[h rem]]; [eauto|].
  match goal with
  | |- context [FletClient.read_payload ?b ?c ?d ?e] =>
    destruct (flet_payload_loop_total (S (weight (FletClient.t_inbox e))) b c d e ltac:(lia))
      as [[r t] E']; unfold FletClient.read_payload; rewrite E'
  end.
  destruct r; eauto.
Qed.

(** [receive_file] of [flet_client.py] always ends. *)
Lemma flet_receive_file_total client p cb w :
  exists r, FletClient.receive_file client p cb w = Some r.
Proof.
  unfold FletClient.receive_file. destruct (negb (connected client)); [eauto|].
  destruct (flet_try_body_total client p cb w) as [[[r c'] w'] E]. rewrite E.
  destruct r; eauto.
Qed.

(** ** The retry loop of [file_client_new.py] *)

Lemma with_inbox_connected c q : is_connected c -> is_connected (with_inbox c q).
Proof.
  intros [H1 H2]. split; [exact H1|]. simpl. destruct (socket c); [discriminate | congruence].
Qed.

Lemma with_record_connected c r : is_connected c -> is_connected (with_record c r).
Proof. intros [H1 H2]. split; assumption. Qed.

Lemma with_inbox_history c q : download_history (with_inbox c q) = download_history c.
Proof. reflexivity. Qed.

(** One attempt leaves the client connected, on the same socket object. *)
Lemma new_store_connected attempt cb f q h rem ex f' :
  is_connected (ClientNew.self f) ->
  ClientNew.store attempt cb f q h rem = Some (ex, f') ->
  is_connected (ClientNew.self f').
Proof.
  intros Hc. unfold ClientNew.store. cbv zeta.
  destruct (ClientNew.read_payload _ _ _ _ _) as [[px t]|]; [|discriminate].
  destruct px; [ | | intros [= <- <-]; simpl; apply with_inbox_connected; exact Hc];
    (destruct (ClientNew.h_size h <=? ClientNew.received_bytes t); intros [= <- <-]; simpl;
     [apply with_record_connected|]; apply with_inbox_connected; exact Hc).
Qed.

Lemma new_transfer_once_connected attempt cb f ex f' :
  is_connected (ClientNew.self f) ->
  ClientNew.transfer_once attempt cb f = Some (ex, f') ->
  is_connected (ClientNew.self f').
Proof.
  intros Hc. unfold ClientNew.transfer_once.
  destruct (socket (ClientNew.self f)) as [s|]; [|intros [= <- <-]; exact Hc].
  destruct (ClientNew.read_header attempt (inbox s)) as [[hx q]|]; [|discriminate].
  destruct hx as [hd|hd e|e];
    [ | | intros [= <- <-]; simpl; apply with_inbox_connected; exact Hc];
    (destruct (ClientNew.decode_header hd) as [e'|[h rem]];
     [intros [= <- <-]; simpl; apply with_inbox_connected; exact Hc
     |intros H; eapply new_store_connected; [|exact H]; simpl;
      apply with_inbox_connected; exact Hc]).
Qed.

(** A retry of a client that is still marked connected does nothing:
    [connect] answers [False] and the attempt is skipped. *)
Lemma new_retry_skipped attempt cb f :
  0 < attempt -> is_connected (ClientNew.self f) ->
  ClientNew.attempt_body attempt cb f = Some (ClientNew.Fell (ClientNew.last_exception f), f).
Proof.
  intros Ha [Hc Hs]. unfold ClientNew.attempt_body.
  apply Z.ltb_lt in Ha. rewrite Ha.
  destruct (socket (ClientNew.self f)) as [s|] eqn:Es; [|congruence].
  unfold connect. rewrite Hc. destruct f; reflexivity.
Qed.

Lemma new_attempts_cons a rest cb f :
  ClientNew.attempts (a :: rest) cb f =
  match ClientNew.attempt_body a cb f with
  | None => None
  | Some (ClientNew.Returned b, f') => Some (Returns b, f')
  | Some (ClientNew.Fell le, f') =>
    ClientNew.attempts rest cb
      {| ClientNew.self := ClientNew.self f'; ClientNew.env := ClientNew.env f';
         ClientNew.save_path := ClientNew.save_path f'; ClientNew.last_exception := le |}
  | Some (ClientNew.Raised e, f') =>
    if a <? ClientNew.MAX_RETRIES - 1 then
      ClientNew.attempts rest cb
        {| ClientNew.self := ClientNew.self f'; ClientNew.env := ClientNew.env f';
           ClientNew.save_path := ClientNew.save_path f';
           ClientNew.last_exception := Some e |}
    else
      Some (Raises e,
            {| ClientNew.self := ClientNew.self f'; ClientNew.env := ClientNew.env f';
               ClientNew.save_path := ClientNew.save_path f';
               ClientNew.last_exception := Some e |})
  end.
Proof. reflexivity. Qed.

Lemma frame_eta (f : ClientNew.frame) :
  {| ClientNew.self := ClientNew.self f; ClientNew.env := ClientNew.env f;
     ClientNew.save_path := ClientNew.save_path f;
     ClientNew.last_exception := ClientNew.last_exception f |} = f.
Proof. destruct f; reflexivity. Qed.

Lemma new_retries_skipped cb f :
  is_connected (ClientNew.self f) ->
  ClientNew.attempts [1; 2] cb f = ClientNew.attempts [] cb f.
Proof.
  intros Hc. rewrite new_attempts_cons, new_retry_skipped by (lia || exact Hc).
  rewrite frame_eta.
  rewrite new_attempts_cons, new_retry_skipped by (lia || exact Hc).
  rewrite frame_eta. reflexivity.
Qed.

(** The call of a connected client is decided by its first attempt. *)
Lemma new_receive_file_first client dest cb w ex f :
  is_connected client ->
  ClientNew.transfer_once 0 cb (first_frame client dest w) = Some (ex, f) ->
  ClientNew.receive_file client dest cb w = Some (new_verdict ex f).
Proof.
  intros Hc H.
  pose proof (new_transfer_once_connected 0 cb (first_frame client dest w) ex f Hc H) as Hc'.
  unfold ClientNew.receive_file. destruct Hc as [Hc Hs]. rewrite Hc. simpl negb. cbv iota.
  fold (first_frame client dest w). unfold ClientNew.retry_range.
  rewrite new_attempts_cons.
  change (ClientNew.attempt_body 0 cb (first_frame client dest w))
    with (ClientNew.transfer_once 0 cb (first_frame client dest w)).
  rewrite H. destruct ex as [b|e|le].
  - reflexivity.
  - change (0 <? ClientNew.MAX_RETRIES - 1) with true. cbv iota.
    rewrite new_retries_skipped by exact Hc'. reflexivity.
  - rewrite new_retries_skipped by exact Hc'. simpl. destruct le; reflexivity.
Qed.

(** ** The payload loop *)

Lemma new_take_chunk_received cb p fsz chunk q' t t' r :
  ClientNew.take_chunk cb p fsz chunk q' t = (t', r) ->
  ClientNew.received_bytes t' = ClientNew.received_bytes t + len chunk.
Proof.
  unfold ClientNew.take_chunk. destruct (pop_tick _) as [due w2].
  destruct (cb && due)%bool; [destruct (py_percent _ _)|]; intros [= <- _]; reflexivity.
Qed.

(** A turn that goes on has read at most what was missing and counted
    exactly what it read. *)
Lemma new_turn_next attempt cb p fsz t t' :
  ClientNew.received_bytes t < fsz ->
  ClientNew.payload_turn attempt cb p fsz t = ClientNew.Next t' ->
  exists chunk q',
    recv (Z.min BUFFER_SIZE (fsz - ClientNew.received_bytes t)) (ClientNew.t_inbox t)
      = (inr chunk, q')
    /\ 0 < len chunk <= Z.min BUFFER_SIZE (fsz - ClientNew.received_bytes t)
    /\ ClientNew.t_inbox t' = q'
    /\ ClientNew.received_bytes t' = ClientNew.received_bytes t + len chunk
    /\ ClientNew.received_bytes t' <= fsz.
Proof.
  intros Hlt. unfold ClientNew.payload_turn.
  destruct (recv _ (ClientNew.t_inbox t)) as [[e|chunk] q'] eqn:R; [discriminate|].
  destruct (is_empty chunk) eqn:E; [discriminate|].
  destruct (ClientNew.take_chunk cb p fsz chunk q' t) as [t1 [e|]] eqn:T; [discriminate|].
  intros [= <-]. exists chunk, q'.
  assert (Hn : 0 <= Z.min BUFFER_SIZE (fsz - ClientNew.received_bytes t))
    by (unfold BUFFER_SIZE; lia).
  pose proof (recv_bound _ _ _ _ Hn R) as Hb.
  pose proof (is_empty_false _ E) as Hp.
  rewrite (new_take_chunk_received _ _ _ _ _ _ _ _ T), (new_take_chunk_inbox _ _ _ _ _ _ _ _ T).
  unfold len in *. repeat split; try lia; reflexivity.
Qed.

(** A turn that leaves the loop has not moved the count past the size. *)
Lemma new_turn_stop attempt cb p fsz t ex t' :
  ClientNew.received_bytes t < fsz ->
  ClientNew.payload_turn attempt cb p fsz t = ClientNew.Stop ex t' ->
  ClientNew.received_bytes t <= ClientNew.received_bytes t' <= fsz
  /\ (ex = ClientNew.PayloadDone -> ClientNew.MAX_RETRIES - 1 <= attempt).
Proof.
  intros Hlt. unfold ClientNew.payload_turn.
  destruct (recv _ (ClientNew.t_inbox t)) as [[e|chunk] q'] eqn:R.
  - intros [= <- <-]. simpl. split; [lia|].
    unfold ClientNew.payload_handler. destruct (attempt <? _) eqn:A; [discriminate|].
    intros _. apply Z.ltb_ge in A. exact A.
  - destruct (is_empty chunk) eqn:E.
    + intros [= <- <-]. simpl. split; [lia|].
      unfold ClientNew.payload_handler. destruct (attempt <? _) eqn:A; [discriminate|].
      intros _. apply Z.ltb_ge in A. exact A.
    + destruct (ClientNew.take_chunk cb p fsz chunk q' t) as [t1 [e|]] eqn:T; [|discriminate].
      intros [= <- <-].
      assert (Hn : 0 <= Z.min BUFFER_SIZE (fsz - ClientNew.received_bytes t))
        by (unfold BUFFER_SIZE; lia).
      pose proof (recv_bound _ _ _ _ Hn R) as Hb.
      rewrite (new_take_chunk_received _ _ _ _ _ _ _ _ T).
      pose proof (len_nonneg chunk). split; [lia | discriminate].
Qed.

(** The count never passes the declared size, and the loop is left for
    good only when the size is reached, unless no retry is left. *)
Lemma new_payload_loop_inv fuel attempt cb p fsz t ex t' :
  ClientNew.received_bytes t <= fsz ->
  ClientNew.payload_loop fuel attempt cb p fsz t = Some (ex, t') ->
  ClientNew.received_bytes t <= ClientNew.received_bytes t' <= fsz
  /\ (ex = ClientNew.PayloadDone ->
      ClientNew.received_bytes t' = fsz \/ ClientNew.MAX_RETRIES - 1 <= attempt).
Proof.
  revert t. induction fuel as [|fuel IH]; intros t Hle; simpl.
  - destruct (ClientNew.received_bytes t <? fsz) eqn:C; [discriminate|].
    intros [= <- <-]. apply Z.ltb_ge in C. split; [lia|]. intros _. left. lia.
  - destruct (ClientNew.received_bytes t <? fsz) eqn:C.
    + apply Z.ltb_lt in C.
      destruct (ClientNew.payload_turn attempt cb p fsz t) as [t1|ex1 t1] eqn:T.
      * destruct (new_turn_next _ _ _ _ _ _ C T) as (chunk & q' & _ & Hc & _ & Hr & Hb).
        intros H. destruct (IH _ Hb H) as [H1 H2]. split; [lia | exact H2].
      * intros [= <- <-]. destruct (new_turn_stop _ _ _ _ _ _ _ C T) as [H1 H2].
        split; [exact H1|]. intros Hx. right. apply H2, Hx.
    + intros [= <- <-]. apply Z.ltb_ge in C. split; [lia|]. intros _. left. lia.
Qed.

Lemma flet_take_chunk_received cb p fsz chunk q' t t' r :
  FletClient.take_chunk cb p fsz chunk q' t = (t', r) ->
  FletClient.received_bytes t' = FletClient.received_bytes t + len chunk.
Proof.
  unfold FletClient.take_chunk. destruct (pop_tick _) as [due w2].
  destruct (cb && due)%bool; [destruct (py_percent _ _)|]; intros [= <- _]; reflexivity.
Qed.

Lemma flet_turn_next cb p fsz t t' :
  FletClient.received_bytes t < fsz ->
  FletClient.payload_turn cb p fsz t = FletClient.Next t' ->
  exists chunk q',
    recv (Z.min BUFFER_SIZE (fsz - FletClient.received_bytes t)) (FletClient.t_inbox t)
      = (inr chunk, q')
    /\ 0 < len chunk <= Z.min BUFFER_SIZE (fsz - FletClient.received_bytes t)
    /\ FletClient.t_inbox t' = q'
    /\ FletClient.received_bytes t' = FletClient.received_bytes t + len chunk
    /\ FletClient.received_bytes t' <= fsz.
Proof.
  intros Hlt. unfold FletClient.payload_turn.
  destruct (recv _ (FletClient.t_inbox t)) as [[e|chunk] q'] eqn:R; [discriminate|].
  destruct (is_empty chunk) eqn:E; [discriminate|].
  destruct (FletClient.take_chunk cb p fsz chunk q' t) as [t1 [e|]] eqn:T; [discriminate|].
  intros [= <-]. exists chunk, q'.
  assert (Hn : 0 <= Z.min BUFFER_SIZE (fsz - FletClient.received_bytes t))
    by (unfold BUFFER_SIZE; lia).
  pose proof (recv_bound _ _ _ _ Hn R) as Hb.
  pose proof (is_empty_false _ E) as Hp.
  rewrite (flet_take_chunk_received _ _ _ _ _ _ _ _ T), (flet_take_chunk_inbox _ _ _ _ _ _ _ _ T).
  unfold len in *. repeat split; try lia; reflexivity.
Qed.

Lemma flet_turn_stop cb p fsz t ex t' :
  FletClient.received_bytes t < fsz ->
  FletClient.payload_turn cb p fsz t = FletClient.Stop ex t' ->
  FletClient.received_bytes t <= FletClient.received_bytes t' <= fsz.
Proof.
  intros Hlt. unfold FletClient.payload_turn.
  destruct (recv _ (FletClient.t_inbox t)) as [[e|chunk] q'] eqn:R.
  - intros [= <- <-]. simpl. lia.
  - destruct (is_empty chunk) eqn:E.
    + intros [= <- <-]. simpl. lia.
    + destruct (FletClient.take_chunk cb p fsz chunk q' t) as [t1 [e|]] eqn:T; [|discriminate].
      intros [= <- <-].
      assert (Hn : 0 <= Z.min BUFFER_SIZE (fsz - FletClient.received_bytes t))
        by (unfold BUFFER_SIZE; lia).
      pose proof (recv_bound _ _ _ _ Hn R) as Hb.
      rewrite (flet_take_chunk_received _ _ _ _ _ _ _ _ T).
      pose proof (len_nonneg chunk). lia.
Qed.

Lemma flet_payload_loop_inv fuel cb p fsz t ex t' :
  FletClient.received_bytes t <= fsz ->
  FletClient.payload_loop fuel cb p fsz t = Some (ex, t') ->
  FletClient.received_bytes t <= FletClient.received_bytes t' <= fsz.
Proof.
  revert t. induction fuel as [|fuel IH]; intros t Hle; simpl.
  - destruct (FletClient.received_bytes t <? fsz) eqn:C; [discriminate|].
    intros [= <- <-]. lia.
  - destruct (FletClient.received_bytes t <? fsz) eqn:C.
    + apply Z.ltb_lt in C.
      destruct (FletClient.payload_turn cb p fsz t) as [t1|ex1 t1] eqn:T.
      * destruct (flet_turn_next _ _ _ _ _ C T) as (chunk & q' & _ & Hc & _ & Hr & Hb).
        intros H. pose proof (IH _ Hb H). lia.
      * intros [= <- <-]. exact (flet_turn_stop _ _ _ _ _ _ C T).
    + intros [= <- <-]. lia.
Qed.

(** Once the size is reached the loop is over without a further read. *)
Lemma new_payload_loop_done fuel attempt cb p fsz t :
  fsz <= ClientNew.received_bytes t ->
  ClientNew.payload_loop fuel attempt cb p fsz t = Some (ClientNew.PayloadDone, t).
Proof.
  intros H. apply Z.ltb_ge in H. destruct fuel; simpl; rewrite H; reflexivity.
Qed.

Lemma flet_payload_loop_done fuel cb p fsz t :
  fsz <= FletClient.received_bytes t ->
  FletClient.payload_loop fuel cb p fsz t = Some (None, t).
Proof.
  intros H. apply Z.ltb_ge in H. destruct fuel; simpl; rewrite H; reflexivity.
Qed.

(** C10. In both clients, when the bytes read along with the header do not
    exceed the declared size, [received_bytes <= file_size] holds at every
    turn of the payload loop: a turn asks for at most
    [min(4096, file_size - received_bytes)] bytes and adds to the count
    exactly the number of bytes it got; the loop ends, it ends with
    [received_bytes <= file_size], and it is over at once when the size is
    reached; so whenever the test for a complete transfer,
    [received_bytes >= file_size], succeeds, [received_bytes = file_size]. *)
Theorem received_never_exceeds_size :
  forall (file_size : Z),
    (forall attempt cb save_path t,
        ClientNew.received_bytes t <= file_size ->
        count_bounded ClientNew.t_inbox ClientNew.received_bytes
          (fun t => new_next (ClientNew.payload_turn attempt cb save_path file_size t))
          (ClientNew.read_payload attempt cb save_path file_size) file_size t)
    /\ (forall cb save_path t,
        FletClient.received_bytes t <= file_size ->
        count_bounded FletClient.t_inbox FletClient.received_bytes
          (fun t => flet_next (FletClient.payload_turn cb save_path file_size t))
          (FletClient.read_payload cb save_path file_size) file_size t).
Proof.
  intros fsz. split.
  - intros attempt cb p t Hle. repeat split.
    + intros t' Hlt Ht.
      destruct (ClientNew.payload_turn attempt cb p fsz t) as [t1|] eqn:T; [|discriminate].
      injection Ht as <-.
      destruct (new_turn_next _ _ _ _ _ _ Hlt T) as (chunk & q' & R & Hc & _ & Hr & Hb).
      exists chunk, q'. repeat split; (assumption || lia).
    + destruct (new_read_payload_total attempt cb p fsz t) as [[x t'] E]. eauto.
    + apply (new_payload_loop_inv _ _ _ _ _ _ _ _ Hle H).
    + apply (new_payload_loop_inv _ _ _ _ _ _ _ _ Hle H).
    + pose proof (new_payload_loop_inv _ _ _ _ _ _ _ _ Hle H). lia.
    + intros Hge. eexists. apply new_payload_loop_done. exact Hge.
  - intros cb p t Hle. repeat split.
    + intros t' Hlt Ht.
      destruct (FletClient.payload_turn cb p fsz t) as [t1|] eqn:T; [|discriminate].
      injection Ht as <-.
      destruct (flet_turn_next _ _ _ _ _ Hlt T) as (chunk & q' & R & Hc & _ & Hr & Hb).
      exists chunk, q'. repeat split; (assumption || lia).
    + destruct (flet_payload_loop_total (S (weight (FletClient.t_inbox t))) cb p fsz t
                  ltac:(lia)) as [[x t'] E]. eauto.
    + apply (flet_payload_loop_inv _ _ _ _ _ _ _ Hle H).
    + apply (flet_payload_loop_inv _ _ _ _ _ _ _ Hle H).
    + pose proof (flet_payload_loop_inv _ _ _ _ _ _ _ Hle H). lia.
    + intros Hge. eexists. apply flet_payload_loop_done. exact Hge.
Qed.

(** ** A declared size of zero *)

Lemma new_store_no_payload attempt cb f q h rem :
  ClientNew.h_size h <= len rem ->
  exists f',
    ClientNew.store attempt cb f q h rem = Some (ClientNew.Returned true, f')
    /\ ClientNew.self f' =
       with_record (with_inbox (ClientNew.self f) q)
         (ClientNew.complete_record (ClientNew.env f')
            (ClientNew.target (ClientNew.save_path f) h) h)
    /\ calls (ClientNew.env f') =
       calls (ClientNew.env f) ++ final_call cb (len rem) (ClientNew.h_size h)
    /\ ticks (ClientNew.env f') = ticks (ClientNew.env f).
Proof.
  intros Hle. unfold ClientNew.store, ClientNew.read_payload. cbv zeta.
  rewrite new_payload_loop_done by (simpl; exact Hle).
  cbn [ClientNew.received_bytes ClientNew.t_inbox ClientNew.t_world ClientNew.start].
  apply Z.leb_le in Hle. rewrite Hle.
  eexists. split; [reflexivity|]. cbn [ClientNew.self ClientNew.env].
  split; [reflexivity|].
  destruct cb; simpl; rewrite ?app_nil_r; auto.
Qed.

Lemma flet_no_payload client save_path cb w s hd q h rem :
  socket client = Some s ->
  FletClient.read_header (inbox s) = Some (inr hd, q) ->
  FletClient.decode_header hd = inr (h, rem) ->
  FletClient.h_size h <= len rem ->
  exists w',
    FletClient.try_body client save_path cb w =
      Some (inr true,
            with_record (with_inbox client q)
              (FletClient.final_record w' save_path h (len rem)), w')
    /\ calls w' = calls w ++ final_call cb (len rem) (FletClient.h_size h)
    /\ ticks w' = ticks w.
Proof.
  intros Hs Hh Hd Hle. unfold FletClient.try_body, FletClient.read_payload.
  rewrite Hs, Hh, Hd. rewrite flet_payload_loop_done by (simpl; exact Hle).
  cbn [FletClient.received_bytes FletClient.t_inbox FletClient.t_world FletClient.start].
  eexists. split; [reflexivity|].
  destruct cb; simpl; rewrite ?app_nil_r; auto.
Qed.

(** C8. When the header declares a size of 0, [receive_file] of either
    client returns [True] without another read of the socket (the queue is
    as the header loop left it and no tick of the clock is used): the only
    call of the progress callback is the final one, with 100, and the one
    record appended has status [Complete].  The percentage, which would
    raise [ZeroDivisionError] for this size, is never computed. *)
Theorem zero_size_completes_at_once :
  forall (client : FileClient) (dest : string) (cb : bool) (w : world)
         (s : socket_obj) (header_data : bytes) (q : list event) (rem : bytes),
    connected client = true ->
    socket client = Some s ->
    (forall h,
        ClientNew.read_header 0 (inbox s) = Some (ClientNew.HeaderRead header_data, q) ->
        ClientNew.decode_header header_data = inr (h, rem) ->
        ClientNew.h_size h = 0 ->
        ended_well (ClientNew.receive_file client dest cb w) client w q
          (final_call cb (len rem) 0) "Complete" 0)
    /\ (forall h,
        FletClient.read_header (inbox s) = Some (inr header_data, q) ->
        FletClient.decode_header header_data = inr (h, rem) ->
        FletClient.h_size h = 0 ->
        ended_well (FletClient.receive_file client dest cb w) client w q
          (final_call cb (len rem) 0) "Complete" 0)
    /\ (forall received, exists e,
           py_percent received 0 = inl e /\ kind e = ZeroDivisionError).
Proof.
  intros client dest cb w s hd q rem Hc Hs. split; [|split].
  - intros h Hh Hd Hz.
    assert (Hcon : is_connected client) by (split; [exact Hc | congruence]).
    destruct (new_store_no_payload 0 cb
      {| ClientNew.self := with_inbox client q; ClientNew.env := w;
         ClientNew.save_path := dest; ClientNew.last_exception := None |} q h rem)
      as (f' & Hst & Hself & Hcalls & Hticks).
    { rewrite Hz. apply len_nonneg. }
    assert (H1 : ClientNew.transfer_once 0 cb (first_frame client dest w)
                 = Some (ClientNew.Returned true, f')).
    { unfold ClientNew.transfer_once. cbn [first_frame ClientNew.self].
      rewrite Hs, Hh, Hd. exact Hst. }
    rewrite (new_receive_file_first _ _ _ _ _ _ Hcon H1). cbn [new_verdict].
    exists (ClientNew.self f'), (ClientNew.env f'). eexists.
    split; [reflexivity|]. rewrite Hself. cbn [ClientNew.self ClientNew.env ClientNew.save_path] in *.
    split; [simpl; rewrite Hs; reflexivity|].
    split; [rewrite Hcalls, Hz; reflexivity|].
    split; [exact Hticks|].
    split; [reflexivity|]. split; [reflexivity | exact Hz].
  - intros h Hh Hd Hz.
    destruct (flet_no_payload client dest cb w s hd q h rem Hs Hh Hd) as (w' & Ht & Hcalls & Hticks).
    { rewrite Hz. apply len_nonneg. }
    unfold FletClient.receive_file. rewrite Hc. simpl negb. cbv iota. rewrite Ht.
    eexists. exists w'. eexists. split; [reflexivity|].
    split; [simpl; rewrite Hs; reflexivity|].
    split; [rewrite Hcalls, Hz; reflexivity|].
    split; [exact Hticks|].
    split; [reflexivity|]. split; [|exact Hz].
    cbn [FletClient.final_record status]. unfold FletClient.final_status.
    rewrite Hz. pose proof (len_nonneg rem) as Hn. apply Z.leb_le in Hn. rewrite Hn. reflexivity.
  - intros received. eexists. split; [reflexivity | reflexivity].
Qed.

(** ** What the payload loop writes *)

Lemma set_file_same fs p c : set_file fs p c p = Some c.
Proof. unfold set_file. rewrite String.eqb_refl. reflexivity. Qed.

Lemma append_file_same fs p chunk old :
  fs p = Some old -> append_file fs p chunk p = Some (old ++ chunk).
Proof. intros H. unfold append_file. rewrite set_file_same, H. reflexivity. Qed.

Lemma pop_tick_fs w : fs (snd (pop_tick w)) = fs w.
Proof. unfold pop_tick. destruct (ticks w); reflexivity. Qed.

Lemma new_take_chunk_fs cb p fsz chunk q' t t' r :
  ClientNew.take_chunk cb p fsz chunk q' t = (t', r) ->
  fs (ClientNew.t_world t') = append_file (fs (ClientNew.t_world t)) p chunk.
Proof.
  unfold ClientNew.take_chunk.
  pose proof (pop_tick_fs (with_fs (ClientNew.t_world t)
                (append_file (fs (ClientNew.t_world t)) p chunk))) as Hp.
  destruct (pop_tick _) as [due w2]. simpl in Hp.
  destruct (cb && due)%bool; [destruct (py_percent _ _)|]; intros [= <- _]; simpl; exact Hp.
Qed.

Lemma flet_take_chunk_fs cb p fsz chunk q' t t' r :
  FletClient.take_chunk cb p fsz chunk q' t = (t', r) ->
  fs (FletClient.t_world t') = append_file (fs (FletClient.t_world t)) p chunk.
Proof.
  unfold FletClient.take_chunk.
  pose proof (pop_tick_fs (with_fs (FletClient.t_world t)
                (append_file (fs (FletClient.t_world t)) p chunk))) as Hp.
  destruct (pop_tick _) as [due w2]. simpl in Hp.
  destruct (cb && due)%bool; [destruct (py_percent _ _)|]; intros [= <- _]; simpl; exact Hp.
Qed.

Lemma grew_refl {T : Type} (world_of : T -> world) (count : T -> Z) p t t' :
  fs (world_of t') = fs (world_of t) -> count t' = count t ->
  grew world_of count p t t' [].
Proof. intros Hf Hc old Ho. rewrite Hf, Hc, app_nil_r. unfold len. simpl. split; [exact Ho | lia]. Qed.

Lemma grew_trans {T : Type} (world_of : T -> world) (count : T -> Z) p t1 t2 t3 m1 m2 :
  grew world_of count p t1 t2 m1 -> grew world_of count p t2 t3 m2 ->
  grew world_of count p t1 t3 (m1 ++ m2).
Proof.
  intros H1 H2 old Ho. destruct (H1 old Ho) as [Hf1 Hc1].
  destruct (H2 _ Hf1) as [Hf2 Hc2]. rewrite Hf2, Hc2, Hc1, app_assoc.
  unfold len. rewrite length_app. split; [reflexivity | lia].
Qed.





(** While a retry is left, the loop is only left for good with the size
    reached. *)
Lemma new_payload_done_reason fuel attempt cb p fsz t t' :
  attempt < ClientNew.MAX_RETRIES - 1 ->
  ClientNew.payload_loop fuel attempt cb p fsz t = Some (ClientNew.PayloadDone, t') ->
  fsz <= ClientNew.received_bytes t'.
Proof.
  intros Ha. revert t. induction fuel as [|fuel IH]; intros t; simpl.
  - destruct (ClientNew.received_bytes t <? fsz) eqn:C; [discriminate|].
    intros [= <-]. apply Z.ltb_ge in C. exact C.
  - destruct (ClientNew.received_bytes t <? fsz) eqn:C.
    + apply Z.ltb_lt in C.
      destruct (ClientNew.payload_turn attempt cb p fsz t) as [t1|ex1 t1] eqn:T.
      * apply IH.
      * intros [= -> <-]. destruct (new_turn_stop _ _ _ _ _ _ _ C T) as [_ H2].
        specialize (H2 eq_refl). lia.
    + intros [= <-]. apply Z.ltb_ge in C. exact C.
Qed.

(** ** One record per call *)







(** ** [connect] on a connected client *)

(** C9. [connect(host, port)] on a client that is already connected
    answers [False] and changes nothing: the client object (its socket, its
    flag, its history) and the world (no endpoint is dialed) are as
    before. *)
Theorem connect_when_connected_is_noop :
  forall (client : FileClient) (host : string) (port : Z) (w : world),
    connected client = true ->
    connect client host port w = (false, client, w).
Proof. intros client host port w H. unfold connect. rewrite H. reflexivity. Qed.

(** ** A close in the middle of the payload *)

(** The loop is left with [last_exception] set only before the size is
    reached. *)
Lemma new_payload_break_short fuel attempt cb p fsz t e t' :
  ClientNew.payload_loop fuel attempt cb p fsz t = Some (ClientNew.PayloadBreak e, t') ->
  ClientNew.received_bytes t' < fsz.
Proof.
  revert t. induction fuel as [|fuel IH]; intros t; simpl.
  - destruct (ClientNew.received_bytes t <? fsz); discriminate.
  - destruct (ClientNew.received_bytes t <? fsz) eqn:C; [|discriminate].
    apply Z.ltb_lt in C.
    destruct (ClientNew.payload_turn attempt cb p fsz t) as [t1|ex1 t1] eqn:T; [apply IH|].
    intros [= -> <-]. revert T. unfold ClientNew.payload_turn.
    destruct (recv _ (ClientNew.t_inbox t)) as [[e0|chunk] q'].
    + intros [= _ <-]. exact C.
    + destruct (is_empty chunk).
      * intros [= _ <-]. exact C.
      * destruct (ClientNew.take_chunk _ _ _ _ _ _) as [t2 [e2|]]; discriminate.
Qed.



(** ** The bytes read along with the header *)


Lemma open_destination_wb attempt fs p rem :
  ClientNew.choose_mode attempt fs p = wb ->
  ClientNew.open_destination attempt fs p rem p = Some rem.
Proof.
  intros H. unfold ClientNew.open_destination. rewrite H. simpl.
  destruct rem as [|b r]; simpl.
  - apply set_file_same.
  - rewrite (append_file_same _ _ _ []); [reflexivity | apply set_file_same].
Qed.


Lemma flet_open_destination fs p rem : FletClient.open_destination fs p rem p = Some rem.
Proof.
  unfold FletClient.open_destination. simpl. destruct rem as [|b r]; simpl.
  - apply set_file_same.
  - rewrite (append_file_same _ _ _ []); [reflexivity | apply set_file_same].
Qed.


(** ** The bound on the header *)

Lemma recv_incoming n q :
  1 <= n -> incoming q <> [] ->
  exists chunk q',
    recv n q = (inr chunk, q') /\ is_empty chunk = false
    /\ chunk ++ incoming q' = incoming q /\ (weight q' < weight q)%nat.
Proof.
  intros Hn Hq. destruct q as [|[bs|msg] q0]; cbn [incoming] in Hq; try congruence.
  destruct (is_empty bs) eqn:E; [congruence|]. clear Hq. cbn [incoming recv weight].
  rewrite E. pose proof (is_empty_false _ E) as Hp.
  destruct (len bs <=? n) eqn:C.
  - exists bs, q0. split; [reflexivity|]. split; [exact E|]. split; [reflexivity | lia].
  - apply Z.leb_gt in C. unfold len in C.
    exists (firstn (Z.to_nat n) bs), (Data (skipn (Z.to_nat n) bs) :: q0).
    assert (Hs : is_empty (skipn (Z.to_nat n) bs) = false).
    { destruct (skipn (Z.to_nat n) bs) eqn:S; [|reflexivity].
      apply (f_equal (@List.length byte)) in S. rewrite length_skipn in S.
      cbn [List.length] in S. lia. }
    assert (Hf : is_empty (firstn (Z.to_nat n) bs) = false).
    { destruct (firstn (Z.to_nat n) bs) eqn:S; [|reflexivity].
      apply (f_equal (@List.length byte)) in S. rewrite length_firstn in S.
      cbn [List.length] in S. lia. }
    split; [reflexivity|]. split; [exact Hf|]. split.
    + cbn [incoming]. rewrite Hs, app_assoc, firstn_skipn. reflexivity.
    + cbn [weight]. rewrite length_skipn. lia.
Qed.

Lemma contains_app b x y : contains b (x ++ y) = (contains b x || contains b y)%bool.
Proof. apply existsb_app. Qed.

(** The header loop of [file_client_new.py] stops with the error as soon
    as more than the limit is accumulated. *)
Lemma new_header_overflow fuel attempt q hd :
  (weight q < fuel)%nat ->
  contains newline hd = false ->
  (List.length hd <= Z.to_nat ClientNew.HEADER_LIMIT)%nat ->
  contains newline (firstn (Z.to_nat ClientNew.HEADER_LIMIT - List.length hd) (incoming q))
    = false ->
  (Z.to_nat ClientNew.HEADER_LIMIT < List.length hd + List.length (incoming q))%nat ->
  exists q',
    ClientNew.header_loop fuel attempt q hd = Some (ClientNew.HeaderRaise ClientNew.header_too_large, q').
Proof.
  revert q hd. induction fuel as [|fuel IH]; intros q hd Hw Hhd Hlen Hinc Htot; [lia|].
  cbn [ClientNew.header_loop]. rewrite Hhd.
  assert (Hne : incoming q <> []).
  { intros E. rewrite E in Htot. cbn [List.length] in Htot. lia. }
  destruct (recv_incoming BUFFER_SIZE q ltac:(unfold BUFFER_SIZE; lia) Hne)
    as (chunk & q' & R & E & Happ & Hw').
  rewrite R, E.
  destruct (len (hd ++ chunk) >? ClientNew.HEADER_LIMIT) eqn:C; [eauto|].
  assert (Hc : (List.length (hd ++ chunk) <= Z.to_nat ClientNew.HEADER_LIMIT)%nat).
  { rewrite Z.gtb_ltb in C. apply Z.ltb_ge in C. unfold len in C. lia. }
  rewrite length_app in Hc.
  rewrite <- Happ in Hinc, Htot. rewrite length_app in Htot.
  rewrite firstn_app in Hinc. rewrite contains_app in Hinc.
  apply orb_false_elim in Hinc. destruct Hinc as [H1 H2].
  rewrite firstn_all2 in H1 by lia.
  apply IH.
  - lia.
  - rewrite contains_app, Hhd, H1. reflexivity.
  - rewrite length_app. exact Hc.
  - rewrite length_app.
    replace (Z.to_nat ClientNew.HEADER_LIMIT - (List.length hd + List.length chunk))%nat
      with (Z.to_nat ClientNew.HEADER_LIMIT - List.length hd - List.length chunk)%nat by lia.
    exact H2.
  - rewrite length_app. lia.
Qed.

(** What the header loop hands over never exceeds the limit. *)
Lemma new_header_bounded fuel attempt q hd hx q' :
  len hd <= ClientNew.HEADER_LIMIT ->
  ClientNew.header_loop fuel attempt q hd = Some (hx, q') ->
  match hx with
  | ClientNew.HeaderRead d | ClientNew.HeaderBreak d _ => len d <= ClientNew.HEADER_LIMIT
  | ClientNew.HeaderRaise _ => True
  end.
Proof.
  revert q hd. induction fuel as [|fuel IH]; intros q hd Hlen; cbn [ClientNew.header_loop].
  - destruct (contains newline hd); [|discriminate]. intros [= <- <-]. exact Hlen.
  - destruct (contains newline hd); [intros [= <- <-]; exact Hlen|].
    destruct (recv BUFFER_SIZE q) as [[e|chunk] q0].
    + intros [= <- <-]. unfold ClientNew.header_handler. destruct (attempt <? _); [exact I | exact Hlen].
    + destruct (is_empty chunk).
      * intros [= <- <-]. unfold ClientNew.header_handler.
        destruct (attempt <? _); [exact I | exact Hlen].
      * destruct (len (hd ++ chunk) >? ClientNew.HEADER_LIMIT) eqn:C.
        -- intros [= <- <-]. exact I.
        -- apply IH. rewrite Z.gtb_ltb in C. apply Z.ltb_ge in C. exact C.
Qed.

(** The header loop of [flet_client.py] has two errors only: the close and
    what the transport raises. *)
Lemma flet_header_errors fuel q hd e q' :
  FletClient.header_loop fuel q hd = Some (inl e, q') ->
  e = FletClient.closed_before_header \/ kind e = OSError.
Proof.
  revert q hd. induction fuel as [|fuel IH]; intros q hd; cbn [FletClient.header_loop].
  - destruct (contains newline hd); discriminate.
  - destruct (contains newline hd); [discriminate|].
    destruct q as [|[bs|msg] q0]; cbn [recv].
    + cbn [is_empty]. intros [= <- <-]. left. reflexivity.
    + destruct (len bs <=? BUFFER_SIZE).
      * destruct (is_empty bs); [intros [= <- <-]; left; reflexivity | apply IH].
      * destruct (is_empty _); [intros [= <- <-]; left; reflexivity | apply IH].
    + intros [= <- <-]. right. reflexivity.
Qed.

Lemma slice_to_limit (data : bytes) :
  slice_to data ClientNew.HEADER_LIMIT = firstn (Z.to_nat ClientNew.HEADER_LIMIT) data.
Proof. reflexivity. Qed.

Lemma new_read_header_overflow attempt q :
  ClientNew.HEADER_LIMIT < len (incoming q) ->
  contains newline (slice_to (incoming q) ClientNew.HEADER_LIMIT) = false ->
  exists q',
    ClientNew.read_header attempt q
    = Some (ClientNew.HeaderRaise ClientNew.header_too_large, q').
Proof.
  intros Hlen Hnl. rewrite slice_to_limit in Hnl. unfold ClientNew.read_header.
  apply new_header_overflow.
  - lia.
  - reflexivity.
  - cbn [List.length]. lia.
  - cbn [List.length]. rewrite Nat.sub_0_r. exact Hnl.
  - cbn [List.length]. unfold len, ClientNew.HEADER_LIMIT in *. lia.
Qed.

Lemma flet_read_header_total q : exists r, FletClient.read_header q = Some r.
Proof. apply flet_header_loop_total. lia. Qed.

Lemma flet_read_header_errors q e q' :
  FletClient.read_header q = Some (inl e, q') ->
  e = FletClient.closed_before_header \/ kind e = OSError.
Proof. apply flet_header_errors. Qed.

(** C7, as the code has it.  In [file_client_new.py] the header loop raises
    [ValueError("File header too large, possibly invalid data")] when the
    stream delivers more than 1,024,000 bytes of which the first 1,024,000
    hold no newline; what the loop hands over otherwise is never longer
    than 1,024,000 bytes; and the call of a connected client then raises
    this error and records it.  [flet_client.py] has no such bound: its
    header loop fails only when the peer closes or the transport raises. *)
Theorem header_cap_is_in_file_client_new_only :
  (forall attempt q,
      ClientNew.HEADER_LIMIT < len (incoming q) ->
      contains newline (slice_to (incoming q) ClientNew.HEADER_LIMIT) = false ->
      exists q',
        ClientNew.read_header attempt q
        = Some (ClientNew.HeaderRaise ClientNew.header_too_large, q'))
  /\ (forall attempt q hx q',
      ClientNew.read_header attempt q = Some (hx, q') ->
      match hx with
      | ClientNew.HeaderRead d | ClientNew.HeaderBreak d _ => len d <= ClientNew.HEADER_LIMIT
      | ClientNew.HeaderRaise _ => True
      end)
  /\ (forall client dest cb w s,
      connected client = true ->
      socket client = Some s ->
      ClientNew.HEADER_LIMIT < len (incoming (inbox s)) ->
      contains newline (slice_to (incoming (inbox s)) ClientNew.HEADER_LIMIT) = false ->
      exists client' w' rec,
        ClientNew.receive_file client dest cb w
        = Some (Raises ClientNew.header_too_large, client', w')
        /\ download_history client' = download_history client ++ [rec]
        /\ status rec = "Failed: File header too large, possibly invalid data")
  /\ (forall q e q',
      FletClient.read_header q = Some (inl e, q') ->
      e = FletClient.closed_before_header \/ kind e = OSError).
Proof.
  split; [|split; [|split]].
  - exact new_read_header_overflow.
  - intros attempt q hx q' H. unfold ClientNew.read_header in H.
    apply (new_header_bounded _ _ _ [] _ _) in H; [exact H|].
    unfold len, ClientNew.HEADER_LIMIT. cbn [List.length]. lia.
  - intros client dest cb w s Hc Hs Hlen Hnl.
    assert (Hcon : is_connected client) by (split; [exact Hc | congruence]).
    destruct (new_read_header_overflow 0 (inbox s) Hlen Hnl) as [q' Hh].
    assert (H1 : ClientNew.transfer_once 0 cb (first_frame client dest w)
                 = Some (ClientNew.Raised ClientNew.header_too_large,
                         {| ClientNew.self := with_inbox client q'; ClientNew.env := w;
                            ClientNew.save_path := dest;
                            ClientNew.last_exception := None |})).
    { unfold ClientNew.transfer_once. cbn [first_frame ClientNew.self].
      rewrite Hs, Hh. reflexivity. }
    rewrite (new_receive_file_first _ _ _ _ _ _ Hcon H1). cbn [new_verdict].
    do 3 eexists. split; [reflexivity|]. split; reflexivity.
  - exact flet_read_header_errors.
Qed.

(** On it [flet_client.py] does not report an oversized header. *)
Lemma flet_header_has_no_cap :
  ClientNew.HEADER_LIMIT < len (incoming long_line)
  /\ contains newline (slice_to (incoming long_line) ClientNew.HEADER_LIMIT) = false
  /\ exists r q',
       FletClient.read_header long_line = Some (r, q')
       /\ r <> inl ClientNew.header_too_large.
Proof.
  split; [vm_compute; reflexivity|]. split; [vm_compute; reflexivity|].
  destruct (flet_read_header_total long_line) as [[r q'] E].
  exists r, q'. split; [exact E|].
  destruct r as [e|hd].
  - destruct (flet_read_header_errors _ _ _ E) as [He | Hk]; clear E.
    + rewrite He. intros H. discriminate H.
    + intros H. injection H as H. rewrite H in Hk. discriminate Hk.
  - clear E. intros H. discriminate H.
Qed.

(** ** Runs *)

(** C1 on the code.  The connection drops after 1,000 of 5,000 bytes while
    the server is ready to serve the file again.  [receive_file] of
    [file_client_new.py] dials nobody, since the client is still marked
    connected and [connect] refuses; it raises [ConnectionError] and leaves
    a destination of 1,000 bytes, not the 5,000 intended ones. *)
Theorem drop_after_1000_is_not_resumed :
  observe
    (ClientNew.receive_file (client_on dropped_after_1000) "download" false
       (quiet_world (serving "data.bin|5000|.bin" (sample 5000)) no_files))
    "download.bin"
  = Some (Raises ClientNew.lost_during_transfer,
          Some (firstn 1000 (sample 5000)),
          [],
          ["Failed: Connection lost during transfer"],
          [])
  /\ firstn 1000 (sample 5000) <> sample 5000.
Proof.
  split; [vm_compute; reflexivity|].
  intros H. apply (f_equal (@List.length byte)) in H. vm_compute in H. discriminate H.
Qed.

(** ** The header line, written and read back *)

Lemma horner_of_uint_acc u acc : Z.pos (Pos.of_uint_acc u acc) = horner u (Z.pos acc).
Proof.
  revert acc. induction u; intros acc; cbn [Pos.of_uint_acc horner];
    try rewrite IHu; try reflexivity; f_equal; lia.
Qed.

Lemma horner_of_uint u : Z.of_N (Pos.of_uint u) = horner u 0.
Proof.
  induction u; cbn [Pos.of_uint horner]; try reflexivity; try exact IHu;
    cbn [Z.of_N]; rewrite horner_of_uint_acc; reflexivity.
Qed.

Lemma horner_to_uint p : horner (Pos.to_uint p) 0 = Z.pos p.
Proof. rewrite <- horner_of_uint, DecimalPos.Unsigned.of_to. reflexivity. Qed.

(** Evaluates the tests on the characters that are written out. *)
Ltac char_tests :=
  repeat match goal with
  | |- context [is_digit (Ascii ?a ?b ?c ?d ?e ?f ?g ?h)] =>
    let v := eval vm_compute in (is_digit (Ascii a b c d e f g h)) in
    change (is_digit (Ascii a b c d e f g h)) with v; cbv iota
  | |- context [is_space (Ascii ?a ?b ?c ?d ?e ?f ?g ?h)] =>
    let v := eval vm_compute in (is_space (Ascii a b c d e f g h)) in
    change (is_space (Ascii a b c d e f g h)) with v; cbv iota
  | |- context [Ascii.eqb (Ascii ?a ?b ?c ?d ?e ?f ?g ?h) (Ascii ?a' ?b' ?c' ?d' ?e' ?f' ?g' ?h')] =>
    let v := eval vm_compute in
      (Ascii.eqb (Ascii a b c d e f g h) (Ascii a' b' c' d' e' f' g' h')) in
    change (Ascii.eqb (Ascii a b c d e f g h) (Ascii a' b' c' d' e' f' g' h')) with v;
    cbv iota
  end.

Lemma int_digits_numeral u acc :
  int_digits (NilEmpty.string_of_uint u) acc true = Some (horner u acc, "").
Proof.
  revert acc. induction u; intros acc; cbn [NilEmpty.string_of_uint horner];
    [reflexivity | ..];
    (cbn [int_digits]; char_tests; rewrite IHu;
     do 3 f_equal; unfold digit_val; cbn; lia).
Qed.

Lemma py_int_numeral (u : uint) :
  u <> Nil ->
  py_int (NilEmpty.string_of_uint u) = Some (horner u 0)
  /\ py_int (String "-" (NilEmpty.string_of_uint u)) = Some (- horner u 0).
Proof.
  intros Hu. unfold py_int.
  destruct u; [congruence | ..]; split;
    cbn [NilEmpty.string_of_uint lstrip]; char_tests;
    cbn [int_digits]; char_tests;
    rewrite int_digits_numeral; cbn [all_space horner]; reflexivity.
Qed.

Lemma numeral_nonnil u : u <> Nil -> NilZero.string_of_uint u = NilEmpty.string_of_uint u.
Proof. destruct u; [congruence | ..]; reflexivity. Qed.

(** [int(str(n)) == n]. *)
Lemma py_int_py_str n : py_int (py_str n) = Some n.
Proof.
  unfold py_str. destruct n as [|p|p]; [reflexivity | |]; cbn [Z.to_int NilZero.string_of_int];
    pose proof (DecimalPos.Unsigned.to_uint_nonnil p) as Hn;
    destruct (py_int_numeral _ Hn) as [H1 H2];
    rewrite (numeral_nonnil _ Hn), ?H1, ?H2, horner_to_uint; reflexivity.
Qed.

Lemma split_nonempty sep s : split sep s <> [].
Proof.
  destruct s as [|c r]; cbn [split]; [discriminate|].
  destruct (Ascii.eqb c sep); [discriminate|]. destruct (split sep r); discriminate.
Qed.

Lemma split_field sep a b :
  has_char sep a = false ->
  split sep (a ++ String sep b) = a :: split sep b.
Proof.
  induction a as [|c r IH]; cbn [has_char append split]; intros H.
  - rewrite Ascii.eqb_refl. reflexivity.
  - apply orb_false_elim in H. destruct H as [H1 H2]. rewrite H1, (IH H2). reflexivity.
Qed.

Lemma split_last sep a : has_char sep a = false -> split sep a = [a].
Proof.
  induction a as [|c r IH]; cbn [has_char split]; intros H; [reflexivity|].
  apply orb_false_elim in H. destruct H as [H1 H2]. rewrite H1, (IH H2). reflexivity.
Qed.

Lemma numeral_has_no u c :
  is_digit c = false -> has_char c (NilEmpty.string_of_uint u) = false.
Proof.
  intros Hc. induction u; cbn [NilEmpty.string_of_uint has_char]; [reflexivity | ..];
    rewrite IHu, orb_false_r; apply Ascii.eqb_neq; intros E; rewrite <- E in Hc;
    vm_compute in Hc; discriminate Hc.
Qed.

(** The decimal form of a size holds neither a separator nor a newline. *)
Lemma py_str_has_no n c :
  is_digit c = false -> Ascii.eqb "-" c = false -> has_char c (py_str n) = false.
Proof.
  intros Hc Hm. unfold py_str.
  destruct n as [|p|p]; cbn [Z.to_int NilZero.string_of_int].
  - change (has_char c (NilEmpty.string_of_uint (D0 Nil)) = false).
    apply numeral_has_no. exact Hc.
  - rewrite (numeral_nonnil _ (DecimalPos.Unsigned.to_uint_nonnil p)).
    apply numeral_has_no. exact Hc.
  - rewrite (numeral_nonnil _ (DecimalPos.Unsigned.to_uint_nonnil p)).
    cbn [has_char]. rewrite Hm, numeral_has_no by exact Hc. reflexivity.
Qed.

Lemma has_char_app c a b : has_char c (a ++ b) = (has_char c a || has_char c b)%bool.
Proof.
  induction a as [|d r IH]; cbn [append has_char]; [reflexivity|].
  rewrite IH, orb_assoc. reflexivity.
Qed.

Lemma encode_app a b : encode (a ++ b) = encode a ++ encode b.
Proof.
  unfold encode. induction a as [|c r IH]; [reflexivity|].
  cbn [append]. unfold list_byte_of_string in *. cbn [list_ascii_of_string map app].
  rewrite IH. reflexivity.
Qed.

Lemma decode_encode_text s :
  string_of_list_byte (encode s) = s.
Proof. apply string_of_list_byte_of_string. Qed.

Lemma byte_is_newline c : Byte.eqb (byte_of_ascii c) newline = Ascii.eqb c "010".
Proof.
  destruct (Ascii.eqb c "010") eqn:E.
  - apply Ascii.eqb_eq in E. subst c. reflexivity.
  - destruct (Byte.eqb (byte_of_ascii c) newline) eqn:B; [|reflexivity].
    apply Byte.byte_dec_bl in B. apply (f_equal ascii_of_byte) in B.
    rewrite ascii_of_byte_of_ascii in B. apply Ascii.eqb_neq in E.
    exfalso. apply E. rewrite B. reflexivity.
Qed.

Lemma contains_newline_encode s : contains newline (encode s) = has_char "010" s.
Proof.
  unfold encode, list_byte_of_string, contains.
  induction s as [|c r IH]; [reflexivity|].
  cbn [list_ascii_of_string map existsb has_char]. rewrite IH, byte_is_newline. reflexivity.
Qed.

Lemma find_from_at b x y i :
  contains b x = false -> find_from b (x ++ b :: y) i = i + len x.
Proof.
  revert i. induction x as [|c r IH]; intros i H.
  - rewrite app_nil_l. unfold find_from. rewrite (Byte.byte_dec_lb eq_refl).
    unfold len. cbn [List.length]. lia.
  - rewrite <- app_comm_cons. unfold contains in H. cbn [existsb] in H.
    apply orb_false_elim in H. destruct H as [H1 H2].
    change (find_from b (c :: r ++ b :: y) i)
      with (if Byte.eqb c b then i else find_from b (r ++ b :: y) (i + 1)).
    rewrite H1, (IH _ H2). unfold len. cbn [List.length]. lia.
Qed.

Lemma slice_to_at {A : Type} (x y : list A) : slice_to (x ++ y) (len x) = x.
Proof.
  unfold slice_to, len. destruct (Z.of_nat (List.length x) <? 0) eqn:E;
    [apply Z.ltb_lt in E; lia|].
  rewrite Nat2Z.id, firstn_app, Nat.sub_diag, firstn_all, app_nil_r. reflexivity.
Qed.

Lemma slice_from_at {A : Type} (x : list A) (a : A) (y : list A) :
  slice_from (x ++ a :: y) (len x + 1) = y.
Proof.
  unfold slice_from, len. destruct (Z.of_nat (List.length x) + 1 <? 0) eqn:E;
    [apply Z.ltb_lt in E; lia|].
  replace (Z.to_nat (Z.of_nat (List.length x) + 1)) with (List.length x + 1)%nat by lia.
  rewrite skipn_app, skipn_all2 by lia.
  replace (List.length x + 1 - List.length x)%nat with 1%nat by lia. reflexivity.
Qed.

(** Well-formed UTF-8 followed by more bytes is well formed when the rest
    is. *)
Lemma utf8_valid_app_le n a b :
  (List.length a <= n)%nat -> utf8_valid a = true -> utf8_valid (a ++ b) = utf8_valid b.
Proof.
  revert a. induction n as [|n IH]; intros a Hn Ha.
  - destruct a; [reflexivity | cbn [List.length] in Hn; lia].
  - destruct a as [|b0 r0]; [reflexivity|].
    rewrite <- app_comm_cons. cbn [utf8_valid] in *. cbn [List.length] in Hn.
    destruct (N.ltb (Byte.to_N b0) 128); [apply IH; [lia | exact Ha]|].
    destruct (N.ltb (Byte.to_N b0) 194); [discriminate Ha|].
    destruct (N.ltb (Byte.to_N b0) 224).
    { destruct r0 as [|b1 r1]; [discriminate Ha|]. rewrite <- app_comm_cons.
      apply andb_true_iff in Ha. destruct Ha as [H1 Hv]. rewrite H1.
      cbn [andb List.length] in *. apply IH; [lia | exact Hv]. }
    destruct (N.ltb (Byte.to_N b0) 240).
    { destruct r0 as [|b1 [|b2 r2]]; try discriminate Ha. rewrite <- !app_comm_cons.
      apply andb_true_iff in Ha. destruct Ha as [Ha Hv].
      apply andb_true_iff in Ha. destruct Ha as [H1 H2]. rewrite H1, H2.
      cbn [andb List.length] in *. apply IH; [lia | exact Hv]. }
    destruct (N.ltb (Byte.to_N b0) 245); [|discriminate Ha].
    destruct r0 as [|b1 [|b2 [|b3 r3]]]; try discriminate Ha. rewrite <- !app_comm_cons.
    apply andb_true_iff in Ha. destruct Ha as [Ha Hv].
    apply andb_true_iff in Ha. destruct Ha as [Ha H3].
    apply andb_true_iff in Ha. destruct Ha as [H1 H2]. rewrite H1, H2, H3.
    cbn [andb List.length] in *. apply IH; [lia | exact Hv].
Qed.

Lemma utf8_valid_app a b :
  utf8_valid a = true -> utf8_valid (a ++ b) = utf8_valid b.
Proof. apply (utf8_valid_app_le (List.length a)). lia. Qed.

Lemma utf8_numeral u : utf8_valid (encode (NilEmpty.string_of_uint u)) = true.
Proof.
  induction u; [reflexivity | ..]; cbn [NilEmpty.string_of_uint];
    unfold encode, list_byte_of_string in *; cbn [list_ascii_of_string map];
    match goal with
    | |- utf8_valid (?b :: ?r) = true => change (utf8_valid r = true)
    end; exact IHu.
Qed.

Lemma utf8_py_str n : utf8_valid (encode (py_str n)) = true.
Proof.
  unfold py_str. destruct n as [|p|p]; cbn [Z.to_int NilZero.string_of_int].
  - reflexivity.
  - rewrite (numeral_nonnil _ (DecimalPos.Unsigned.to_uint_nonnil p)). apply utf8_numeral.
  - rewrite (numeral_nonnil _ (DecimalPos.Unsigned.to_uint_nonnil p)).
    change (utf8_valid (encode (NilEmpty.string_of_uint (Pos.to_uint p))) = true).
    apply utf8_numeral.
Qed.

(** A header line made of well-formed fields decodes to itself. *)
Lemma decode_line2 name n :
  utf8_valid (encode name) = true ->
  decode (encode (name ++ "|" ++ py_str n)) = inr (name ++ "|" ++ py_str n)%string.
Proof.
  intros Hv. unfold decode. rewrite !encode_app.
  rewrite (utf8_valid_app _ _ Hv).
  rewrite (utf8_valid_app (encode "|") _ eq_refl), utf8_py_str.
  rewrite <- !encode_app, decode_encode_text. reflexivity.
Qed.


Lemma line_has_no_newline name n :
  has_char "010" name = false ->
  contains newline (encode (name ++ "|" ++ py_str n)) = false.
Proof.
  intros H. rewrite contains_newline_encode, !has_char_app, H.
  rewrite py_str_has_no by reflexivity. reflexivity.
Qed.

(** Both senders write the same line. *)
Lemma same_header_line name n :
  FletServer.encode_header name n = ServerNew.encode_header name n.
Proof.
  unfold FletServer.encode_header, ServerNew.encode_header.
  rewrite !encode_app, !app_assoc. reflexivity.
Qed.

Lemma cut_at_newline line rest :
  contains newline (encode line) = false ->
  py_find newline (encode line ++ [newline] ++ rest) = len (encode line)
  /\ slice_to (encode line ++ [newline] ++ rest) (len (encode line)) = encode line
  /\ slice_from (encode line ++ [newline] ++ rest) (len (encode line) + 1) = rest.
Proof.
  intros H. unfold py_find. change ([newline] ++ rest) with (newline :: rest).
  rewrite (find_from_at _ _ _ _ H).
  split; [lia|]. split; [apply slice_to_at | apply slice_from_at].
Qed.

Lemma flet_decode_sent name n rest :
  has_char "|" name = false ->
  has_char "010" name = false ->
  utf8_valid (encode name) = true ->
  FletClient.decode_header (ServerNew.encode_header name n ++ rest)
  = inr ({| FletClient.h_name := name; FletClient.h_size := n |}, rest).
Proof.
  intros Hp Hn Hv. unfold ServerNew.encode_header. rewrite <- app_assoc.
  destruct (cut_at_newline _ rest (line_has_no_newline name n Hn)) as (Hf & Hto & Hfrom).
  unfold FletClient.decode_header. cbv zeta. rewrite Hf, Hto, Hfrom.
  rewrite (decode_line2 _ _ Hv). unfold FletClient.parse_header.
  change (name ++ "|" ++ py_str n)%string with (name ++ String "|" (py_str n))%string.
  rewrite (split_field _ _ _ Hp), split_last by (apply py_str_has_no; reflexivity).
  rewrite py_int_py_str. reflexivity.
Qed.




(** ** Sending *)

(** When [sendall] does not raise, all the bytes went out. *)
Lemma sendall_script_written data c written c' :
  sendall_script data c = (None, written, c') -> written = data.
Proof.
  revert data written c'. induction c as [|[k|msg] c IH]; intros data written c'.
  - destruct data; cbn [sendall_script]; intros [= <- <-]; reflexivity.
  - destruct data as [|b r]; cbn [sendall_script]; [intros [= <- <-]; reflexivity|].
    destruct (List.length (b :: r) <=? k)%nat; [intros [= <- <-]; reflexivity|].
    destruct (sendall_script (skipn k (b :: r)) c) as [[r0 w0] c0] eqn:E.
    intros [= -> <- <-]. rewrite (IH _ _ _ E). apply firstn_skipn.
  - destruct data; cbn [sendall_script]; [intros [= <- <-]; reflexivity | discriminate].
Qed.

Lemma sendall_script_no_fault data c :
  no_fault c = true ->
  exists c', sendall_script data c = (None, data, c') /\ no_fault c' = true.
Proof.
  revert data. induction c as [|[k|msg] c IH]; intros data H.
  - exists []. destruct data; split; reflexivity.
  - cbn [no_fault forallb] in H. fold (no_fault c) in H. cbn [andb] in H.
    destruct data as [|b r]; cbn [sendall_script].
    + exists (TxAccept k :: c). split; [reflexivity | exact H].
    + destruct (List.length (b :: r) <=? k)%nat; [exists c; split; [reflexivity | exact H]|].
      destruct (IH (skipn k (b :: r)) H) as (c' & E & Hc). rewrite E.
      exists c'. rewrite firstn_skipn. split; [reflexivity | exact Hc].
  - discriminate H.
Qed.

Lemma sendall_wire data sock sock' :
  sendall data sock = (None, sock') ->
  wire sock' = wire sock ++ data
  /\ skipn (List.length (wire sock)) (wire sock') = data
  /\ peername sock' = peername sock.
Proof.
  unfold sendall. destruct (sendall_script data (capacity sock)) as [[r w] c] eqn:E.
  intros [= -> <-]. cbn [wire peername]. rewrite (sendall_script_written _ _ _ _ E).
  split; [reflexivity|]. split; [|reflexivity].
  rewrite skipn_app, skipn_all, Nat.sub_diag. reflexivity.
Qed.

Lemma first_chunk_empty (rest : bytes) :
  is_empty (firstn (Z.to_nat BUFFER_SIZE) rest) = true -> rest = [].
Proof. destruct rest; [reflexivity|]. discriminate. Qed.

Lemma first_chunk_nonempty (rest : bytes) :
  is_empty (firstn (Z.to_nat BUFFER_SIZE) rest) = false -> rest <> [].
Proof. destruct rest; [discriminate | discriminate]. Qed.

Lemma new_send_loop_ok fuel cb fsz s s' :
  ServerNew.send_loop fuel cb fsz s = Some (None, s') ->
  exists tr,
    s_trace (s_env s') = s_trace (s_env s) ++ tr
    /\ sends cb fsz (sent_bytes s) (unread s) tr
    /\ wire (s_sock s') = wire (s_sock s) ++ unread s
    /\ peername (s_sock s') = peername (s_sock s)
    /\ s_fs (s_env s') = s_fs (s_env s)
    /\ s_now (s_env s') = s_now (s_env s).
Proof.
  revert s. induction fuel as [|fuel IH]; intros s; cbn [ServerNew.send_loop]; [discriminate|].
  cbv zeta. destruct (is_empty (firstn (Z.to_nat BUFFER_SIZE) (unread s))) eqn:E.
  - intros [= <-]. cbn [s_env s_sock s_trace log s_fs s_now].
    rewrite (first_chunk_empty _ E). exists [ReadChunk []].
    rewrite app_nil_r. repeat split. constructor.
  - pose proof (first_chunk_nonempty _ E) as Hne.
    destruct (sendall _ (s_sock s)) as [[x|] sock'] eqn:S; [discriminate|].
    destruct (sendall_wire _ _ _ S) as (Hw & Hk & Hp). rewrite Hk.
    destruct cb.
    + destruct (py_percent _ fsz) as [x|percent] eqn:P; [discriminate|].
      intros H. destruct (IH _ H) as (tr & Ht & Hs & Hw' & Hp' & Hf & Hn).
      cbn [s_env s_sock s_trace log s_fs s_now unread sent_bytes] in *.
      eexists. split; [rewrite Ht, <- !app_assoc; reflexivity|].
      split; [apply sends_report; [reflexivity | exact Hne | exact P | exact Hs]|].
      split; [rewrite Hw', Hw, <- app_assoc, firstn_skipn; reflexivity|].
      repeat split; congruence.
    + intros H. destruct (IH _ H) as (tr & Ht & Hs & Hw' & Hp' & Hf & Hn).
      cbn [s_env s_sock s_trace log s_fs s_now unread sent_bytes] in *.
      eexists. split; [rewrite Ht, <- !app_assoc; reflexivity|].
      split; [apply sends_quiet; [reflexivity | exact Hne | exact Hs]|].
      split; [rewrite Hw', Hw, <- app_assoc, firstn_skipn; reflexivity|].
      repeat split; congruence.
Qed.

Lemma new_send_loop_total fuel cb fsz s :
  (List.length (unread s) < fuel)%nat -> exists r, ServerNew.send_loop fuel cb fsz s = Some r.
Proof.
  revert s. induction fuel as [|fuel IH]; intros s Hf; [lia|].
  cbn [ServerNew.send_loop]. cbv zeta.
  destruct (is_empty (firstn (Z.to_nat BUFFER_SIZE) (unread s))) eqn:E; [eauto|].
  pose proof (first_chunk_nonempty _ E) as Hne.
  assert (Hs : (List.length (skipn (Z.to_nat BUFFER_SIZE) (unread s)) < fuel)%nat).
  { rewrite length_skipn. destruct (unread s); [congruence|].
    cbn [List.length] in *. unfold BUFFER_SIZE. lia. }
  destruct (sendall _ (s_sock s)) as [[x|] sock']; [eauto|].
  destruct cb; [destruct (py_percent _ fsz); [eauto|]|]; apply IH; exact Hs.
Qed.

Lemma sendall_no_fault data sock :
  no_fault (capacity sock) = true ->
  exists sock', sendall data sock = (None, sock') /\ no_fault (capacity sock') = true.
Proof.
  intros H. unfold sendall.
  destruct (sendall_script_no_fault data _ H) as (c' & E & Hc). rewrite E.
  eexists. split; [reflexivity | exact Hc].
Qed.


Lemma new_send_file_true server sock file_path cb e content server' sock' e' :
  s_fs e file_path = Some content ->
  ServerNew.send_file server sock file_path cb e = Some (true, server', sock', e') ->
  new_sent_well cb file_path content server sock e server' sock' e'.
Proof.
  intros Hc. unfold ServerNew.send_file, ServerNew.try_body. rewrite Hc. cbv zeta.
  destruct (sendall _ sock) as [[x|] sock1] eqn:S; [discriminate|].
  destruct (sendall_wire _ _ _ S) as (Hw & Hk & Hp). rewrite Hk.
  destruct (ServerNew.send_loop _ cb _ _) as [[[x|] s]|] eqn:L; try discriminate.
  destruct (new_send_loop_ok _ _ _ _ _ L) as (tr & Ht & Hs & Hw' & Hp' & Hf & Hn).
  cbn [s_env s_sock s_trace log s_fs s_now unread sent_bytes] in *.
  intros [= <- <- <-]. unfold new_sent_well. cbv zeta. exists tr. eexists.
  split; [rewrite Ht, <- app_assoc; reflexivity|].
  split; [exact Hs|].
  split; [rewrite Hw', Hw, <- app_assoc; reflexivity|].
  split; [reflexivity|]. split; [reflexivity|].
  cbn [ServerNew.tr_size]. rewrite Hf, Hc. reflexivity.
Qed.


Lemma flet_send_loop_total fuel fsz s :
  (List.length (unread s) < fuel)%nat -> exists r, FletServer.send_loop fuel fsz s = Some r.
Proof.
  revert s. induction fuel as [|fuel IH]; intros s Hf; [lia|].
  cbn [FletServer.send_loop]. destruct (sent_bytes s <? fsz); [|eauto]. cbv zeta.
  destruct (is_empty (firstn (Z.to_nat BUFFER_SIZE) (unread s))) eqn:E; [eauto|].
  pose proof (first_chunk_nonempty _ E) as Hne.
  destruct (send _ (s_sock s)) as [[x|n] sock']; [eauto|].
  apply IH. cbn [unread]. rewrite length_skipn. destruct (unread s); [congruence|].
  cbn [List.length] in *. unfold BUFFER_SIZE. lia.
Qed.

(** [_send_file] of [flet_server.py] always ends. *)
Lemma flet_send_file_total server sock file_path client_info e :
  exists r, FletServer._send_file server sock file_path client_info e = Some r.
Proof.
  unfold FletServer._send_file. cbv zeta.
  destruct (s_fs e file_path) as [content|]; [|eauto].
  destruct (send _ sock) as [[x|n] sock1]; [eauto|].
  match goal with
  | |- context [FletServer.send_loop ?f ?z ?s] =>
    destruct (flet_send_loop_total f z s ltac:(cbn [unread]; lia)) as [[[x|] s'] E];
    rewrite E; eauto
  end.
Qed.


Lemma len_app {A : Type} (x y : list A) : len (x ++ y) = len x + len y.
Proof. unfold len. rewrite length_app. lia. Qed.

Lemma flet_send_loop_all fuel fsz s :
  capacity (s_sock s) = [] ->
  sent_bytes s + len (unread s) = fsz ->
  (List.length (unread s) < fuel)%nat ->
  exists s' tr,
    FletServer.send_loop fuel fsz s = Some (None, s')
    /\ s_trace (s_env s') = s_trace (s_env s) ++ tr
    /\ sends false fsz (sent_bytes s) (unread s) (tr ++ [ReadChunk []])
    /\ wire (s_sock s') = wire (s_sock s) ++ unread s
    /\ sent_bytes s' = fsz
    /\ s_now (s_env s') = s_now (s_env s).
Proof.
  revert s. induction fuel as [|fuel IH]; intros s Hc Hi Hf; [lia|].
  cbn [FletServer.send_loop]. destruct (unread s) as [|b0 r0] eqn:U.
  - unfold len in Hi. cbn [List.length] in Hi.
    assert (C : (sent_bytes s <? fsz) = false) by (apply Z.ltb_ge; lia). rewrite C.
    exists s, []. rewrite !app_nil_r. repeat split; [constructor | lia].
  - assert (C : (sent_bytes s <? fsz) = true).
    { apply Z.ltb_lt. unfold len in Hi. cbn [List.length] in Hi. lia. }
    rewrite C. cbv zeta.
    assert (E : is_empty (firstn (Z.to_nat BUFFER_SIZE) (b0 :: r0)) = false) by reflexivity.
    rewrite E. unfold send at 1. rewrite Hc. cbn [wire fst snd].
    rewrite skipn_app, skipn_all, Nat.sub_diag. cbn [skipn]. rewrite app_nil_l.
    match goal with
    | |- context [FletServer.send_loop fuel fsz ?s1] =>
      destruct (IH s1) as (s' & tr & L & Ht & Hs & Hw & Hsent & Hn)
    end.
    { reflexivity. }
    { cbn [sent_bytes unread]. rewrite <- Hi, <- Z.add_assoc, <- len_app, firstn_skipn.
      reflexivity. }
    { cbn [unread]. rewrite length_skipn. cbn [List.length] in *. unfold BUFFER_SIZE. lia. }
    cbn [s_env s_sock s_trace log s_now unread sent_bytes wire] in *.
    exists s'. eexists. split; [exact L|].
    split; [rewrite Ht, <- !app_assoc; reflexivity|].
    split; [rewrite <- !app_comm_cons, app_nil_l;
            apply sends_quiet; [reflexivity | discriminate | exact Hs]|].
    split; [rewrite Hw, <- app_assoc, firstn_skipn; reflexivity|].
    split; [exact Hsent | exact Hn].
Qed.

Lemma flet_send_file_all server sock file_path client_info e content :
  s_fs e file_path = Some content ->
  capacity sock = [] ->
  flet_sent_well file_path content server sock e
    (FletServer._send_file server sock file_path client_info e).
Proof.
  intros Hc Hcap. unfold FletServer._send_file. rewrite Hc. cbv zeta.
  unfold send at 1. rewrite Hcap. cbn [wire fst snd].
  rewrite skipn_app, skipn_all, Nat.sub_diag. cbn [skipn]. rewrite app_nil_l.
  match goal with
  | |- context [FletServer.send_loop ?f ?z ?s1] =>
    destruct (flet_send_loop_all f z s1) as (s' & tr & L & Ht & Hs & Hw & Hsent & Hn)
  end.
  { reflexivity. }
  { cbn [sent_bytes unread]. lia. }
  { cbn [unread]. lia. }
  rewrite L. cbn [s_env s_sock s_trace log s_now unread sent_bytes wire] in *.
  unfold flet_sent_well. cbv zeta. do 5 eexists.
  split; [reflexivity|].
  split; [rewrite Ht, <- app_assoc, same_header_line; reflexivity|].
  split; [exact Hs|].
  split; [rewrite Hw, <- app_assoc, same_header_line; reflexivity|].
  split; [reflexivity|]. split; [|reflexivity].
  cbn [FletServer.tr_status]. unfold FletServer.final_status. rewrite Hsent.
  rewrite Z.leb_refl. reflexivity.
Qed.


(** ** The statements above on particular runs *)

Lemma connect_when_connected_is_noop_witness :
  connected (client_on []) = true
  /\ connect (client_on []) "127.0.0.1" 12345 w0 = (false, client_on [], w0).
Proof.
  split; [reflexivity | apply connect_when_connected_is_noop; reflexivity].
Defined.

Lemma received_never_exceeds_size_witness :
  ClientNew.received_bytes new_midway <= 10
  /\ count_bounded ClientNew.t_inbox ClientNew.received_bytes
       (fun t => new_next (ClientNew.payload_turn 0 true "out.bin" 10 t))
       (ClientNew.read_payload 0 true "out.bin" 10) 10 new_midway
  /\ count_bounded FletClient.t_inbox FletClient.received_bytes
       (fun t => flet_next (FletClient.payload_turn true "out.bin" 10 t))
       (FletClient.read_payload true "out.bin" 10) 10 flet_midway.
Proof.
  assert (H : 3 <= 10) by lia.
  split; [exact H|]. split.
  - apply (proj1 (received_never_exceeds_size 10)). exact H.
  - apply (proj2 (received_never_exceeds_size 10)). exact H.
Defined.

Lemma zero_size_completes_at_once_witness :
  ended_well (ClientNew.receive_file empty_new "out" true w0) empty_new w0 []
    (final_call true (len (@nil byte)) 0) "Complete" 0
  /\ ended_well (FletClient.receive_file empty_flet "out" true w0) empty_flet w0 []
       (final_call true (len (@nil byte)) 0) "Complete" 0.
Proof.
  split.
  - apply (proj1 (zero_size_completes_at_once empty_new "out" true w0
                    {| sockname := ("127.0.0.1", 50000);
                       inbox := [Data (encode "empty.txt|0|.txt" ++ [newline])] |}
                    (encode "empty.txt|0|.txt" ++ [newline]) [] []
                    eq_refl eq_refl)
             {| ClientNew.h_name := "empty.txt"; ClientNew.h_size := 0;
                ClientNew.h_extension := ".txt" |});
      reflexivity.
  - apply (proj1 (proj2 (zero_size_completes_at_once empty_flet "out" true w0
                    {| sockname := ("127.0.0.1", 50000);
                       inbox := [Data (encode "empty.txt|0" ++ [newline])] |}
                    (encode "empty.txt|0" ++ [newline]) [] []
                    eq_refl eq_refl))
             {| FletClient.h_name := "empty.txt"; FletClient.h_size := 0 |});
      reflexivity.
Defined.










(** [_send_file] of [flet_server.py] hands each chunk to [send] once: when
    the transport takes two of the five bytes, two are on the stream and the
    record says [Complete]. *)
Example flet_send_can_lose_bytes :
  match FletServer._send_file {| FletServer.transfer_history := [] |}
          (open_peer [TxAccept 100; TxAccept 2]) "docs/notes.txt" "127.0.0.1:40000"
          notes_env with
  | Some (b, server, sock, _) =>
    Some (b, wire sock, map FletServer.tr_status (FletServer.transfer_history server))
  | None => None
  end
  = Some (true, encode "notes.txt|5" ++ [newline] ++ encode "he", ["Complete"]).
Proof. vm_compute. reflexivity. Qed.

(** The percentage is computed in floating point and can fall short of the
    exact quotient: 29 chunks of a file of 100 chunks are reported as 28. *)
Example percent_is_a_float_computation :
  py_percent (29 * 4096) (100 * 4096) = inr 28 /\ (29 * 4096 * 100) / (100 * 4096) = 29.
Proof. split; vm_compute; reflexivity. Qed.

Lemma header_cap_is_in_file_client_new_only_witness :
  ClientNew.HEADER_LIMIT < len (incoming long_line)
  /\ contains newline (slice_to (incoming long_line) ClientNew.HEADER_LIMIT) = false
  /\ exists q',
       ClientNew.read_header 0 long_line
       = Some (ClientNew.HeaderRaise ClientNew.header_too_large, q').
Proof.
  assert (H1 : ClientNew.HEADER_LIMIT < len (incoming long_line))
    by (vm_compute; reflexivity).
  assert (H2 : contains newline (slice_to (incoming long_line) ClientNew.HEADER_LIMIT) = false)
    by (vm_compute; reflexivity).
  split; [exact H1|]. split; [exact H2|].
  exact (proj1 header_cap_is_in_file_client_new_only 0 long_line H1 H2).
Defined.

(** * The percentage of a count within the size

    [int((received / size) * 100)] on doubles, for [0 <= received <= size]
    and [0 < size]: the quotient is at most one and the product at most a
    hundred, rounding included, so that the conversion to an integer does
    not raise and gives a number from 0 to 100. *)

Lemma digits2_upper m : 0 <= m -> m < 2 ^ Zdigits2 m.
Proof.
  intros H. destruct m as [|p|p]; [reflexivity | | lia]. cbn [Zdigits2].
  induction p as [p IH|p IH|]; cbn [digits2_pos]; [| |reflexivity];
    rewrite Pos2Z.inj_succ, Z.pow_succ_r by lia; lia.
Qed.

Lemma digits2_le m k : 0 <= m < 2 ^ k -> 0 <= k -> Zdigits2 m <= k.
Proof.
  intros [H0 H] Hk. destruct m as [|p|p]; [exact Hk | | lia]. cbn [Zdigits2].
  clear H0. revert k H Hk. induction p as [p IH|p IH|]; intros k H Hk; cbn [digits2_pos].
  - assert (k <> 0) by (intros ->; cbn in H; lia).
    replace k with (Z.succ (k - 1)) in H by lia. rewrite Z.pow_succ_r in H by lia.
    specialize (IH (k - 1) ltac:(lia) ltac:(lia)). lia.
  - assert (k <> 0) by (intros ->; cbn in H; lia).
    replace k with (Z.succ (k - 1)) in H by lia. rewrite Z.pow_succ_r in H by lia.
    specialize (IH (k - 1) ltac:(lia) ltac:(lia)). lia.
  - assert (k <> 0) by (intros ->; cbn in H; lia). lia.
Qed.

Lemma shr_1_half mrs : 0 <= shr_m mrs -> shr_m (shr_1 mrs) = shr_m mrs / 2.
Proof.
  destruct mrs as [m r s]. cbn [shr_m shr_1]. intros H.
  destruct m as [|[p|p|]|p]; cbn [shr_m]; try lia; try reflexivity.
  - apply Z.div_unique with (r := 1); lia.
  - apply Z.div_unique with (r := 0); lia.
Qed.

Lemma shr_iter_half p mrs :
  0 <= shr_m mrs -> shr_m (iter_pos shr_1 p mrs) = shr_m mrs / 2 ^ Z.pos p.
Proof.
  revert mrs. induction p as [p IH|p IH|]; intros mrs H; cbn [iter_pos].
  - assert (H1 : 0 <= shr_m (shr_1 mrs)).
    { rewrite shr_1_half by exact H. apply Z.div_pos; lia. }
    assert (H2 : 0 <= shr_m (iter_pos shr_1 p (shr_1 mrs))).
    { rewrite IH by exact H1. apply Z.div_pos; lia. }
    rewrite (IH _ H2), (IH _ H1), shr_1_half by exact H.
    rewrite !Z.div_div by lia. f_equal.
    rewrite Pos2Z.inj_xI, <- Z.pow_add_r by lia.
    rewrite <- (Z.pow_1_r 2) at 1. rewrite <- Z.pow_add_r by lia. f_equal. lia.
  - assert (H2 : 0 <= shr_m (iter_pos shr_1 p mrs)).
    { rewrite IH by exact H. apply Z.div_pos; lia. }
    rewrite (IH _ H2), (IH _ H).
    rewrite !Z.div_div by lia. f_equal.
    rewrite Pos2Z.inj_xO, <- Z.pow_add_r by lia. f_equal. lia.
  - rewrite shr_1_half by exact H. reflexivity.
Qed.

Lemma shr_record_of_loc_m m l : shr_m (shr_record_of_loc m l) = m.
Proof. destruct l as [|[| |]]; reflexivity. Qed.

Lemma digits2_nonneg m : 0 <= Zdigits2 m.
Proof. destruct m; cbn; lia. Qed.

Lemma shr_1_inexact mrs :
  0 <= shr_m mrs ->
  (shr_r (shr_1 mrs) || shr_s (shr_1 mrs))%bool = true ->
  (shr_r mrs || shr_s mrs)%bool = true \/ 2 * shr_m (shr_1 mrs) < shr_m mrs.
Proof.
  destruct mrs as [m r s]. cbn [shr_m shr_r shr_s shr_1]. intros H.
  destruct m as [|[p|p|]|p]; cbn [shr_m shr_r shr_s orb]; try lia; auto.
Qed.

(** What a shift drops is remembered: a shifted record that is not exact
    comes from one that was not, or from a mantissa that lost a bit. *)
Lemma shr_iter_inexact p mrs :
  0 <= shr_m mrs ->
  (shr_r (iter_pos shr_1 p mrs) || shr_s (iter_pos shr_1 p mrs))%bool = true ->
  (shr_r mrs || shr_s mrs)%bool = true
  \/ 2 ^ Z.pos p * shr_m (iter_pos shr_1 p mrs) < shr_m mrs.
Proof.
  assert (step : forall a b c j k : Z,
             0 < j -> 0 < k -> 0 <= a -> b = a / j -> c = b / k ->
             (k * c < b -> j * k * c < a) /\ (j * b < a -> j * k * c < a)).
  { intros a b c j k Hj Hk Ha -> ->.
    pose proof (Z.mul_div_le a j Hj). pose proof (Z.mul_div_le (a / j) k Hk).
    split; intros L; nia. }
  revert mrs. induction p as [p IH|p IH|]; intros mrs H; cbn [iter_pos].
  - assert (H1 : 0 <= shr_m (shr_1 mrs)).
    { rewrite shr_1_half by exact H. apply Z.div_pos; lia. }
    assert (H2 : 0 <= shr_m (iter_pos shr_1 p (shr_1 mrs))).
    { rewrite shr_iter_half by exact H1. apply Z.div_pos; lia. }
    assert (P : 0 < 2 ^ Z.pos p) by (apply Z.pow_pos_nonneg; lia).
    pose proof (shr_1_half mrs H) as E1.
    pose proof (shr_iter_half p _ H1) as E2.
    pose proof (shr_iter_half p _ H2) as E3.
    destruct (step _ _ _ 2 (2 ^ Z.pos p) ltac:(lia) P H E1 E2) as [S1 S2].
    assert (E12 : shr_m (iter_pos shr_1 p (shr_1 mrs)) = shr_m mrs / (2 * 2 ^ Z.pos p)).
    { rewrite E2, E1, Z.div_div by lia. reflexivity. }
    destruct (step _ _ _ (2 * 2 ^ Z.pos p) (2 ^ Z.pos p) ltac:(lia) P H E12 E3)
      as [S3 S4].
    assert (Q : 2 ^ Z.pos p~1 = 2 * 2 ^ Z.pos p * 2 ^ Z.pos p).
    { rewrite Pos2Z.inj_xI. replace (2 * Z.pos p + 1) with (1 + Z.pos p + Z.pos p) by lia.
      rewrite !Z.pow_add_r, Z.pow_1_r by lia. reflexivity. }
    rewrite Q. intros I3.
    destruct (IH _ H2 I3) as [I2|L]; [|right; apply S3; exact L].
    destruct (IH _ H1 I2) as [I1|L]; [|right; apply S4; nia].
    destruct (shr_1_inexact _ H I1) as [I0|L]; [left; exact I0|].
    right. apply S4. nia.
  - assert (H2 : 0 <= shr_m (iter_pos shr_1 p mrs)).
    { rewrite shr_iter_half by exact H. apply Z.div_pos; lia. }
    assert (P : 0 < 2 ^ Z.pos p) by (apply Z.pow_pos_nonneg; lia).
    pose proof (shr_iter_half p _ H) as E2.
    pose proof (shr_iter_half p _ H2) as E3.
    destruct (step _ _ _ (2 ^ Z.pos p) (2 ^ Z.pos p) P P H E2 E3) as [S3 S4].
    assert (Q : 2 ^ Z.pos p~0 = 2 ^ Z.pos p * 2 ^ Z.pos p).
    { rewrite Pos2Z.inj_xO, <- Z.pow_add_r by lia. f_equal. lia. }
    rewrite Q. intros I3.
    destruct (IH _ H2 I3) as [I2|L]; [|right; apply S3; exact L].
    destruct (IH _ H I2) as [I1|L]; [left; exact I1|].
    right. apply S4. exact L.
  - intros I. destruct (shr_1_inexact _ H I) as [I0|L]; [left; exact I0|].
    right. change (2 ^ 1) with 2. exact L.
Qed.

Lemma loc_of_shr_record_inexact mrs :
  loc_of_shr_record mrs <> loc_Exact -> (shr_r mrs || shr_s mrs)%bool = true.
Proof. destruct mrs as [m [|] [|]]; cbn; intros H; try reflexivity. contradiction. Qed.

Lemma shr_record_of_loc_inexact m l :
  (shr_r (shr_record_of_loc m l) || shr_s (shr_record_of_loc m l))%bool = true ->
  l <> loc_Exact.
Proof. destruct l as [|[| |]]; cbn; intros H; discriminate. Qed.

Lemma loc_of_shr_record_of_loc m l : loc_of_shr_record (shr_record_of_loc m l) = l.
Proof. destruct l as [|[| |]]; reflexivity. Qed.

(** Shifting a number that is at most [K], and below [K] when something
    was dropped before, to the exponent the format asks for: the mantissa
    stays within [K] at the new exponent, and below it when something has
    been dropped. *)
Lemma shr_fexp_le m e l K :
  0 <= m -> e <= 0 -> 0 < K <= 2 ^ 52 ->
  m <= K * 2 ^ (- e) -> (l <> loc_Exact -> m < K * 2 ^ (- e)) ->
  0 <= shr_m (fst (shr_fexp fprec femax m e l))
  /\ snd (shr_fexp fprec femax m e l) <= 0
  /\ shr_m (fst (shr_fexp fprec femax m e l))
     <= K * 2 ^ (- snd (shr_fexp fprec femax m e l))
  /\ (loc_of_shr_record (fst (shr_fexp fprec femax m e l)) <> loc_Exact ->
      shr_m (fst (shr_fexp fprec femax m e l))
      < K * 2 ^ (- snd (shr_fexp fprec femax m e l))).
Proof.
  intros H He HK B S. unfold shr_fexp, shr.
  pose proof (digits2_nonneg m) as N.
  assert (D : Zdigits2 m + e <= 53).
  { assert (Zdigits2 m <= 53 - e); [|lia]. apply digits2_le; [|lia]. split; [exact H|].
    assert (P : 0 < 2 ^ (- e)) by (apply Z.pow_pos_nonneg; lia).
    replace (53 - e) with (53 + - e) by lia. rewrite Z.pow_add_r by lia.
    change (2 ^ 53) with (2 * 2 ^ 52). nia. }
  set (d := Zdigits2 m) in *.
  assert (F : fexp fprec femax (d + e) <= 0) by (unfold fexp, emin, fprec, femax; lia).
  destruct (fexp fprec femax (d + e) - e) as [|p|p] eqn:E; cbn [fst snd];
    rewrite ?shr_record_of_loc_m, ?loc_of_shr_record_of_loc; auto.
  assert (M0 : 0 <= shr_m (shr_record_of_loc m l))
    by (rewrite shr_record_of_loc_m; exact H).
  pose proof (shr_iter_half p _ M0) as E1.
  pose proof (shr_iter_inexact p _ M0) as E2.
  rewrite shr_record_of_loc_m in E1, E2.
  set (m' := shr_m (iter_pos shr_1 p (shr_record_of_loc m l))) in *.
  assert (P : 0 < 2 ^ Z.pos p) by (apply Z.pow_pos_nonneg; lia).
  assert (P' : 0 < 2 ^ (- (e + Z.pos p))) by (apply Z.pow_pos_nonneg; lia).
  assert (Q : 2 ^ (- e) = 2 ^ Z.pos p * 2 ^ (- (e + Z.pos p))).
  { rewrite <- Z.pow_add_r by lia. f_equal. lia. }
  pose proof (Z.mul_div_le m (2 ^ Z.pos p) P) as L. rewrite <- E1 in L.
  split; [rewrite E1; apply Z.div_pos; lia|]. split; [lia|]. split.
  - rewrite E1. apply Z.div_le_upper_bound; [exact P|]. rewrite Q in B. lia.
  - intros I. apply loc_of_shr_record_inexact in I.
    destruct (E2 I) as [I0|I0].
    + pose proof (S (shr_record_of_loc_inexact _ _ I0)) as S0. rewrite Q in S0. nia.
    + rewrite Q in B. nia.
Qed.

Lemma round_nearest_even_le m l B :
  m <= B -> (l <> loc_Exact -> m < B) ->
  m <= round_nearest_even m l <= B.
Proof.
  intros H S. unfold round_nearest_even.
  destruct l as [|[| |]]; try lia; try (destruct (Z.even m));
    try lia; assert (m < B) by (apply S; discriminate); lia.
Qed.

(** Rounding a number that is at most [K] to a double gives zero or a
    finite double that is at most [K]. *)
Lemma binary_round_aux_le sx mx ex lx K :
  0 <= mx -> ex <= 0 -> 0 < K <= 2 ^ 52 ->
  mx <= K * 2 ^ (- ex) -> (lx <> loc_Exact -> mx < K * 2 ^ (- ex)) ->
  binary_round_aux fprec femax sx mx ex lx = S754_zero sx
  \/ exists m e,
       binary_round_aux fprec femax sx mx ex lx = S754_finite sx m e
       /\ e <= 0 /\ Z.pos m <= K * 2 ^ (- e).
Proof.
  intros H He HK B S. unfold binary_round_aux.
  pose proof (shr_fexp_le mx ex lx K H He HK B S) as (A1 & A2 & A3 & A4).
  destruct (shr_fexp fprec femax mx ex lx) as [mrs' e'].
  cbn [fst snd] in A1, A2, A3, A4.
  pose proof (round_nearest_even_le _ (loc_of_shr_record mrs') _ A3 A4) as R.
  set (m1 := round_nearest_even (shr_m mrs') (loc_of_shr_record mrs')) in *.
  pose proof (shr_fexp_le m1 e' loc_Exact K ltac:(lia) A2 HK (proj2 R)
                ltac:(intros X; contradiction)) as (B1 & B2 & B3 & _).
  destruct (shr_fexp fprec femax m1 e' loc_Exact) as [mrs'' e''].
  cbn [fst snd] in B1, B2, B3.
  destruct (shr_m mrs'') as [|m|m] eqn:M; [left; reflexivity | | lia].
  right. exists m, e''.
  assert (Le : (e'' <=? femax - fprec) = true)
    by (apply Z.leb_le; unfold femax, fprec; lia).
  rewrite Le. split; [reflexivity|]. split; [exact B2 | exact B3].
Qed.

(** The quotient of two positive integers, the smaller on top, before it
    is rounded: at most one, and below one when the division left a
    remainder. *)
Lemma div_core_le a b :
  (a <= b)%positive ->
  0 <= fst (fst (SFdiv_core_binary fprec femax (Z.pos a) 0 (Z.pos b) 0))
  /\ snd (fst (SFdiv_core_binary fprec femax (Z.pos a) 0 (Z.pos b) 0)) <= 0
  /\ fst (fst (SFdiv_core_binary fprec femax (Z.pos a) 0 (Z.pos b) 0))
     <= 1 * 2 ^ (- snd (fst (SFdiv_core_binary fprec femax (Z.pos a) 0 (Z.pos b) 0)))
  /\ (snd (SFdiv_core_binary fprec femax (Z.pos a) 0 (Z.pos b) 0) <> loc_Exact ->
      fst (fst (SFdiv_core_binary fprec femax (Z.pos a) 0 (Z.pos b) 0))
      < 1 * 2 ^ (- snd (fst (SFdiv_core_binary fprec femax (Z.pos a) 0 (Z.pos b) 0)))).
Proof.
  intros L. unfold SFdiv_core_binary.
  pose proof (digits2_upper (Z.pos b) ltac:(lia)) as Ub.
  pose proof (digits2_nonneg (Z.pos a)) as Na.
  pose proof (digits2_nonneg (Z.pos b)) as Nb.
  assert (Dab : Zdigits2 (Z.pos a) <= Zdigits2 (Z.pos b)).
  { apply digits2_le; lia. }
  set (da := Zdigits2 (Z.pos a)) in *. set (db := Zdigits2 (Z.pos b)) in *.
  set (e' := Z.min (fexp fprec femax (da + 0 - (db + 0))) (0 - 0)).
  assert (E' : e' < 0) by (unfold e', fexp, emin, fprec, femax; lia).
  destruct (0 - 0 - e') as [|s|s] eqn:S; [lia | | lia].
  pose proof (Z_div_mod (Z.shiftl (Z.pos a) (Z.pos s)) (Z.pos b) ltac:(lia)) as DM.
  destruct (Z.div_eucl (Z.shiftl (Z.pos a) (Z.pos s)) (Z.pos b)) as [q r].
  destruct DM as [DM R]. rewrite Z.shiftl_mul_pow2 in DM by lia.
  cbn [fst snd]. replace (- e') with (Z.pos s) by lia.
  assert (P : 0 < 2 ^ Z.pos s) by (apply Z.pow_pos_nonneg; lia).
  split; [nia|]. split; [lia|]. split; [nia|].
  intros I. assert (r <> 0).
  { intros ->. apply I. unfold new_location, new_location_even, new_location_odd.
    destruct (Z.even (Z.pos b)); reflexivity. }
  nia.
Qed.

(** So the true division of [a] by [b], [0 <= a <= b] and [0 < b], is zero
    or a finite double that is at most one. *)
Lemma true_div_le a b :
  0 <= a <= b -> 0 < b ->
  true_div a b = S754_zero false
  \/ exists m e, true_div a b = S754_finite false m e
                 /\ e <= 0 /\ Z.pos m <= 1 * 2 ^ (- e).
Proof.
  intros [Ha Hab] Hb. unfold true_div.
  destruct b as [|b|b]; [lia | | lia].
  destruct a as [|a|a]; [left; reflexivity | | lia].
  unfold SFdiv. pose proof (div_core_le a b ltac:(lia)) as (C1 & C2 & C3 & C4).
  destruct (SFdiv_core_binary fprec femax (Z.pos a) 0 (Z.pos b) 0) as [[q e] l].
  cbn [fst snd] in C1, C2, C3, C4.
  exact (binary_round_aux_le (xorb false false) q e l 1 C1 C2
           ltac:(split; [lia | change (2 ^ 52) with 4503599627370496; lia]) C3 C4).
Qed.

(** The percentage of a count within the size is there, and lies between
    0 and 100. *)
Lemma py_percent_within a b :
  0 <= a <= b -> 0 < b -> exists p, py_percent a b = inr p /\ 0 <= p <= 100.
Proof.
  intros Hab Hb. unfold py_percent.
  destruct (b =? 0) eqn:B; [apply Z.eqb_eq in B; lia|].
  destruct (true_div_le a b Hab Hb) as [Z | (m & e & R & R1 & R2)].
  - rewrite Z. cbn. eexists. split; [reflexivity | lia].
  - rewrite R. unfold SFmul.
    assert (P : 0 < 2 ^ (- e)) by (apply Z.pow_pos_nonneg; lia).
    destruct (binary_round_aux_le (xorb false false) (Z.pos (m * 100)) (e + 0)
                loc_Exact 100 ltac:(lia) ltac:(lia)
                ltac:(split; [lia | change (2 ^ 52) with 4503599627370496; lia])
                ltac:(rewrite Z.add_0_r, Pos2Z.inj_mul; lia)
                ltac:(intros X; contradiction))
      as [Z | (m1 & e1 & Q & Q1 & Q2)].
    + rewrite Z. eexists. split; [reflexivity | lia].
    + rewrite Q. unfold int_of_float, xorb. eexists. split; [reflexivity|].
      assert (P1 : 0 < 2 ^ (- e1)) by (apply Z.pow_pos_nonneg; lia).
      destruct (0 <=? e1) eqn:E1.
      * apply Z.leb_le in E1. assert (e1 = 0) by lia. subst e1.
        change (2 ^ (- 0)) with 1 in Q2. change (2 ^ 0) with 1. lia.
      * split; [apply Z.div_pos; lia|].
        apply Z.div_le_upper_bound; [exact P1 | lia].
Qed.

(** The percentage of the whole is a hundred. *)
Lemma py_percent_full n : 0 < n -> py_percent n n = inr 100.
Proof.
  intros H. unfold py_percent.
  destruct (n =? 0) eqn:B; [apply Z.eqb_eq in B; lia|].
  destruct n as [|a|a]; [lia | | lia].
  assert (Q : true_div (Z.pos a) (Z.pos a) = S754_finite false 4503599627370496 (-52)).
  { unfold true_div, SFdiv, SFdiv_core_binary.
    replace (Zdigits2 (Z.pos a) + 0 - (Zdigits2 (Z.pos a) + 0)) with 0 by lia.
    change (0 - 0 - Z.min (fexp fprec femax 0) (0 - 0)) with 53.
    change (Z.min (fexp fprec femax 0) (0 - 0)) with (-53).
    rewrite Z.shiftl_mul_pow2 by lia.
    assert (E : Z.div_eucl (Z.pos a * 2 ^ 53) (Z.pos a) = (2 ^ 53, 0)).
    { rewrite (surjective_pairing (Z.div_eucl _ _)).
      change (fst (Z.div_eucl (Z.pos a * 2 ^ 53) (Z.pos a)))
        with (Z.pos a * 2 ^ 53 / Z.pos a).
      change (snd (Z.div_eucl (Z.pos a * 2 ^ 53) (Z.pos a)))
        with ((Z.pos a * 2 ^ 53) mod Z.pos a).
      rewrite (Z.mul_comm (Z.pos a)), Z.div_mul, Z.mod_mul by lia. reflexivity. }
    rewrite E.
    replace (new_location (Z.pos a) 0) with loc_Exact
      by (unfold new_location; destruct (Z.even (Z.pos a)); reflexivity).
    vm_compute. reflexivity. }
  rewrite Q. vm_compute. reflexivity.
Qed.

(** So a chunk that keeps the count within the size is taken without an
    error: the percentage is the only step that could raise. *)
Lemma flet_take_chunk_fine cb p fsz chunk q' t t' r :
  FletClient.take_chunk cb p fsz chunk q' t = (t', r) ->
  0 <= FletClient.received_bytes t ->
  FletClient.received_bytes t + len chunk <= fsz -> 0 < fsz ->
  r = None.
Proof.
  unfold FletClient.take_chunk. destruct (pop_tick _) as [due w2]. intros T H0 H1 H2.
  destruct (cb && due)%bool; [|injection T as _ <-; reflexivity].
  pose proof (len_nonneg chunk) as N.
  destruct (py_percent_within (FletClient.received_bytes t + len chunk) fsz
              ltac:(lia) H2) as (percent & E & _).
  rewrite E in T. injection T as _ <-. reflexivity.
Qed.

Lemma new_take_chunk_fine cb p fsz chunk q' t t' r :
  ClientNew.take_chunk cb p fsz chunk q' t = (t', r) ->
  0 <= ClientNew.received_bytes t ->
  ClientNew.received_bytes t + len chunk <= fsz -> 0 < fsz ->
  r = None.
Proof.
  unfold ClientNew.take_chunk. destruct (pop_tick _) as [due w2]. intros T H0 H1 H2.
  destruct (cb && due)%bool; [|injection T as _ <-; reflexivity].
  pose proof (len_nonneg chunk) as N.
  destruct (py_percent_within (ClientNew.received_bytes t + len chunk) fsz
              ltac:(lia) H2) as (percent & E & _).
  rewrite E in T. injection T as _ <-. reflexivity.
Qed.

(** The chunk a turn of the payload loop reads keeps the count within the
    size. *)
Lemma chunk_within q chunk q' received fsz :
  received < fsz ->
  recv (Z.min BUFFER_SIZE (fsz - received)) q = (inr chunk, q') ->
  received + len chunk <= fsz.
Proof.
  intros C R.
  assert (Hn : 0 <= Z.min BUFFER_SIZE (fsz - received)) by (unfold BUFFER_SIZE; lia).
  pose proof (recv_bound _ _ _ _ Hn R). lia.
Qed.


(** What leaves the payload loop of [flet_client.py] as an exception is
    an error of the transport: the percentage does not raise there. *)
Lemma flet_payload_loop_errors fuel cb p fsz t e t' :
  0 <= FletClient.received_bytes t ->
  FletClient.payload_loop fuel cb p fsz t = Some (Some e, t') ->
  kind e = OSError.
Proof.
  revert t. induction fuel as [|fuel IH]; intros t H0; cbn [FletClient.payload_loop].
  - destruct (_ <? _); discriminate.
  - destruct (_ <? _) eqn:C; [|discriminate]. apply Z.ltb_lt in C.
    unfold FletClient.payload_turn.
    destruct (recv _ (FletClient.t_inbox t)) as [[x|chunk] q'] eqn:R.
    + intros [= <- <-].
      destruct (FletClient.t_inbox t) as [|[bs|msg] q0]; cbn [recv] in R;
        [discriminate R | destruct (_ <=? _); discriminate R |].
      injection R as <- _. reflexivity.
    + destruct (is_empty chunk); [discriminate|].
      pose proof (chunk_within _ _ _ _ _ C R) as B.
      destruct (FletClient.take_chunk cb p fsz chunk q' t) as [t1 r] eqn:T.
      rewrite (flet_take_chunk_fine _ _ _ _ _ _ _ _ T H0 B ltac:(lia)).
      apply IH. rewrite (flet_take_chunk_received _ _ _ _ _ _ _ _ T).
      pose proof (len_nonneg chunk). lia.
Qed.

Lemma new_payload_loop_errors fuel attempt cb p fsz t ex t' :
  0 <= ClientNew.received_bytes t ->
  ClientNew.payload_loop fuel attempt cb p fsz t = Some (ex, t') ->
  match ex with
  | ClientNew.PayloadDone => True
  | ClientNew.PayloadBreak e | ClientNew.PayloadRaise e =>
    e = ClientNew.lost_during_transfer \/ kind e = OSError
  end.
Proof.
  revert t. induction fuel as [|fuel IH]; intros t H0; cbn [ClientNew.payload_loop].
  - destruct (_ <? _); [discriminate|]. intros [= <- <-]. exact I.
  - destruct (_ <? _) eqn:C; [|intros [= <- <-]; exact I]. apply Z.ltb_lt in C.
    unfold ClientNew.payload_turn.
    destruct (recv _ (ClientNew.t_inbox t)) as [[x|chunk] q'] eqn:R.
    + assert (K : kind x = OSError).
      { destruct (ClientNew.t_inbox t) as [|[bs|msg] q0]; cbn [recv] in R;
          [discriminate R | destruct (_ <=? _); discriminate R |].
        injection R as <- _. reflexivity. }
      unfold ClientNew.payload_handler. destruct (attempt <? _); intros [= <- <-]; auto.
    + destruct (is_empty chunk).
      * unfold ClientNew.payload_handler.
        destruct (attempt <? _); intros [= <- <-]; [left; reflexivity | exact I].
      * pose proof (chunk_within _ _ _ _ _ C R) as B.
        destruct (ClientNew.take_chunk cb p fsz chunk q' t) as [t1 r] eqn:T.
        rewrite (new_take_chunk_fine _ _ _ _ _ _ _ _ T H0 B ltac:(lia)).
        apply IH. rewrite (new_take_chunk_received _ _ _ _ _ _ _ _ T).
        pose proof (len_nonneg chunk). lia.
Qed.

(** * More of the receiving side: the stream and the file *)

Lemma contains_split b data :
  contains b data = true ->
  exists x y, data = x ++ b :: y /\ contains b x = false.
Proof.
  induction data as [|c r IH]; cbn [contains existsb]; [discriminate|].
  destruct (Byte.eqb c b) eqn:E.
  - intros _. exists [], r. apply Byte.byte_dec_bl in E. subst c. split; reflexivity.
  - cbn [orb]. intros H. destruct (IH H) as (x & y & -> & Hx).
    exists (c :: x), y. split; [reflexivity|]. cbn [contains existsb]. rewrite E. exact Hx.
Qed.

(** A stream that has a newline is its first line, the newline, and what
    follows. *)
Lemma line_and_rest data :
  contains newline data = true ->
  data = first_line data ++ newline :: after_newline data
  /\ contains newline (first_line data) = false.
Proof.
  intros H. destruct (contains_split _ _ H) as (x & y & -> & Hx).
  unfold first_line, after_newline, py_find.
  rewrite (find_from_at _ _ _ 0 Hx). cbn [Z.add].
  rewrite slice_to_at, slice_from_at. split; [reflexivity | exact Hx].
Qed.

(** The first line and the rest of a stream are already those of any of
    its prefixes that holds the newline. *)
Lemma first_line_prefix hd rest :
  contains newline hd = true ->
  first_line (hd ++ rest) = first_line hd
  /\ after_newline (hd ++ rest) = after_newline hd ++ rest.
Proof.
  intros H. destruct (contains_split _ _ H) as (x & y & -> & Hx).
  unfold first_line, after_newline, py_find.
  rewrite <- app_assoc, <- app_comm_cons.
  rewrite !(find_from_at _ _ _ 0 Hx). cbn [Z.add].
  rewrite !slice_to_at, !slice_from_at. split; reflexivity.
Qed.

Lemma recv_chunk_incoming n q chunk q' :
  recv n q = (inr chunk, q') -> is_empty chunk = false ->
  chunk ++ incoming q' = incoming q.
Proof.
  destruct q as [|[bs|msg] q0]; cbn [recv].
  - intros [= <- <-]. discriminate.
  - destruct (len bs <=? n) eqn:C.
    + intros [= <- <-] E. cbn [incoming]. rewrite E. reflexivity.
    + intros [= <- <-] E. apply Z.leb_gt in C. unfold len in C.
      pose proof (is_empty_false _ E) as Hp. rewrite length_firstn in Hp.
      cbn [incoming].
      assert (Hs : is_empty (skipn (Z.to_nat n) bs) = false).
      { destruct (skipn (Z.to_nat n) bs) eqn:S; [|reflexivity].
        apply (f_equal (@List.length byte)) in S. rewrite length_skipn in S.
        cbn [List.length] in S. lia. }
      assert (Hb : is_empty bs = false).
      { destruct bs; [cbn in Hp; lia | reflexivity]. }
      rewrite Hs, Hb, app_assoc, firstn_skipn. reflexivity.
  - discriminate.
Qed.

Lemma same_outside_refl p w : same_outside p w w.
Proof. repeat split. Qed.

Lemma same_outside_trans p w1 w2 w3 :
  same_outside p w1 w2 -> same_outside p w2 w3 -> same_outside p w1 w3.
Proof.
  intros (F1 & D1 & N1 & T1) (F2 & D2 & N2 & T2). repeat split.
  - intros p' Hp. rewrite (F2 _ Hp). apply F1, Hp.
  - congruence.
  - congruence.
  - congruence.
Qed.

Lemma set_file_other fs p c p' : p' <> p -> set_file fs p c p' = fs p'.
Proof.
  intros H. unfold set_file. destruct (String.eqb p' p) eqn:E; [|reflexivity].
  apply String.eqb_eq in E. contradiction.
Qed.

Lemma append_file_other fs p chunk p' : p' <> p -> append_file fs p chunk p' = fs p'.
Proof. intros H. unfold append_file. apply set_file_other, H. Qed.

Lemma open_file_other fs p m p' : p' <> p -> open_file fs p m p' = fs p'.
Proof.
  intros H. destruct m; cbn [open_file]; [apply set_file_other, H|].
  destruct (fs p); [reflexivity | apply set_file_other, H].
Qed.

(** What a written chunk changes in the world: the file at [p]; the
    calls of the callback only grow. *)
Lemma flet_take_chunk_world cb p fsz chunk q' t t' r :
  FletClient.take_chunk cb p fsz chunk q' t = (t', r) ->
  same_outside p (FletClient.t_world t) (FletClient.t_world t')
  /\ (updates_due cb (FletClient.t_world t) = false ->
      r = None /\ calls (FletClient.t_world t') = calls (FletClient.t_world t)
      /\ updates_due cb (FletClient.t_world t') = false).
Proof.
  unfold FletClient.take_chunk, pop_tick, updates_due. cbn [ticks with_fs].
  destruct (ticks (FletClient.t_world t)) as [|due ts] eqn:T.
  - rewrite andb_false_r. intros [= <- <-]. cbn. rewrite T. split.
    + repeat split. intros p' Hp. apply append_file_other, Hp.
    + intros _. rewrite andb_false_r. repeat split.
  - assert (O : forall w2,
               fs w2 = append_file (fs (FletClient.t_world t)) p chunk ->
               dialed w2 = dialed (FletClient.t_world t) ->
               network w2 = network (FletClient.t_world t) ->
               now w2 = now (FletClient.t_world t) ->
               same_outside p (FletClient.t_world t) w2).
    { intros w2 Hf Hd Hn Ht. repeat split; try assumption.
      intros p' Hp. rewrite Hf. apply append_file_other, Hp. }
    cbn [existsb].
    destruct (cb && due)%bool eqn:CD.
    + destruct (py_percent _ _); intros [= <- <-]; (split; [apply O; reflexivity|]);
        intros U; destruct cb; cbn in CD, U; try discriminate; subst due; discriminate.
    + intros [= <- <-]. split; [apply O; reflexivity|]. cbn.
      intros U. repeat split. destruct cb; [|reflexivity]. cbn in CD, U |- *.
      subst due. exact U.
Qed.

(** A run of the payload loop of [flet_client.py] appends to the file the
    next bytes of the stream, in order, counts them, and touches nothing
    else. *)
Lemma flet_payload_loop_stream fuel cb p fsz t ex t' :
  FletClient.payload_loop fuel cb p fsz t = Some (ex, t') ->
  exists more rest,
    grew FletClient.t_world FletClient.received_bytes p t t' more
    /\ incoming (FletClient.t_inbox t) = more ++ rest
    /\ same_outside p (FletClient.t_world t) (FletClient.t_world t').
Proof.
  revert t. induction fuel as [|fuel IH]; intros t; cbn [FletClient.payload_loop].
  - destruct (FletClient.received_bytes t <? fsz); [discriminate|].
    intros [= <- <-]. exists [], (incoming (FletClient.t_inbox t)).
    split; [apply grew_refl; reflexivity|]. split; [reflexivity | apply same_outside_refl].
  - destruct (FletClient.received_bytes t <? fsz).
    2:{ intros [= <- <-]. exists [], (incoming (FletClient.t_inbox t)).
        split; [apply grew_refl; reflexivity|].
        split; [reflexivity | apply same_outside_refl]. }
    unfold FletClient.payload_turn.
    destruct (recv _ (FletClient.t_inbox t)) as [[e|chunk] q'] eqn:R.
    + intros [= <- <-]. exists [], (incoming (FletClient.t_inbox t)).
      split; [apply grew_refl; reflexivity|].
      split; [reflexivity | apply same_outside_refl].
    + destruct (is_empty chunk) eqn:E.
      * intros [= <- <-]. exists [], (incoming (FletClient.t_inbox t)).
        split; [apply grew_refl; reflexivity|].
        split; [reflexivity | apply same_outside_refl].
      * destruct (FletClient.take_chunk cb p fsz chunk q' t) as [t1 r] eqn:T.
        assert (G : grew FletClient.t_world FletClient.received_bytes p t t1 chunk).
        { intros old Ho. rewrite (flet_take_chunk_fs _ _ _ _ _ _ _ _ T).
          rewrite (flet_take_chunk_received _ _ _ _ _ _ _ _ T).
          split; [apply append_file_same; exact Ho | reflexivity]. }
        pose proof (proj1 (flet_take_chunk_world _ _ _ _ _ _ _ _ T)) as O.
        pose proof (recv_chunk_incoming _ _ _ _ R E) as I.
        pose proof (flet_take_chunk_inbox _ _ _ _ _ _ _ _ T) as Q.
        destruct r as [e|].
        -- intros [= <- <-]. exists chunk, (incoming q').
           split; [exact G|]. split; [symmetry; exact I | exact O].
        -- intros H. destruct (IH _ H) as (m2 & rest & G2 & I2 & O2).
           exists (chunk ++ m2), rest. split; [eapply grew_trans; eassumption|].
           split; [|eapply same_outside_trans; eassumption].
           rewrite <- I, <- Q, I2, app_assoc. reflexivity.
Qed.

(** The header loop of [flet_client.py] hands over a prefix of the stream
    that holds a newline, and leaves the rest of the stream queued. *)
Lemma flet_header_loop_stream fuel q hd hd' q' :
  FletClient.header_loop fuel q hd = Some (inr hd', q') ->
  hd' ++ incoming q' = hd ++ incoming q /\ contains newline hd' = true.
Proof.
  revert q hd. induction fuel as [|fuel IH]; intros q hd; cbn [FletClient.header_loop].
  - destruct (contains newline hd) eqn:C; [|discriminate].
    intros [= <- <-]. split; [reflexivity | exact C].
  - destruct (contains newline hd) eqn:C.
    + intros [= <- <-]. split; [reflexivity | exact C].
    + destruct (recv BUFFER_SIZE q) as [[e|chunk] q1] eqn:R; [discriminate|].
      destruct (is_empty chunk) eqn:E; [discriminate|].
      intros H. destruct (IH _ _ H) as [I N]. split; [|exact N].
      rewrite I, <- app_assoc, (recv_chunk_incoming _ _ _ _ R E). reflexivity.
Qed.

(** What follows the newline came in the read that brought it: less than
    a buffer. *)
Lemma leftover_in_last_chunk pre chunk :
  contains newline pre = false ->
  contains newline (pre ++ chunk) = true ->
  len (after_newline (pre ++ chunk)) < len chunk.
Proof.
  intros Hp H. rewrite contains_app, Hp in H. cbn [orb] in H.
  destruct (contains_split _ _ H) as (x & y & -> & Hx).
  unfold after_newline, py_find. rewrite app_assoc.
  rewrite (find_from_at _ (pre ++ x) y 0).
  2:{ rewrite contains_app, Hp, Hx. reflexivity. }
  cbn [Z.add]. rewrite slice_from_at. unfold len. rewrite length_app. cbn [List.length]. lia.
Qed.

Lemma flet_header_loop_last fuel q hd hd' q' :
  contains newline hd = false ->
  FletClient.header_loop fuel q hd = Some (inr hd', q') ->
  exists pre chunk,
    hd' = pre ++ chunk /\ contains newline pre = false /\ len chunk <= BUFFER_SIZE.
Proof.
  revert q hd. induction fuel as [|fuel IH]; intros q hd C; cbn [FletClient.header_loop];
    rewrite C; [discriminate|].
  destruct (recv BUFFER_SIZE q) as [[e|chunk] q1] eqn:R; [discriminate|].
  destruct (is_empty chunk) eqn:E; [discriminate|].
  destruct (contains newline (hd ++ chunk)) eqn:C2.
  - destruct fuel; cbn [FletClient.header_loop]; rewrite C2; intros [= <- <-];
      exists hd, chunk; (split; [reflexivity|]); (split; [exact C|]);
      (apply (recv_bound BUFFER_SIZE q chunk q1); [unfold BUFFER_SIZE; lia | exact R]).
  - apply IH, C2.
Qed.

(** The same for the loops of [file_client_new.py]. *)
Lemma new_take_chunk_world cb p fsz chunk q' t t' r :
  ClientNew.take_chunk cb p fsz chunk q' t = (t', r) ->
  same_outside p (ClientNew.t_world t) (ClientNew.t_world t')
  /\ (updates_due cb (ClientNew.t_world t) = false ->
      r = None /\ calls (ClientNew.t_world t') = calls (ClientNew.t_world t)
      /\ updates_due cb (ClientNew.t_world t') = false).
Proof.
  unfold ClientNew.take_chunk, pop_tick, updates_due. cbn [ticks with_fs].
  destruct (ticks (ClientNew.t_world t)) as [|due ts] eqn:T.
  - rewrite andb_false_r. intros [= <- <-]. cbn. rewrite T. split.
    + repeat split. intros p' Hp. apply append_file_other, Hp.
    + intros _. rewrite andb_false_r. repeat split.
  - assert (O : forall w2,
               fs w2 = append_file (fs (ClientNew.t_world t)) p chunk ->
               dialed w2 = dialed (ClientNew.t_world t) ->
               network w2 = network (ClientNew.t_world t) ->
               now w2 = now (ClientNew.t_world t) ->
               same_outside p (ClientNew.t_world t) w2).
    { intros w2 Hf Hd Hn Ht. repeat split; try assumption.
      intros p' Hp. rewrite Hf. apply append_file_other, Hp. }
    cbn [existsb].
    destruct (cb && due)%bool eqn:CD.
    + destruct (py_percent _ _); intros [= <- <-]; (split; [apply O; reflexivity|]);
        intros U; destruct cb; cbn in CD, U; try discriminate; subst due; discriminate.
    + intros [= <- <-]. split; [apply O; reflexivity|]. cbn.
      intros U. repeat split. destruct cb; [|reflexivity]. cbn in CD, U |- *.
      subst due. exact U.
Qed.

Lemma new_payload_loop_stream fuel attempt cb p fsz t ex t' :
  ClientNew.payload_loop fuel attempt cb p fsz t = Some (ex, t') ->
  exists more rest,
    grew ClientNew.t_world ClientNew.received_bytes p t t' more
    /\ incoming (ClientNew.t_inbox t) = more ++ rest
    /\ same_outside p (ClientNew.t_world t) (ClientNew.t_world t').
Proof.
  revert t. induction fuel as [|fuel IH]; intros t; cbn [ClientNew.payload_loop].
  - destruct (ClientNew.received_bytes t <? fsz); [discriminate|].
    intros [= <- <-]. exists [], (incoming (ClientNew.t_inbox t)).
    split; [apply grew_refl; reflexivity|]. split; [reflexivity | apply same_outside_refl].
  - destruct (ClientNew.received_bytes t <? fsz).
    2:{ intros [= <- <-]. exists [], (incoming (ClientNew.t_inbox t)).
        split; [apply grew_refl; reflexivity|].
        split; [reflexivity | apply same_outside_refl]. }
    unfold ClientNew.payload_turn.
    destruct (recv _ (ClientNew.t_inbox t)) as [[e|chunk] q'] eqn:R.
    + intros [= <- <-]. exists [], (incoming (ClientNew.t_inbox t)).
      split; [apply grew_refl; reflexivity|].
      split; [reflexivity | apply same_outside_refl].
    + destruct (is_empty chunk) eqn:E.
      * intros [= <- <-]. exists [], (incoming (ClientNew.t_inbox t)).
        split; [apply grew_refl; reflexivity|].
        split; [reflexivity | apply same_outside_refl].
      * destruct (ClientNew.take_chunk cb p fsz chunk q' t) as [t1 r] eqn:T.
        assert (G : grew ClientNew.t_world ClientNew.received_bytes p t t1 chunk).
        { intros old Ho. rewrite (new_take_chunk_fs _ _ _ _ _ _ _ _ T).
          rewrite (new_take_chunk_received _ _ _ _ _ _ _ _ T).
          split; [apply append_file_same; exact Ho | reflexivity]. }
        pose proof (proj1 (new_take_chunk_world _ _ _ _ _ _ _ _ T)) as O.
        pose proof (recv_chunk_incoming _ _ _ _ R E) as I.
        pose proof (new_take_chunk_inbox _ _ _ _ _ _ _ _ T) as Q.
        destruct r as [e|].
        -- intros [= <- <-]. exists chunk, (incoming q').
           split; [exact G|]. split; [symmetry; exact I | exact O].
        -- intros H. destruct (IH _ H) as (m2 & rest & G2 & I2 & O2).
           exists (chunk ++ m2), rest. split; [eapply grew_trans; eassumption|].
           split; [|eapply same_outside_trans; eassumption].
           rewrite <- I, <- Q, I2, app_assoc. reflexivity.
Qed.

(** The header loop of [file_client_new.py]: when it ends with a newline
    read, it hands over a prefix of the stream; while a retry is left it
    never ends by [break]. *)
Lemma new_header_loop_stream fuel attempt q hd hx q' :
  ClientNew.header_loop fuel attempt q hd = Some (hx, q') ->
  match hx with
  | ClientNew.HeaderRead hd' =>
    hd' ++ incoming q' = hd ++ incoming q /\ contains newline hd' = true
  | ClientNew.HeaderBreak _ _ => ClientNew.MAX_RETRIES - 1 <= attempt
  | ClientNew.HeaderRaise _ => True
  end.
Proof.
  assert (Hh : forall d e, match ClientNew.header_handler attempt d e with
                           | ClientNew.HeaderRead _ => False
                           | ClientNew.HeaderBreak _ _ => ClientNew.MAX_RETRIES - 1 <= attempt
                           | ClientNew.HeaderRaise _ => True
                           end).
  { intros d e. unfold ClientNew.header_handler.
    destruct (attempt <? ClientNew.MAX_RETRIES - 1) eqn:A; [exact I|].
    apply Z.ltb_ge in A. exact A. }
  revert q hd. induction fuel as [|fuel IH]; intros q hd; cbn [ClientNew.header_loop].
  - destruct (contains newline hd) eqn:C; [|discriminate].
    intros [= <- <-]. split; [reflexivity | exact C].
  - destruct (contains newline hd) eqn:C.
    + intros [= <- <-]. split; [reflexivity | exact C].
    + destruct (recv BUFFER_SIZE q) as [[e|chunk] q1] eqn:R.
      * intros [= <- <-]. specialize (Hh hd e).
        destruct (ClientNew.header_handler attempt hd e); [contradiction | exact Hh | exact I].
      * destruct (is_empty chunk) eqn:E.
        -- intros [= <- <-]. specialize (Hh hd ClientNew.closed_before_header).
           destruct (ClientNew.header_handler attempt hd _);
             [contradiction | exact Hh | exact I].
        -- destruct (len (hd ++ chunk) >? ClientNew.HEADER_LIMIT).
           ++ intros [= <- <-]. exact I.
           ++ intros H. specialize (IH _ _ H). destruct hx; try exact IH.
              destruct IH as [IH N]. split; [|exact N].
              rewrite IH, <- app_assoc, (recv_chunk_incoming _ _ _ _ R E). reflexivity.
Qed.

Lemma new_header_loop_last fuel attempt q hd hd' q' :
  contains newline hd = false ->
  ClientNew.header_loop fuel attempt q hd = Some (ClientNew.HeaderRead hd', q') ->
  exists pre chunk,
    hd' = pre ++ chunk /\ contains newline pre = false /\ len chunk <= BUFFER_SIZE.
Proof.
  revert q hd. induction fuel as [|fuel IH]; intros q hd C; cbn [ClientNew.header_loop];
    rewrite C; [discriminate|].
  destruct (recv BUFFER_SIZE q) as [[e|chunk] q1] eqn:R.
  { unfold ClientNew.header_handler. destruct (_ <? _); discriminate. }
  destruct (is_empty chunk) eqn:E.
  { unfold ClientNew.header_handler. destruct (_ <? _); discriminate. }
  destruct (len (hd ++ chunk) >? ClientNew.HEADER_LIMIT); [discriminate|].
  destruct (contains newline (hd ++ chunk)) eqn:C2.
  - destruct fuel; cbn [ClientNew.header_loop]; rewrite C2; intros [= <- <-];
      exists hd, chunk; (split; [reflexivity|]); (split; [exact C|]);
      (apply (recv_bound BUFFER_SIZE q chunk q1); [unfold BUFFER_SIZE; lia | exact R]).
  - apply IH, C2.
Qed.

(** What [decode_header] returns, in terms of the first line. *)
Lemma flet_decode_header_parts hd h rem :
  FletClient.decode_header hd = inr (h, rem) ->
  exists line,
    decode (first_line hd) = inr line /\ FletClient.parse_header line = inr h
    /\ rem = after_newline hd.
Proof.
  unfold FletClient.decode_header, first_line, after_newline.
  destruct (decode _) as [e|line] eqn:D; [discriminate|].
  destruct (FletClient.parse_header line) as [e|h0] eqn:P; [discriminate|].
  intros [= <- <-]. exists line. split; [reflexivity|]. split; [exact P | reflexivity].
Qed.

(** X1.  Whenever [receive_file] of [flet_client.py] returns, the file at
    the destination holds the first [received] bytes that followed the
    header line on the stream, in order and nothing else; the record added
    carries the declared name and size, and its status compares that very
    [received] with the declared size.  The file is longer than declared
    only by bytes that came in the read that brought the newline, fewer
    than a buffer. *)
Theorem flet_file_is_the_start_of_the_payload :
  forall (client : FileClient) (dest : string) (cb : bool) (w : world)
         (s : socket_obj) (client' : FileClient) (w' : world),
    connected client = true ->
    socket client = Some s ->
    FletClient.receive_file client dest cb w = Some (Returns true, client', w') ->
    exists line h received rec,
      decode (first_line (incoming (inbox s))) = inr line
      /\ FletClient.parse_header line = inr h
      /\ fs w' dest = Some (slice_to (after_newline (incoming (inbox s))) received)
      /\ 0 <= received <= len (after_newline (incoming (inbox s)))
      /\ received <= Z.max (FletClient.h_size h) (BUFFER_SIZE - 1)
      /\ download_history client' = download_history client ++ [rec]
      /\ status rec = FletClient.final_status received (FletClient.h_size h)
      /\ size rec = FletClient.h_size h
      /\ original_name rec = FletClient.h_name h
      /\ path rec = dest.
Proof.
  intros client dest cb w s client' w' Hc Hs.
  unfold FletClient.receive_file, FletClient.try_body. rewrite Hc, Hs. cbn [negb].
  destruct (FletClient.read_header (inbox s)) as [[[e|hd] q]|] eqn:RH; try discriminate.
  destruct (FletClient.decode_header hd) as [e|[h rem]] eqn:DH; [discriminate|].
  destruct (FletClient.read_payload cb dest (FletClient.h_size h)
              (FletClient.start w dest q rem)) as [[[e|] t]|] eqn:RP; try discriminate.
  intros [= <- <-].
  unfold FletClient.read_header in RH.
  destruct (flet_header_loop_stream _ _ _ _ _ RH) as [I N].
  destruct (flet_header_loop_last _ _ [] _ _ eq_refl RH) as (pre & chunk & Ehd & Hpre & Hchunk).
  rewrite app_nil_l in I.
  destruct (flet_decode_header_parts _ _ _ DH) as (line & DL & PH & Erem).
  destruct (first_line_prefix hd (incoming q) N) as [FL AN].
  rewrite I in FL, AN.
  unfold FletClient.read_payload in RP.
  destruct (flet_payload_loop_stream _ _ _ _ _ _ _ RP) as (more & rest & G & IQ & O).
  destruct (G rem) as [Gf Gc]; [cbn; apply flet_open_destination|].
  cbn [FletClient.start FletClient.t_inbox] in IQ.
  cbn [FletClient.start FletClient.received_bytes] in Gc.
  assert (Hrem : len rem < BUFFER_SIZE).
  { rewrite Erem, Ehd. eapply Z.lt_le_trans; [|exact Hchunk].
    apply leftover_in_last_chunk; [exact Hpre | rewrite <- Ehd; exact N]. }
  exists line, h, (FletClient.received_bytes t),
    (FletClient.final_record
       (if cb then with_call (FletClient.t_world t)
                     (100, FletClient.received_bytes t, FletClient.h_size h)
        else FletClient.t_world t) dest h (FletClient.received_bytes t)).
  split; [rewrite FL; exact DL|]. split; [exact PH|].
  assert (Hlen : FletClient.received_bytes t = len (rem ++ more)).
  { rewrite Gc, len_app. reflexivity. }
  split.
  { rewrite AN, <- Erem, IQ, app_assoc, Hlen, slice_to_at.
    destruct cb; exact Gf. }
  split.
  { rewrite AN, <- Erem, IQ, Hlen, !len_app.
    pose proof (len_nonneg rem). pose proof (len_nonneg more). pose proof (len_nonneg rest).
    lia. }
  split.
  { destruct (Z.le_gt_cases (len rem) (FletClient.h_size h)) as [L|L].
    - pose proof (flet_payload_loop_inv _ cb dest (FletClient.h_size h)
                    (FletClient.start w dest q rem) None t L RP) as B.
      cbn [FletClient.start FletClient.received_bytes] in B. lia.
    - rewrite (flet_payload_loop_done _ cb dest (FletClient.h_size h)
                 (FletClient.start w dest q rem)) in RP by (cbn; lia).
      injection RP as <-. cbn [FletClient.start FletClient.received_bytes]. lia. }
  repeat split.
Qed.

(** ** The one attempt of [file_client_new.py], step by step *)

Lemma new_decode_header_parts hd h rem :
  ClientNew.decode_header hd = inr (h, rem) ->
  exists line,
    decode (first_line hd) = inr line /\ ClientNew.parse_header line = inr h
    /\ rem = after_newline hd.
Proof.
  unfold ClientNew.decode_header, first_line, after_newline.
  destruct (decode _) as [e|line] eqn:D; [discriminate|].
  destruct (ClientNew.parse_header line) as [e|h0] eqn:P; [discriminate|].
  intros [= <- <-]. exists line. split; [reflexivity|]. split; [exact P | reflexivity].
Qed.

(** In the first attempt the header loop is never left by [break]. *)
Lemma new_first_header_never_breaks q hd e q' :
  ClientNew.read_header 0 q <> Some (ClientNew.HeaderBreak hd e, q').
Proof.
  intros H. apply new_header_loop_stream in H. unfold ClientNew.MAX_RETRIES in H. lia.
Qed.

(** An error before the payload: the call raises it, records it under the
    path as given, and leaves the world as it was. *)
Lemma new_receive_header_failure client dest cb w s e q :
  connected client = true -> socket client = Some s ->
  ClientNew.read_header 0 (inbox s) = Some (ClientNew.HeaderRaise e, q) ->
  ClientNew.receive_file client dest cb w
  = Some (Raises e, with_record (with_inbox client q) (failed_record w dest e), w).
Proof.
  intros Hc Hs H.
  assert (C : is_connected client) by (split; [exact Hc | rewrite Hs; discriminate]).
  erewrite new_receive_file_first; [|exact C|].
  2:{ unfold ClientNew.transfer_once. cbn [first_frame ClientNew.self].
      rewrite Hs, H. reflexivity. }
  reflexivity.
Qed.

Lemma new_receive_decode_failure client dest cb w s hd e q :
  connected client = true -> socket client = Some s ->
  ClientNew.read_header 0 (inbox s) = Some (ClientNew.HeaderRead hd, q) ->
  ClientNew.decode_header hd = inl e ->
  ClientNew.receive_file client dest cb w
  = Some (Raises e, with_record (with_inbox client q) (failed_record w dest e), w).
Proof.
  intros Hc Hs H D.
  assert (C : is_connected client) by (split; [exact Hc | rewrite Hs; discriminate]).
  erewrite new_receive_file_first; [|exact C|].
  2:{ unfold ClientNew.transfer_once. cbn [first_frame ClientNew.self].
      rewrite Hs, H, D. reflexivity. }
  reflexivity.
Qed.

(** Once the header is decoded the call is decided by the payload loop:
    it returns [True] with a [Complete] record when the loop ends with the
    size reached, and raises what ended the loop otherwise; the record of a
    failure then names the path with the extension added. *)
Lemma new_receive_payload client dest cb w s hd q h rem px t :
  connected client = true -> socket client = Some s ->
  ClientNew.read_header 0 (inbox s) = Some (ClientNew.HeaderRead hd, q) ->
  ClientNew.decode_header hd = inr (h, rem) ->
  ClientNew.read_payload 0 cb (ClientNew.target dest h) (ClientNew.h_size h)
    (ClientNew.start 0 (first_frame client dest w) q h rem) = Some (px, t) ->
  let client1 := with_inbox (with_inbox client q) (ClientNew.t_inbox t) in
  ClientNew.receive_file client dest cb w
  = match px with
    | ClientNew.PayloadDone =>
      let w1 := if cb then with_call (ClientNew.t_world t)
                             (100, ClientNew.received_bytes t, ClientNew.h_size h)
                else ClientNew.t_world t in
      Some (Returns true,
            with_record client1
              (ClientNew.complete_record w1 (ClientNew.target dest h) h), w1)
    | ClientNew.PayloadBreak e | ClientNew.PayloadRaise e =>
      Some (Raises e,
            with_record client1
              (failed_record (ClientNew.t_world t) (ClientNew.target dest h) e),
            ClientNew.t_world t)
    end
  /\ match px with
     | ClientNew.PayloadDone => ClientNew.h_size h <= ClientNew.received_bytes t
     | ClientNew.PayloadBreak _ => ClientNew.received_bytes t < ClientNew.h_size h
     | ClientNew.PayloadRaise _ => True
     end.
Proof.
  intros Hc Hs H D P client1.
  assert (C : is_connected client) by (split; [exact Hc | rewrite Hs; discriminate]).
  assert (Hpx : match px with
                | ClientNew.PayloadDone => ClientNew.h_size h <= ClientNew.received_bytes t
                | ClientNew.PayloadBreak _ => ClientNew.received_bytes t < ClientNew.h_size h
                | ClientNew.PayloadRaise _ => True
                end).
  { destruct px as [|e|e]; [| |exact I].
    - eapply new_payload_done_reason; [|exact P]. unfold ClientNew.MAX_RETRIES. lia.
    - eapply new_payload_break_short. exact P. }
  split; [|exact Hpx].
  destruct (new_transfer_once_total 0 cb (first_frame client dest w)) as [[ex f] T].
  rewrite (new_receive_file_first _ _ _ _ _ _ C T).
  revert T. unfold ClientNew.transfer_once. cbn [first_frame ClientNew.self ClientNew.env
    ClientNew.save_path ClientNew.last_exception].
  rewrite Hs, H, D. unfold ClientNew.store.
  cbn [ClientNew.self ClientNew.env ClientNew.save_path ClientNew.last_exception].
  change (ClientNew.start 0 _ q h rem) with (ClientNew.start 0 (first_frame client dest w) q h rem).
  rewrite P.
  destruct px as [|e|e].
  - apply Z.leb_le in Hpx. rewrite Hpx. intros [= <- <-]. reflexivity.
  - apply Z.leb_gt in Hpx. rewrite Hpx. intros [= <- <-]. reflexivity.
  - intros [= <- <-]. reflexivity.
Qed.

(** X2.  Whenever [receive_file] of [file_client_new.py] returns, it
    returns [True], the declared size was reached, and the file at the
    destination, with the declared extension added when the path had none,
    holds exactly the bytes that followed the header line on the stream, in
    order: as many as declared, or, for a size below a buffer, those that
    came in the read that brought the newline.  The record added is
    [Complete] and carries the declared name and size. *)
Theorem new_returned_file_is_the_declared_payload :
  forall (client : FileClient) (dest : string) (cb : bool) (w : world)
         (s : socket_obj) (b : bool) (client' : FileClient) (w' : world),
    connected client = true ->
    socket client = Some s ->
    ClientNew.receive_file client dest cb w = Some (Returns b, client', w') ->
    exists line h received rec,
      b = true
      /\ decode (first_line (incoming (inbox s))) = inr line
      /\ ClientNew.parse_header line = inr h
      /\ fs w' (ClientNew.target dest h)
         = Some (slice_to (after_newline (incoming (inbox s))) received)
      /\ ClientNew.h_size h <= received
      /\ 0 <= received <= len (after_newline (incoming (inbox s)))
      /\ received <= Z.max (ClientNew.h_size h) (BUFFER_SIZE - 1)
      /\ download_history client' = download_history client ++ [rec]
      /\ status rec = "Complete"
      /\ size rec = ClientNew.h_size h
      /\ original_name rec = ClientNew.h_name h
      /\ path rec = ClientNew.target dest h.
Proof.
  intros client dest cb w s b client' w' Hc Hs R.
  destruct (new_read_header_total 0 (inbox s)) as [[hx q] RH].
  destruct hx as [hd|hd e|e].
  2:{ exfalso. exact (new_first_header_never_breaks _ _ _ _ RH). }
  2:{ rewrite (new_receive_header_failure _ _ _ _ _ _ _ Hc Hs RH) in R. discriminate R. }
  destruct (ClientNew.decode_header hd) as [e|[h rem]] eqn:DH.
  { rewrite (new_receive_decode_failure _ _ _ _ _ _ _ _ Hc Hs RH DH) in R. discriminate R. }
  destruct (new_read_payload_total 0 cb (ClientNew.target dest h) (ClientNew.h_size h)
              (ClientNew.start 0 (first_frame client dest w) q h rem)) as [[px t] RP].
  destruct (new_receive_payload _ _ _ _ _ _ _ _ _ _ _ Hc Hs RH DH RP) as [E Hpx].
  rewrite E in R. clear E.
  destruct px as [|e|e]; try discriminate R.
  injection R as <- <- <-.
  unfold ClientNew.read_header in RH.
  pose proof (new_header_loop_stream _ _ _ _ _ _ RH) as [I N].
  destruct (new_header_loop_last _ _ _ [] _ _ eq_refl RH) as (pre & chunk & Ehd & Hpre & Hchunk).
  rewrite app_nil_l in I.
  destruct (new_decode_header_parts _ _ _ DH) as (line & DL & PH & Erem).
  destruct (first_line_prefix hd (incoming q) N) as [FL AN].
  rewrite I in FL, AN.
  unfold ClientNew.read_payload in RP.
  destruct (new_payload_loop_stream _ _ _ _ _ _ _ _ RP) as (more & rest & G & IQ & O).
  destruct (G rem) as [Gf Gc].
  { cbn [ClientNew.start ClientNew.t_world first_frame ClientNew.env ClientNew.save_path
         with_fs fs].
    apply open_destination_wb. reflexivity. }
  cbn [ClientNew.start ClientNew.t_inbox] in IQ.
  cbn [ClientNew.start ClientNew.received_bytes] in Gc.
  assert (Hrem : len rem < BUFFER_SIZE).
  { rewrite Erem, Ehd. eapply Z.lt_le_trans; [|exact Hchunk].
    apply leftover_in_last_chunk; [exact Hpre | rewrite <- Ehd; exact N]. }
  assert (Hlen : ClientNew.received_bytes t = len (rem ++ more)).
  { rewrite Gc, len_app. reflexivity. }
  exists line, h, (ClientNew.received_bytes t),
    (ClientNew.complete_record
       (if cb then with_call (ClientNew.t_world t)
                     (100, ClientNew.received_bytes t, ClientNew.h_size h)
        else ClientNew.t_world t) (ClientNew.target dest h) h).
  split; [reflexivity|].
  split; [rewrite FL; exact DL|]. split; [exact PH|].
  split.
  { rewrite AN, <- Erem, IQ, app_assoc, Hlen, slice_to_at.
    destruct cb; exact Gf. }
  split; [exact Hpx|].
  split.
  { rewrite AN, <- Erem, IQ, Hlen, !len_app.
    pose proof (len_nonneg rem). pose proof (len_nonneg more). pose proof (len_nonneg rest).
    lia. }
  split.
  { destruct (Z.le_gt_cases (len rem) (ClientNew.h_size h)) as [L|L].
    - pose proof (new_payload_loop_inv _ 0 cb (ClientNew.target dest h) (ClientNew.h_size h)
                    (ClientNew.start 0 (first_frame client dest w) q h rem)
                    ClientNew.PayloadDone t L RP) as [B _].
      cbn [ClientNew.start ClientNew.received_bytes] in B. lia.
    - rewrite (new_payload_loop_done _ 0 cb (ClientNew.target dest h) (ClientNew.h_size h)
                 (ClientNew.start 0 (first_frame client dest w) q h rem)) in RP
        by (cbn; lia).
      injection RP as <-. cbn [ClientNew.start ClientNew.received_bytes]. lia. }
  repeat split.
Qed.

(** ** The progress reports *)

Lemma reports_lower fsz lo lo' hi l : lo' <= lo -> reports fsz lo hi l -> reports fsz lo' hi l.
Proof.
  intros H R. destruct R as [lo hi L|lo hi percent received rest L P R].
  - apply reports_none. lia.
  - apply reports_next; [lia | exact P | exact R].
Qed.

Lemma reports_bounds fsz lo hi l : reports fsz lo hi l -> lo <= hi.
Proof.
  induction 1 as [lo hi L|lo hi percent received rest L P R IH]; lia.
Qed.

(** What one written chunk adds to the calls of the callback. *)
Lemma flet_take_chunk_calls cb p fsz chunk q' t t' r :
  FletClient.take_chunk cb p fsz chunk q' t = (t', r) ->
  exists mids,
    calls (FletClient.t_world t') = calls (FletClient.t_world t) ++ mids
    /\ (mids = []
        \/ exists percent,
             cb = true /\ r = None
             /\ py_percent (FletClient.received_bytes t') fsz = inr percent
             /\ mids = [(percent, FletClient.received_bytes t', fsz)]).
Proof.
  unfold FletClient.take_chunk, pop_tick. cbn [ticks with_fs].
  destruct (ticks (FletClient.t_world t)) as [|due ts].
  - rewrite andb_false_r. intros [= <- <-]. exists []. cbn. rewrite app_nil_r. auto.
  - destruct (cb && due)%bool eqn:CD.
    + destruct (py_percent _ _) as [x|percent] eqn:P; intros [= <- <-].
      * exists []. cbn. rewrite app_nil_r. auto.
      * exists [(percent, FletClient.received_bytes t + len chunk, fsz)]. cbn.
        split; [reflexivity|]. right. exists percent.
        apply andb_prop in CD. destruct CD as [-> _]. auto.
    + intros [= <- <-]. exists []. cbn. rewrite app_nil_r. auto.
Qed.

Lemma new_take_chunk_calls cb p fsz chunk q' t t' r :
  ClientNew.take_chunk cb p fsz chunk q' t = (t', r) ->
  exists mids,
    calls (ClientNew.t_world t') = calls (ClientNew.t_world t) ++ mids
    /\ (mids = []
        \/ exists percent,
             cb = true /\ r = None
             /\ py_percent (ClientNew.received_bytes t') fsz = inr percent
             /\ mids = [(percent, ClientNew.received_bytes t', fsz)]).
Proof.
  unfold ClientNew.take_chunk, pop_tick. cbn [ticks with_fs].
  destruct (ticks (ClientNew.t_world t)) as [|due ts].
  - rewrite andb_false_r. intros [= <- <-]. exists []. cbn. rewrite app_nil_r. auto.
  - destruct (cb && due)%bool eqn:CD.
    + destruct (py_percent _ _) as [x|percent] eqn:P; intros [= <- <-].
      * exists []. cbn. rewrite app_nil_r. auto.
      * exists [(percent, ClientNew.received_bytes t + len chunk, fsz)]. cbn.
        split; [reflexivity|]. right. exists percent.
        apply andb_prop in CD. destruct CD as [-> _]. auto.
    + intros [= <- <-]. exists []. cbn. rewrite app_nil_r. auto.
Qed.

Lemma flet_payload_loop_reports fuel cb p fsz t ex t' :
  FletClient.payload_loop fuel cb p fsz t = Some (ex, t') ->
  exists mids,
    calls (FletClient.t_world t') = calls (FletClient.t_world t) ++ mids
    /\ reports fsz (FletClient.received_bytes t) (FletClient.received_bytes t') mids
    /\ (cb = false -> mids = []).
Proof.
  assert (Z0 : forall t0 : FletClient.transfer,
             exists mids,
               calls (FletClient.t_world t0) = calls (FletClient.t_world t0) ++ mids
               /\ reports fsz (FletClient.received_bytes t0) (FletClient.received_bytes t0) mids
               /\ (cb = false -> mids = [])).
  { intros t0. exists []. rewrite app_nil_r. split; [reflexivity|].
    split; [apply reports_none; lia | reflexivity]. }
  revert t. induction fuel as [|fuel IH]; intros t; cbn [FletClient.payload_loop].
  - destruct (FletClient.received_bytes t <? fsz); [discriminate|].
    intros [= <- <-]. apply Z0.
  - destruct (FletClient.received_bytes t <? fsz); [|intros [= <- <-]; apply Z0].
    unfold FletClient.payload_turn.
    destruct (recv _ (FletClient.t_inbox t)) as [[x|chunk] q'] eqn:R.
    { intros [= <- <-]. apply (Z0 t). }
    destruct (is_empty chunk) eqn:E.
    { intros [= <- <-]. apply (Z0 t). }
    destruct (FletClient.take_chunk cb p fsz chunk q' t) as [t1 r] eqn:T.
    destruct (flet_take_chunk_calls _ _ _ _ _ _ _ _ T) as (m1 & C1 & M1).
    pose proof (flet_take_chunk_received _ _ _ _ _ _ _ _ T) as Rc.
    pose proof (is_empty_false _ E) as Hp.
    assert (Lt : FletClient.received_bytes t < FletClient.received_bytes t1).
    { rewrite Rc. unfold len. lia. }
    destruct r as [x|].
    + intros [= <- <-]. destruct M1 as [->|(percent & _ & Hr & _)]; [|discriminate Hr].
      exists []. split; [exact C1|]. split; [apply reports_none; lia | reflexivity].
    + intros H. destruct (IH _ H) as (m2 & C2 & R2 & N2).
      exists (m1 ++ m2). split; [rewrite C2, C1, app_assoc; reflexivity|].
      destruct M1 as [->|(percent & Hcb & _ & P & ->)].
      * split; [|exact N2]. cbn [app]. apply (reports_lower _ _ _ _ _ (Z.lt_le_incl _ _ Lt) R2).
      * split; [|intros F; rewrite F in Hcb; discriminate Hcb].
        cbn [app]. apply reports_next; [exact Lt | exact P | exact R2].
Qed.

Lemma new_payload_loop_reports fuel attempt cb p fsz t ex t' :
  ClientNew.payload_loop fuel attempt cb p fsz t = Some (ex, t') ->
  exists mids,
    calls (ClientNew.t_world t') = calls (ClientNew.t_world t) ++ mids
    /\ reports fsz (ClientNew.received_bytes t) (ClientNew.received_bytes t') mids
    /\ (cb = false -> mids = []).
Proof.
  assert (Z0 : forall t0 : ClientNew.transfer,
             exists mids,
               calls (ClientNew.t_world t0) = calls (ClientNew.t_world t0) ++ mids
               /\ reports fsz (ClientNew.received_bytes t0) (ClientNew.received_bytes t0) mids
               /\ (cb = false -> mids = [])).
  { intros t0. exists []. rewrite app_nil_r. split; [reflexivity|].
    split; [apply reports_none; lia | reflexivity]. }
  revert t. induction fuel as [|fuel IH]; intros t; cbn [ClientNew.payload_loop].
  - destruct (ClientNew.received_bytes t <? fsz); [discriminate|].
    intros [= <- <-]. apply Z0.
  - destruct (ClientNew.received_bytes t <? fsz); [|intros [= <- <-]; apply Z0].
    unfold ClientNew.payload_turn.
    destruct (recv _ (ClientNew.t_inbox t)) as [[x|chunk] q'] eqn:R.
    { intros [= <- <-]. apply (Z0 t). }
    destruct (is_empty chunk) eqn:E.
    { intros [= <- <-]. apply (Z0 t). }
    destruct (ClientNew.take_chunk cb p fsz chunk q' t) as [t1 r] eqn:T.
    destruct (new_take_chunk_calls _ _ _ _ _ _ _ _ T) as (m1 & C1 & M1).
    pose proof (new_take_chunk_received _ _ _ _ _ _ _ _ T) as Rc.
    pose proof (is_empty_false _ E) as Hp.
    assert (Lt : ClientNew.received_bytes t < ClientNew.received_bytes t1).
    { rewrite Rc. unfold len. lia. }
    destruct r as [x|].
    + intros [= <- <-]. destruct M1 as [->|(percent & _ & Hr & _)]; [|discriminate Hr].
      exists []. split; [exact C1|]. split; [apply reports_none; lia | reflexivity].
    + intros H. destruct (IH _ H) as (m2 & C2 & R2 & N2).
      exists (m1 ++ m2). split; [rewrite C2, C1, app_assoc; reflexivity|].
      destruct M1 as [->|(percent & Hcb & _ & P & ->)].
      * split; [|exact N2]. cbn [app]. apply (reports_lower _ _ _ _ _ (Z.lt_le_incl _ _ Lt) R2).
      * split; [|intros F; rewrite F in Hcb; discriminate Hcb].
        cbn [app]. apply reports_next; [exact Lt | exact P | exact R2].
Qed.

(** X20.  The progress reports of the payload loop of either client:
    the loop only adds calls of the callback, and none without a callback;
    each call reports the count reached after a read, the declared size and
    the percentage computed from that count; from call to call the count
    grows strictly, and it lies above the count the loop started with and
    not above the count it ended with. *)
Theorem progress_reports_follow_the_count :
  forall (file_size : Z) (cb : bool) (save_path : string),
    (forall attempt t ex t',
        ClientNew.read_payload attempt cb save_path file_size t = Some (ex, t') ->
        exists mids,
          calls (ClientNew.t_world t') = calls (ClientNew.t_world t) ++ mids
          /\ reports file_size (ClientNew.received_bytes t) (ClientNew.received_bytes t') mids
          /\ (cb = false -> mids = []))
    /\ (forall t ex t',
        FletClient.read_payload cb save_path file_size t = Some (ex, t') ->
        exists mids,
          calls (FletClient.t_world t') = calls (FletClient.t_world t) ++ mids
          /\ reports file_size (FletClient.received_bytes t) (FletClient.received_bytes t') mids
          /\ (cb = false -> mids = [])).
Proof.
  intros file_size cb save_path. split.
  - intros attempt t ex t' H. exact (new_payload_loop_reports _ _ _ _ _ _ _ _ H).
  - intros t ex t' H. exact (flet_payload_loop_reports _ _ _ _ _ _ _ H).
Qed.

Lemma progress_reports_follow_the_count_witness :
  exists ex t' mids,
    FletClient.read_payload true "out.bin" 10
      {| FletClient.t_inbox := [Data (sample 4); Data (sample 2); Data (sample 20)];
         FletClient.t_world := ticking_world; FletClient.received_bytes := 3 |}
    = Some (ex, t')
    /\ calls (FletClient.t_world t') = mids
    /\ reports 10 3 (FletClient.received_bytes t') mids.
Proof.
  destruct (FletClient.read_payload true "out.bin" 10
              {| FletClient.t_inbox := [Data (sample 4); Data (sample 2); Data (sample 20)];
                 FletClient.t_world := ticking_world; FletClient.received_bytes := 3 |})
    as [[ex t']|] eqn:E; [|vm_compute in E; discriminate E].
  destruct (proj2 (progress_reports_follow_the_count 10 true "out.bin") _ ex t' E)
    as (mids & C & R & _).
  exists ex, t', mids. split; [reflexivity|]. split; [exact C | exact R].
Defined.

(** ** When the stream brings everything *)

Lemma firstn_chunk (chunk rest : bytes) (n : Z) :
  len chunk <= n ->
  firstn (Z.to_nat n) (chunk ++ rest) = chunk ++ firstn (Z.to_nat (n - len chunk)) rest.
Proof.
  intros H. unfold len in *. rewrite firstn_app, firstn_all2 by lia.
  f_equal. f_equal. lia.
Qed.

Lemma incoming_nonempty q : 0 < len (incoming q) -> incoming q <> [].
Proof. intros H E. rewrite E in H. cbn in H. lia. Qed.

(** With the missing bytes on their way, the payload loop of
    [flet_client.py] ends by itself with the size reached, having appended
    exactly the missing bytes; the callback is not called when no progress
    update falls due. *)
Lemma flet_payload_loop_delivers fuel cb p fsz t :
  0 <= FletClient.received_bytes t ->
  fsz - FletClient.received_bytes t <= len (incoming (FletClient.t_inbox t)) ->
  (weight (FletClient.t_inbox t) < fuel)%nat ->
  exists t',
    FletClient.payload_loop fuel cb p fsz t = Some (None, t')
    /\ grew FletClient.t_world FletClient.received_bytes p t t'
         (firstn (Z.to_nat (fsz - FletClient.received_bytes t))
            (incoming (FletClient.t_inbox t)))
    /\ (updates_due cb (FletClient.t_world t) = false ->
        calls (FletClient.t_world t') = calls (FletClient.t_world t))
    /\ incoming (FletClient.t_inbox t')
       = skipn (Z.to_nat (fsz - FletClient.received_bytes t)) (incoming (FletClient.t_inbox t)).
Proof.
  revert t. induction fuel as [|fuel IH]; intros t H0 L W; [lia|].
  cbn [FletClient.payload_loop].
  destruct (FletClient.received_bytes t <? fsz) eqn:C.
  2:{ apply Z.ltb_ge in C. exists t. split; [reflexivity|].
      replace (Z.to_nat (fsz - FletClient.received_bytes t)) with O by lia.
      split; [apply grew_refl; reflexivity|]. split; [intros _|]; reflexivity. }
  apply Z.ltb_lt in C.
  destruct (recv_incoming (Z.min BUFFER_SIZE (fsz - FletClient.received_bytes t))
              (FletClient.t_inbox t)) as (chunk & q' & R & E & I & Wq).
  { unfold BUFFER_SIZE. lia. }
  { apply incoming_nonempty. lia. }
  assert (B : len chunk <= Z.min BUFFER_SIZE (fsz - FletClient.received_bytes t)).
  { apply (recv_bound _ (FletClient.t_inbox t) chunk q'); [unfold BUFFER_SIZE; lia | exact R]. }
  unfold FletClient.payload_turn. rewrite R, E.
  destruct (FletClient.take_chunk cb p fsz chunk q' t) as [t1 r] eqn:T.
  destruct (flet_take_chunk_world _ _ _ _ _ _ _ _ T) as [_ K].
  assert (r = None) as ->.
  { apply (flet_take_chunk_fine _ _ _ _ _ _ _ _ T H0); lia. }
  pose proof (flet_take_chunk_inbox _ _ _ _ _ _ _ _ T) as Q.
  pose proof (flet_take_chunk_received _ _ _ _ _ _ _ _ T) as Rc.
  assert (G : grew FletClient.t_world FletClient.received_bytes p t t1 chunk).
  { intros old Ho. rewrite (flet_take_chunk_fs _ _ _ _ _ _ _ _ T), Rc.
    split; [apply append_file_same; exact Ho | reflexivity]. }
  destruct (IH t1) as (t' & Hl & G' & Hc' & Hq').
  - rewrite Rc. pose proof (len_nonneg chunk). lia.
  - rewrite Q, Rc. rewrite <- I, len_app in L. lia.
  - rewrite Q. lia.
  - exists t'. split; [exact Hl|].
    split; [|split].
    + rewrite <- I, firstn_chunk by lia.
      eapply grew_trans; [exact G|].
      rewrite Q, Rc in G'.
      replace (fsz - FletClient.received_bytes t - len chunk)
        with (fsz - (FletClient.received_bytes t + len chunk)) by lia.
      exact G'.
    + intros U. destruct (K U) as (_ & Kc & Ku). rewrite (Hc' Ku). exact Kc.
    + rewrite Hq', Q, Rc, <- I, skipn_app.
      rewrite (skipn_all2 chunk) by (unfold len in B; lia).
      rewrite app_nil_l. f_equal. unfold len. lia.
Qed.

(** A newline on its way is found. *)
Lemma flet_header_loop_finds fuel q hd :
  contains newline (hd ++ incoming q) = true ->
  (weight q < fuel)%nat ->
  exists hd' q', FletClient.header_loop fuel q hd = Some (inr hd', q').
Proof.
  revert q hd. induction fuel as [|fuel IH]; intros q hd C W; [lia|].
  cbn [FletClient.header_loop].
  destruct (contains newline hd) eqn:Ch; [do 2 eexists; reflexivity|].
  rewrite contains_app, Ch in C. cbn [orb] in C.
  destruct (recv_incoming BUFFER_SIZE q) as (chunk & q' & R & E & I & Wq).
  { unfold BUFFER_SIZE. lia. }
  { intros Z. rewrite Z in C. discriminate C. }
  rewrite R, E. apply IH; [|lia].
  rewrite <- app_assoc, I, contains_app, C. apply orb_true_r.
Qed.

Lemma flet_decode_header_line lb rem line h :
  contains newline lb = false ->
  decode lb = inr line -> FletClient.parse_header line = inr h ->
  FletClient.decode_header (lb ++ newline :: rem) = inr (h, rem).
Proof.
  intros C D P. unfold FletClient.decode_header, py_find.
  rewrite (find_from_at _ _ _ 0 C). cbn [Z.add].
  rewrite slice_to_at, slice_from_at, D, P. reflexivity.
Qed.

(** A prefix of a stream that holds the newline is the header line, the
    newline, and a part of what follows. *)
Lemma header_prefix_parts hd tail lb content :
  hd ++ tail = lb ++ newline :: content ->
  contains newline lb = false ->
  contains newline hd = true ->
  hd = lb ++ newline :: after_newline hd /\ after_newline hd ++ tail = content.
Proof.
  intros E C N.
  destruct (first_line_prefix hd tail N) as [FL AN].
  destruct (line_and_rest hd N) as [Hhd _].
  rewrite E in FL, AN. unfold first_line, after_newline, py_find in FL, AN.
  rewrite (find_from_at _ _ _ 0 C) in FL, AN. cbn [Z.add] in FL, AN.
  rewrite slice_to_at in FL. rewrite slice_from_at in AN.
  fold (first_line hd) in FL. fold (after_newline hd) in AN, FL.
  split; [|symmetry; exact AN].
  rewrite FL. exact Hhd.
Qed.

(** What [header_prefix_parts] gives when more than the payload is on its
    way: the bytes read along with the header are a part of the payload as
    soon as nothing follows the payload, or the payload fills a buffer. *)
Lemma leftover_within_payload (rem tail content extra : bytes) :
  rem ++ tail = content ++ extra ->
  extra = [] \/ len rem <= len content ->
  len rem <= len content
  /\ content = rem ++ firstn (Z.to_nat (len content - len rem)) tail
  /\ extra = skipn (Z.to_nat (len content - len rem)) tail.
Proof.
  intros E H.
  assert (L : len rem <= len content).
  { destruct H as [->|H]; [|exact H]. rewrite app_nil_r in E. rewrite <- E, len_app.
    pose proof (len_nonneg tail). lia. }
  split; [exact L|].
  pose proof (f_equal (firstn (List.length content)) E) as F.
  pose proof (f_equal (skipn (List.length content)) E) as K.
  rewrite firstn_app, (firstn_all2 rem) in F by (unfold len in L; lia).
  rewrite firstn_app, firstn_all, Nat.sub_diag, app_nil_r in F. cbn [firstn] in F.
  rewrite skipn_app, (skipn_all2 rem) in K by (unfold len in L; lia).
  rewrite skipn_app, skipn_all, Nat.sub_diag in K. cbn [skipn] in K.
  rewrite !app_nil_l in K.
  replace (Z.to_nat (len content - len rem))
    with (List.length content - List.length rem)%nat by (unfold len in *; lia).
  split; [symmetry; exact F | symmetry; exact K].
Qed.

(** The whole transfer as [flet_client.py] sees it: a header line that
    parses, then as many bytes as it declares, however the transport cuts
    them, and possibly more behind them. *)
Lemma flet_receives_more client dest cb w s lb line h content extra :
  connected client = true -> socket client = Some s ->
  incoming (inbox s) = lb ++ newline :: content ++ extra ->
  extra = [] \/ BUFFER_SIZE - 1 <= len content ->
  contains newline lb = false ->
  decode lb = inr line -> FletClient.parse_header line = inr h ->
  FletClient.h_size h = len content ->
  stored (FletClient.receive_file client dest cb w) client w dest (FletClient.h_name h)
    content cb
  /\ leaves (FletClient.receive_file client dest cb w) extra.
Proof.
  intros Hc Hs I X C D P Hn.
  destruct (flet_header_loop_finds (S (weight (inbox s))) (inbox s) []) as (hd & q & RH).
  { rewrite app_nil_l, I, contains_app. cbn. apply orb_true_r. }
  { lia. }
  destruct (flet_header_loop_stream _ _ _ _ _ RH) as [IQ N].
  destruct (flet_header_loop_last _ _ [] _ _ eq_refl RH) as (pre & chunk & Epc & Hpre & Hchunk).
  rewrite app_nil_l, I in IQ.
  destruct (header_prefix_parts _ _ _ _ IQ C N) as [Ehd Ec].
  pose proof (flet_decode_header_line lb (after_newline hd) line h C D P) as DH.
  rewrite <- Ehd in DH.
  assert (Hrem : len (after_newline hd) < BUFFER_SIZE).
  { rewrite Epc. eapply Z.lt_le_trans; [|exact Hchunk].
    apply leftover_in_last_chunk; [exact Hpre | rewrite <- Epc; exact N]. }
  set (rem := after_newline hd) in *.
  destruct (leftover_within_payload rem (incoming q) content extra Ec) as (Lr & Econ & Eex).
  { destruct X as [X|X]; [left; exact X | right; lia]. }
  destruct (flet_payload_loop_delivers (S (weight q)) cb dest (FletClient.h_size h)
              (FletClient.start w dest q rem)) as (t & RP & G & Kc & Kq).
  { apply len_nonneg. }
  { cbn [FletClient.start FletClient.t_inbox FletClient.received_bytes].
    pose proof (f_equal (@len byte) Ec) as El. rewrite !len_app in El.
    pose proof (len_nonneg extra). lia. }
  { cbn. lia. }
  destruct (flet_payload_loop_stream _ _ _ _ _ _ _ RP) as (_ & _ & _ & _ & O).
  destruct (G rem) as [Gf Gc]; [cbn; apply flet_open_destination|].
  cbn [FletClient.start FletClient.t_inbox FletClient.received_bytes] in Gf, Gc, Kq.
  rewrite Hn in Gf, Gc, Kq. rewrite <- Econ in Gf. rewrite <- Eex in Kq.
  assert (Rt : FletClient.received_bytes t = len content).
  { rewrite Gc. rewrite Econ at 2. rewrite len_app. reflexivity. }
  assert (O' : same_outside dest w (FletClient.t_world t)).
  { eapply same_outside_trans; [|exact O]. cbn [FletClient.start FletClient.t_world].
    repeat split. intros p' Hp. cbn [with_fs fs]. unfold FletClient.open_destination.
    destruct (is_empty rem);
      [|rewrite append_file_other by exact Hp]; apply open_file_other, Hp. }
  destruct (flet_payload_loop_reports _ _ _ _ _ _ _ RP) as (mids & Cm & Rm & _).
  cbn [FletClient.start FletClient.t_world FletClient.received_bytes with_fs calls]
    in Kc, Cm, Rm.
  assert (E : FletClient.receive_file client dest cb w
              = Some (Returns true,
                      with_record (with_inbox client (FletClient.t_inbox t))
                        (FletClient.final_record
                           (if cb then with_call (FletClient.t_world t)
                                         (100, FletClient.received_bytes t, FletClient.h_size h)
                            else FletClient.t_world t) dest h (FletClient.received_bytes t)),
                      if cb then with_call (FletClient.t_world t)
                                   (100, FletClient.received_bytes t, FletClient.h_size h)
                      else FletClient.t_world t)).
  { unfold FletClient.receive_file, FletClient.try_body. rewrite Hc, Hs. cbn [negb].
    unfold FletClient.read_header. rewrite RH, DH.
    unfold FletClient.read_payload. cbn [FletClient.start FletClient.t_inbox].
    cbn [FletClient.start FletClient.t_inbox] in RP. rewrite RP. reflexivity. }
  rewrite E. split.
  - unfold stored. do 2 eexists. split; [reflexivity|].
    split; [destruct cb; exact Gf|].
    split.
    { destruct O' as (F1 & D1 & N1 & T1). destruct cb; repeat split; assumption. }
    split.
    { exists mids. split; [|split].
      - rewrite Rt, Hn. destruct cb; cbn [final_call calls with_call]; rewrite Cm;
          [rewrite <- app_assoc | rewrite !app_nil_r]; reflexivity.
      - rewrite Hn, Rt in Rm. exact (reports_lower _ _ 0 _ _ (len_nonneg rem) Rm).
      - intros U. specialize (Kc U). rewrite Kc in Cm.
        apply (app_inv_head (calls w)). rewrite app_nil_r. symmetry. exact Cm. }
    cbn [with_record download_history with_inbox]. f_equal. f_equal.
    unfold FletClient.final_record, FletClient.final_status.
    rewrite Rt, Hn, Z.leb_refl.
    destruct O' as (_ & _ & _ & T1). f_equal. destruct cb; exact T1.
  - cbn [leaves with_record with_inbox socket]. rewrite Hs. cbn. rewrite Kq. reflexivity.
Qed.

Lemma flet_receives_line client dest cb w s lb line h content :
  connected client = true -> socket client = Some s ->
  incoming (inbox s) = lb ++ newline :: content ->
  contains newline lb = false ->
  decode lb = inr line -> FletClient.parse_header line = inr h ->
  FletClient.h_size h = len content ->
  stored (FletClient.receive_file client dest cb w) client w dest (FletClient.h_name h)
    content cb.
Proof.
  intros Hc Hs I C D P Hn.
  apply (proj1 (flet_receives_more client dest cb w s lb line h content []
                  Hc Hs ltac:(rewrite app_nil_r; exact I) (or_introl eq_refl) C D P Hn)).
Qed.

(** The line either server sends decodes, for [flet_client.py], to the
    name and the size. *)
Lemma flet_sent_line_parses name n :
  has_char "|" name = false ->
  has_char "010" name = false ->
  utf8_valid (encode name) = true ->
  contains newline (encode (name ++ "|" ++ py_str n)) = false
  /\ decode (encode (name ++ "|" ++ py_str n)) = inr (name ++ "|" ++ py_str n)%string
  /\ FletClient.parse_header (name ++ "|" ++ py_str n)
     = inr {| FletClient.h_name := name; FletClient.h_size := n |}.
Proof.
  intros Hb Hn Hu.
  pose proof (line_has_no_newline name n Hn) as C.
  pose proof (decode_line2 name n Hu) as D.
  split; [exact C|]. split; [exact D|].
  pose proof (flet_decode_sent name n [] Hb Hn Hu) as S.
  unfold ServerNew.encode_header in S. rewrite <- app_assoc in S.
  destruct (flet_decode_header_parts _ _ _ S) as (line & DL & PH & _).
  unfold first_line in DL. destruct (cut_at_newline _ [] C) as (F & T & _).
  rewrite F, T, D in DL. injection DL as <-. exact PH.
Qed.

(** X3.  What either server sends, [flet_client.py] stores: if
    [send_file] of [file_server_new.py] returned [True], or [_send_file]
    of [flet_server.py] ran on a transport that takes all it is given, and
    the client's stream delivers what went on the wire, cut as the transport
    likes, then [receive_file] returns [True], the destination holds the
    content of the file sent, nothing else is written, and the record is
    [Complete] with the name and the size of the file; the callback gets
    the progress reports that fall due and then its final call.  The name
    must be free of bars and newlines. *)
Theorem flet_client_stores_what_the_servers_send :
  forall (file_path : string) (content : bytes) (e : server_env) (sock : peer)
         (client : FileClient) (s : socket_obj) (dest : string) (cb : bool) (w : world),
    s_fs e file_path = Some content ->
    wire sock = [] ->
    has_char "|" (basename file_path) = false ->
    has_char "010" (basename file_path) = false ->
    utf8_valid (encode (basename file_path)) = true ->
    connected client = true ->
    socket client = Some s ->
    (forall server scb server' sock' e',
        ServerNew.send_file server sock file_path scb e = Some (true, server', sock', e') ->
        incoming (inbox s) = wire sock' ->
        stored (FletClient.receive_file client dest cb w) client w dest
          (basename file_path) content cb)
    /\ (forall server client_info,
        capacity sock = [] ->
        exists server' sock' e',
          FletServer._send_file server sock file_path client_info e
            = Some (true, server', sock', e')
          /\ (incoming (inbox s) = wire sock' ->
              stored (FletClient.receive_file client dest cb w) client w dest
                (basename file_path) content cb)).
Proof.
  intros file_path content e sock client s dest cb w Hf Hw Hb Hn Hu Hc Hs.
  destruct (flet_sent_line_parses (basename file_path) (len content) Hb Hn Hu)
    as (C & D & P).
  assert (K : forall sock' : peer,
             wire sock' = wire sock
                          ++ ServerNew.encode_header (basename file_path) (len content)
                          ++ content ->
             incoming (inbox s) = wire sock' ->
             stored (FletClient.receive_file client dest cb w) client w dest
               (basename file_path) content cb).
  { intros sock' Ew I. rewrite Ew, Hw, app_nil_l in I.
    unfold ServerNew.encode_header in I. rewrite <- app_assoc in I.
    exact (flet_receives_line client dest cb w s _ _
             {| FletClient.h_name := basename file_path; FletClient.h_size := len content |}
             content Hc Hs I C D P eq_refl). }
  split.
  - intros server scb server' sock' e' S I.
    destruct (new_send_file_true _ _ _ _ _ _ _ _ _ Hf S) as (tr & rec & _ & _ & Ew & _).
    exact (K sock' Ew I).
  - intros server client_info Hcap.
    destruct (flet_send_file_all server sock file_path client_info e content Hf Hcap)
      as (server' & sock' & e' & tr & rec & S & _ & _ & Ew & _).
    exists server', sock', e'. split; [exact S|]. exact (K sock' Ew).
Qed.

Lemma flet_client_stores_what_the_servers_send_witness :
  stored
    (FletClient.receive_file
       (client_on [Data (encode "notes.txt|5"); Data [newline; x68]; Data (encode "ello")])
       "out.txt" true w0)
    (client_on [Data (encode "notes.txt|5"); Data [newline; x68]; Data (encode "ello")])
    w0 "out.txt" "notes.txt" (encode "hello") true.
Proof.
  destruct (ServerNew.send_file no_transfers (open_peer [TxAccept 4]) "docs/notes.txt" false
              notes_env) as [[[[b server'] sock'] e']|] eqn:E;
    [|vm_compute in E; discriminate E].
  assert (Hb : b = true) by (vm_compute in E; congruence).
  assert (Hw : wire sock' = encode "notes.txt|5" ++ [newline] ++ encode "hello")
    by (vm_compute in E; injection E as _ _ <- _; reflexivity).
  subst b.
  exact (proj1 (flet_client_stores_what_the_servers_send "docs/notes.txt" (encode "hello")
                  notes_env (open_peer [TxAccept 4])
                  (client_on [Data (encode "notes.txt|5"); Data [newline; x68];
                              Data (encode "ello")])
                  {| sockname := ("127.0.0.1", 50000);
                     inbox := [Data (encode "notes.txt|5"); Data [newline; x68];
                               Data (encode "ello")] |}
                  "out.txt" true w0
                  eq_refl eq_refl eq_refl eq_refl eq_refl eq_refl eq_refl)
           no_transfers false server' sock' e' E (eq_sym Hw)).
Defined.

(** ** The same for [file_client_new.py], fed a header of three fields *)

Lemma new_payload_loop_delivers fuel attempt cb p fsz t :
  0 <= ClientNew.received_bytes t ->
  fsz - ClientNew.received_bytes t <= len (incoming (ClientNew.t_inbox t)) ->
  (weight (ClientNew.t_inbox t) < fuel)%nat ->
  exists t',
    ClientNew.payload_loop fuel attempt cb p fsz t = Some (ClientNew.PayloadDone, t')
    /\ grew ClientNew.t_world ClientNew.received_bytes p t t'
         (firstn (Z.to_nat (fsz - ClientNew.received_bytes t))
            (incoming (ClientNew.t_inbox t)))
    /\ (updates_due cb (ClientNew.t_world t) = false ->
        calls (ClientNew.t_world t') = calls (ClientNew.t_world t))
    /\ incoming (ClientNew.t_inbox t')
       = skipn (Z.to_nat (fsz - ClientNew.received_bytes t)) (incoming (ClientNew.t_inbox t)).
Proof.
  revert t. induction fuel as [|fuel IH]; intros t H0 L W; [lia|].
  cbn [ClientNew.payload_loop].
  destruct (ClientNew.received_bytes t <? fsz) eqn:C.
  2:{ apply Z.ltb_ge in C. exists t. split; [reflexivity|].
      replace (Z.to_nat (fsz - ClientNew.received_bytes t)) with O by lia.
      split; [apply grew_refl; reflexivity|]. split; [intros _|]; reflexivity. }
  apply Z.ltb_lt in C.
  destruct (recv_incoming (Z.min BUFFER_SIZE (fsz - ClientNew.received_bytes t))
              (ClientNew.t_inbox t)) as (chunk & q' & R & E & I & Wq).
  { unfold BUFFER_SIZE. lia. }
  { apply incoming_nonempty. lia. }
  assert (B : len chunk <= Z.min BUFFER_SIZE (fsz - ClientNew.received_bytes t)).
  { apply (recv_bound _ (ClientNew.t_inbox t) chunk q'); [unfold BUFFER_SIZE; lia | exact R]. }
  unfold ClientNew.payload_turn. rewrite R, E.
  destruct (ClientNew.take_chunk cb p fsz chunk q' t) as [t1 r] eqn:T.
  destruct (new_take_chunk_world _ _ _ _ _ _ _ _ T) as [_ K].
  assert (r = None) as ->.
  { apply (new_take_chunk_fine _ _ _ _ _ _ _ _ T H0); lia. }
  pose proof (new_take_chunk_inbox _ _ _ _ _ _ _ _ T) as Q.
  pose proof (new_take_chunk_received _ _ _ _ _ _ _ _ T) as Rc.
  assert (G : grew ClientNew.t_world ClientNew.received_bytes p t t1 chunk).
  { intros old Ho. rewrite (new_take_chunk_fs _ _ _ _ _ _ _ _ T), Rc.
    split; [apply append_file_same; exact Ho | reflexivity]. }
  destruct (IH t1) as (t' & Hl & G' & Hc' & Hq').
  - rewrite Rc. pose proof (len_nonneg chunk). lia.
  - rewrite Q, Rc. rewrite <- I, len_app in L. lia.
  - rewrite Q. lia.
  - exists t'. split; [exact Hl|].
    split; [|split].
    + rewrite <- I, firstn_chunk by lia.
      eapply grew_trans; [exact G|].
      rewrite Q, Rc in G'.
      replace (fsz - ClientNew.received_bytes t - len chunk)
        with (fsz - (ClientNew.received_bytes t + len chunk)) by lia.
      exact G'.
    + intros U. destruct (K U) as (_ & Kc & Ku). rewrite (Hc' Ku). exact Kc.
    + rewrite Hq', Q, Rc, <- I, skipn_app.
      rewrite (skipn_all2 chunk) by (unfold len in B; lia).
      rewrite app_nil_l. f_equal. unfold len. lia.
Qed.

(** What was read before the newline came is a part of the header line. *)
Lemma before_newline hd tail lb rest :
  hd ++ tail = lb ++ newline :: rest ->
  contains newline hd = false ->
  len hd <= len lb.
Proof.
  revert lb. induction hd as [|c hd IH]; intros lb E C.
  - apply len_nonneg.
  - destruct lb as [|d lb].
    + cbn in E. injection E as -> _. cbn in C. discriminate C.
    + cbn in E. injection E as -> E. cbn [contains existsb] in C.
      apply orb_false_iff in C. destruct C as [_ C].
      specialize (IH lb E C). unfold len in *. cbn [List.length]. lia.
Qed.

(** A newline on its way is found, when the line before it leaves room
    for one more buffer under the cap. *)
Lemma new_header_loop_finds fuel attempt q hd lb rest :
  hd ++ incoming q = lb ++ newline :: rest ->
  contains newline lb = false ->
  len lb + BUFFER_SIZE <= ClientNew.HEADER_LIMIT ->
  (weight q < fuel)%nat ->
  exists hd' q', ClientNew.header_loop fuel attempt q hd = Some (ClientNew.HeaderRead hd', q').
Proof.
  revert q hd. induction fuel as [|fuel IH]; intros q hd E C L W; [lia|].
  cbn [ClientNew.header_loop].
  destruct (contains newline hd) eqn:Ch; [do 2 eexists; reflexivity|].
  assert (Cq : contains newline (incoming q) = true).
  { apply (f_equal (contains newline)) in E. rewrite !contains_app, Ch, C in E.
    cbn in E. exact E. }
  destruct (recv_incoming BUFFER_SIZE q) as (chunk & q' & R & Ec & I & Wq).
  { unfold BUFFER_SIZE. lia. }
  { intros Z. rewrite Z in Cq. discriminate Cq. }
  rewrite R, Ec.
  assert (B : len chunk <= BUFFER_SIZE).
  { apply (recv_bound _ q chunk q'); [unfold BUFFER_SIZE; lia | exact R]. }
  pose proof (before_newline _ _ _ _ E Ch) as Hh.
  destruct (len (hd ++ chunk) >? ClientNew.HEADER_LIMIT) eqn:G.
  { apply Z.gtb_lt in G. rewrite len_app in G. lia. }
  apply IH; [|exact C|exact L|lia].
  rewrite <- app_assoc, I. exact E.
Qed.

Lemma new_decode_header_line lb rem line h :
  contains newline lb = false ->
  decode lb = inr line -> ClientNew.parse_header line = inr h ->
  ClientNew.decode_header (lb ++ newline :: rem) = inr (h, rem).
Proof.
  intros C D P. unfold ClientNew.decode_header, py_find.
  rewrite (find_from_at _ _ _ 0 C). cbn [Z.add].
  rewrite slice_to_at, slice_from_at, D, P. reflexivity.
Qed.

Lemma new_receives_more client dest cb w s lb line h content extra :
  connected client = true -> socket client = Some s ->
  incoming (inbox s) = lb ++ newline :: content ++ extra ->
  extra = [] \/ BUFFER_SIZE - 1 <= len content ->
  contains newline lb = false ->
  len lb + BUFFER_SIZE <= ClientNew.HEADER_LIMIT ->
  decode lb = inr line -> ClientNew.parse_header line = inr h ->
  ClientNew.h_size h = len content ->
  stored (ClientNew.receive_file client dest cb w) client w (ClientNew.target dest h)
    (ClientNew.h_name h) content cb
  /\ leaves (ClientNew.receive_file client dest cb w) extra.
Proof.
  intros Hc Hs I X C L D P Hn.
  destruct (new_header_loop_finds (S (weight (inbox s))) 0 (inbox s) [] lb (content ++ extra))
    as (hd & q & RH); [rewrite app_nil_l; exact I | exact C | exact L | lia |].
  pose proof (new_header_loop_stream _ _ _ _ _ _ RH) as [IQ N].
  destruct (new_header_loop_last _ _ _ [] _ _ eq_refl RH)
    as (pre & chunk & Epc & Hpre & Hchunk).
  rewrite app_nil_l, I in IQ.
  destruct (header_prefix_parts _ _ _ _ IQ C N) as [Ehd Ec].
  pose proof (new_decode_header_line lb (after_newline hd) line h C D P) as DH.
  rewrite <- Ehd in DH.
  assert (Hrem : len (after_newline hd) < BUFFER_SIZE).
  { rewrite Epc. eapply Z.lt_le_trans; [|exact Hchunk].
    apply leftover_in_last_chunk; [exact Hpre | rewrite <- Epc; exact N]. }
  set (rem := after_newline hd) in *.
  set (p := ClientNew.target dest h).
  destruct (leftover_within_payload rem (incoming q) content extra Ec) as (Lr & Econ & Eex).
  { destruct X as [X|X]; [left; exact X | right; lia]. }
  destruct (new_payload_loop_delivers (S (weight q)) 0 cb p (ClientNew.h_size h)
              (ClientNew.start 0 (first_frame client dest w) q h rem))
    as (t & RP & G & Kc & Kq).
  { apply len_nonneg. }
  { cbn [ClientNew.start ClientNew.t_inbox ClientNew.received_bytes].
    pose proof (f_equal (@len byte) Ec) as El. rewrite !len_app in El.
    pose proof (len_nonneg extra). lia. }
  { cbn. lia. }
  destruct (new_payload_loop_stream _ _ _ _ _ _ _ _ RP) as (_ & _ & _ & _ & O).
  destruct (G rem) as [Gf Gc].
  { cbn [ClientNew.start ClientNew.t_world first_frame ClientNew.env ClientNew.save_path
         with_fs fs].
    apply open_destination_wb. reflexivity. }
  cbn [ClientNew.start ClientNew.t_inbox ClientNew.received_bytes] in Gf, Gc, Kq.
  rewrite Hn in Gf, Gc, Kq. rewrite <- Econ in Gf. rewrite <- Eex in Kq.
  assert (Rt : ClientNew.received_bytes t = len content).
  { rewrite Gc. rewrite Econ at 2. rewrite len_app. reflexivity. }
  assert (O' : same_outside p w (ClientNew.t_world t)).
  { eapply same_outside_trans; [|exact O].
    cbn [ClientNew.start ClientNew.t_world first_frame ClientNew.env ClientNew.save_path].
    repeat split. intros p' Hp. cbn [with_fs fs]. unfold ClientNew.open_destination.
    fold p. change (ClientNew.choose_mode 0 (fs w) p) with wb. cbv iota.
    destruct (is_empty rem);
      [|rewrite append_file_other by exact Hp]; apply open_file_other, Hp. }
  destruct (new_payload_loop_reports _ _ _ _ _ _ _ _ RP) as (mids & Cm & Rm & _).
  cbn [ClientNew.start ClientNew.t_world ClientNew.received_bytes with_fs calls
       first_frame ClientNew.env] in Kc, Cm, Rm.
  destruct (new_receive_payload client dest cb w s hd q h rem _ t Hc Hs RH DH RP) as [E _].
  cbv zeta in E. rewrite E. split.
  - unfold stored. do 2 eexists. split; [reflexivity|].
    split; [destruct cb; exact Gf|].
    split.
    { destruct O' as (F1 & D1 & N1 & T1). destruct cb; repeat split; assumption. }
    split.
    { exists mids. split; [|split].
      - rewrite Rt, Hn. destruct cb; cbn [final_call calls with_call]; rewrite Cm;
          [rewrite <- app_assoc | rewrite !app_nil_r]; reflexivity.
      - rewrite Hn, Rt in Rm. exact (reports_lower _ _ 0 _ _ (len_nonneg rem) Rm).
      - intros U. specialize (Kc U). rewrite Kc in Cm.
        apply (app_inv_head (calls w)). rewrite app_nil_r. symmetry. exact Cm. }
    cbn [with_record download_history with_inbox]. f_equal. f_equal.
    unfold ClientNew.complete_record. rewrite Hn.
    destruct O' as (_ & _ & _ & T1). f_equal. destruct cb; exact T1.
  - cbn [leaves with_record with_inbox socket]. rewrite Hs. cbn. rewrite Kq. reflexivity.
Qed.

(** X4.  [receive_file] of [file_client_new.py] on a stream that brings a
    header line it can parse and then exactly as many bytes as the line
    declares, however the transport cuts them: it returns [True], the
    destination (with the declared extension added when the path has none)
    holds exactly those bytes, nothing else is written, the callback gets
    the progress reports that fall due and then its final call, and one
    [Complete] record with the declared name and size is added.  The line
    must leave room for one more buffer under the cap on the header. *)
Theorem new_client_stores_the_declared_payload :
  forall (client : FileClient) (dest : string) (cb : bool) (w : world) (s : socket_obj)
         (lb : bytes) (line : string) (h : ClientNew.header) (content : bytes),
    connected client = true ->
    socket client = Some s ->
    incoming (inbox s) = lb ++ newline :: content ->
    contains newline lb = false ->
    len lb + BUFFER_SIZE <= ClientNew.HEADER_LIMIT ->
    decode lb = inr line ->
    ClientNew.parse_header line = inr h ->
    ClientNew.h_size h = len content ->
    stored (ClientNew.receive_file client dest cb w) client w (ClientNew.target dest h)
      (ClientNew.h_name h) content cb.
Proof.
  intros client dest cb w s lb line h content Hc Hs I C L D P Hn.
  rewrite <- (app_nil_r content) in I.
  destruct (new_receives_more client dest cb w s lb line h content [] Hc Hs I
              (or_introl eq_refl) C L D P Hn) as [S _].
  exact S.
Qed.



Lemma new_client_stores_the_declared_payload_witness :
  stored
    (ClientNew.receive_file
       (client_on [Data (encode "f.bin|10|.bin" ++ [newline] ++ encode "ABC");
                   Data (encode "DEFGHIJ")]) "out" true w0)
    (client_on [Data (encode "f.bin|10|.bin" ++ [newline] ++ encode "ABC");
                Data (encode "DEFGHIJ")])
    w0 "out.bin" "f.bin" (encode "ABCDEFGHIJ") true.
Proof.
  exact (new_client_stores_the_declared_payload
           (client_on [Data (encode "f.bin|10|.bin" ++ [newline] ++ encode "ABC");
                       Data (encode "DEFGHIJ")]) "out" true w0
           {| sockname := ("127.0.0.1", 50000);
              inbox := [Data (encode "f.bin|10|.bin" ++ [newline] ++ encode "ABC");
                        Data (encode "DEFGHIJ")] |}
           (encode "f.bin|10|.bin") "f.bin|10|.bin"
           {| ClientNew.h_name := "f.bin"; ClientNew.h_size := 10;
              ClientNew.h_extension := ".bin" |}
           (encode "ABCDEFGHIJ")
           eq_refl eq_refl eq_refl eq_refl
           ltac:(vm_compute; discriminate) eq_refl eq_refl eq_refl).
Defined.

(** X5.  A declared size that is not above the number of bytes read along
    with the header, be it zero, negative, or just too small, is taken as
    it is: no further read is made, all the bytes read along with the header
    are written, more than declared when there are more, and the call
    returns [True] with a [Complete] record that carries the declared
    size. *)
Theorem size_within_the_leftover_completes_at_once :
  forall (client : FileClient) (dest : string) (cb : bool) (w : world)
         (s : socket_obj) (header_data : bytes) (q : list event) (rem : bytes),
    connected client = true ->
    socket client = Some s ->
    (forall h,
        FletClient.read_header (inbox s) = Some (inr header_data, q) ->
        FletClient.decode_header header_data = inr (h, rem) ->
        FletClient.h_size h <= len rem ->
        exists client' w' rec,
          FletClient.receive_file client dest cb w = Some (Returns true, client', w')
          /\ fs w' dest = Some rem
          /\ option_map inbox (socket client') = Some q
          /\ download_history client' = download_history client ++ [rec]
          /\ status rec = "Complete" /\ size rec = FletClient.h_size h)
    /\ (forall h,
        ClientNew.read_header 0 (inbox s) = Some (ClientNew.HeaderRead header_data, q) ->
        ClientNew.decode_header header_data = inr (h, rem) ->
        ClientNew.h_size h <= len rem ->
        exists client' w' rec,
          ClientNew.receive_file client dest cb w = Some (Returns true, client', w')
          /\ fs w' (ClientNew.target dest h) = Some rem
          /\ option_map inbox (socket client') = Some q
          /\ download_history client' = download_history client ++ [rec]
          /\ status rec = "Complete" /\ size rec = ClientNew.h_size h).
Proof.
  intros client dest cb w s hd q rem Hc Hs. split.
  - intros h RH DH L.
    unfold FletClient.receive_file, FletClient.try_body. rewrite Hc, Hs, RH, DH. cbn [negb].
    unfold FletClient.read_payload.
    rewrite flet_payload_loop_done by (cbn; exact L).
    do 3 eexists. split; [reflexivity|].
    split.
    { cbn [FletClient.start FletClient.t_world].
      destruct cb; cbn [with_call with_fs fs]; apply flet_open_destination. }
    split; [cbn; rewrite Hs; reflexivity|].
    split; [reflexivity|].
    split; [|reflexivity].
    cbn [FletClient.final_record status FletClient.start FletClient.received_bytes].
    unfold FletClient.final_status. apply Z.leb_le in L. rewrite L. reflexivity.
  - intros h RH DH L.
    assert (RP : ClientNew.read_payload 0 cb (ClientNew.target dest h) (ClientNew.h_size h)
                   (ClientNew.start 0 (first_frame client dest w) q h rem)
                 = Some (ClientNew.PayloadDone,
                         ClientNew.start 0 (first_frame client dest w) q h rem)).
    { unfold ClientNew.read_payload. apply new_payload_loop_done. cbn. exact L. }
    destruct (new_receive_payload client dest cb w s hd q h rem _ _ Hc Hs RH DH RP) as [E _].
    cbv zeta in E. rewrite E.
    do 3 eexists. split; [reflexivity|].
    split.
    { cbn [ClientNew.start ClientNew.t_world first_frame ClientNew.env ClientNew.save_path].
      destruct cb; cbn [with_call with_fs fs]; apply open_destination_wb; reflexivity. }
    split; [cbn; rewrite Hs; reflexivity|].
    split; [reflexivity|]. split; reflexivity.
Qed.

Lemma size_within_the_leftover_completes_at_once_witness :
  observe
    (FletClient.receive_file (client_on [Data (encode "a.txt|-5" ++ [newline] ++ encode "abc")])
       "out.txt" true w0) "out.txt"
  = Some (Returns true, Some (encode "abc"), [], ["Complete"], [(100, 3, -5)])
  /\ exists client' w' rec,
       ClientNew.receive_file
         (client_on [Data (encode "a.txt|2|.txt" ++ [newline] ++ encode "abc")]) "out" false w0
       = Some (Returns true, client', w')
       /\ fs w' "out.txt" = Some (encode "abc")
       /\ download_history client' = [rec]
       /\ status rec = "Complete" /\ size rec = 2.
Proof.
  split; [vm_compute; reflexivity|].
  destruct (proj2 (size_within_the_leftover_completes_at_once
                     (client_on [Data (encode "a.txt|2|.txt" ++ [newline] ++ encode "abc")])
                     "out" false w0
                     {| sockname := ("127.0.0.1", 50000);
                        inbox := [Data (encode "a.txt|2|.txt" ++ [newline] ++ encode "abc")] |}
                     (encode "a.txt|2|.txt" ++ [newline] ++ encode "abc") [] (encode "abc")
                     eq_refl eq_refl)
              {| ClientNew.h_name := "a.txt"; ClientNew.h_size := 2;
                 ClientNew.h_extension := ".txt" |}
              eq_refl eq_refl ltac:(vm_compute; discriminate))
    as (c' & w' & rec & E & F & _ & H & S1 & S2).
  exists c', w', rec. repeat split; assumption.
Defined.

Lemma flet_file_is_the_start_of_the_payload_witness :
  exists client' w' received,
    FletClient.receive_file short_flet "out.txt" true w0 = Some (Returns true, client', w')
    /\ fs w' "out.txt"
       = Some (slice_to (after_newline (encode "a.txt|5" ++ [newline] ++ encode "abc")) received)
    /\ received <= Z.max 5 (BUFFER_SIZE - 1).
Proof.
  destruct (FletClient.receive_file short_flet "out.txt" true w0)
    as [[[[[|]|e] c'] w']|] eqn:E; try (vm_compute in E; discriminate E).
  destruct (flet_file_is_the_start_of_the_payload short_flet "out.txt" true w0
              {| sockname := ("127.0.0.1", 50000);
                 inbox := [Data (encode "a.txt|5" ++ [newline] ++ encode "abc")] |}
              c' w' eq_refl eq_refl E)
    as (line & h & received & rec & D & P & F & _ & B & _).
  vm_compute in D. injection D as <-. vm_compute in P. injection P as <-.
  exists c', w', received. split; [reflexivity|]. split; [exact F | exact B].
Defined.

Lemma new_returned_file_is_the_declared_payload_witness :
  exists client' w' received,
    ClientNew.receive_file
      (client_on [Data (encode "f.bin|10|.bin" ++ [newline] ++ encode "ABC");
                  Data (encode "DEFGHIJ")]) "out" true w0
    = Some (Returns true, client', w')
    /\ fs w' "out.bin"
       = Some (slice_to (after_newline (encode "f.bin|10|.bin" ++ [newline]
                                        ++ encode "ABCDEFGHIJ")) received)
    /\ 10 <= received <= Z.max 10 (BUFFER_SIZE - 1).
Proof.
  destruct (ClientNew.receive_file
              (client_on [Data (encode "f.bin|10|.bin" ++ [newline] ++ encode "ABC");
                          Data (encode "DEFGHIJ")]) "out" true w0)
    as [[[[b|e] c'] w']|] eqn:E; try (vm_compute in E; discriminate E).
  destruct (new_returned_file_is_the_declared_payload
              (client_on [Data (encode "f.bin|10|.bin" ++ [newline] ++ encode "ABC");
                          Data (encode "DEFGHIJ")]) "out" true w0
              {| sockname := ("127.0.0.1", 50000);
                 inbox := [Data (encode "f.bin|10|.bin" ++ [newline] ++ encode "ABC");
                           Data (encode "DEFGHIJ")] |}
              b c' w' eq_refl eq_refl E)
    as (line & h & received & rec & -> & D & P & F & L & _ & B & _).
  vm_compute in D. injection D as <-. vm_compute in P. injection P as <-.
  exists c', w', received. split; [reflexivity|]. split; [exact F|]. split; [exact L | exact B].
Defined.

(** ** Headers that are refused *)

Lemma new_header_errors fuel attempt q hd e q' :
  ClientNew.header_loop fuel attempt q hd = Some (ClientNew.HeaderRaise e, q') ->
  e = ClientNew.closed_before_header \/ kind e = OSError \/ e = ClientNew.header_too_large.
Proof.
  revert q hd. induction fuel as [|fuel IH]; intros q hd; cbn [ClientNew.header_loop].
  - destruct (contains newline hd); discriminate.
  - destruct (contains newline hd); [discriminate|].
    destruct q as [|[bs|msg] q0]; cbn [recv].
    + cbn [is_empty]. unfold ClientNew.header_handler.
      destruct (attempt <? _); [|discriminate]. intros [= <- _]. left. reflexivity.
    + destruct (len bs <=? BUFFER_SIZE).
      * destruct (is_empty bs).
        -- unfold ClientNew.header_handler.
           destruct (attempt <? _); [|discriminate]. intros [= <- _]. left. reflexivity.
        -- destruct (_ >? _); [intros [= <- _]; right; right; reflexivity | apply IH].
      * destruct (is_empty _).
        -- unfold ClientNew.header_handler.
           destruct (attempt <? _); [|discriminate]. intros [= <- _]. left. reflexivity.
        -- destruct (_ >? _); [intros [= <- _]; right; right; reflexivity | apply IH].
    + unfold ClientNew.header_handler.
      destruct (attempt <? _); [|discriminate]. intros [= <- _]. right. left. reflexivity.
Qed.



Lemma split_app_length sep a b :
  List.length (split sep (a ++ String sep b))
  = (List.length (split sep a) + List.length (split sep b))%nat.
Proof.
  induction a as [|c a IH]; cbn [append split].
  - rewrite Ascii.eqb_refl. reflexivity.
  - destruct (Ascii.eqb c sep); cbn [List.length]; [rewrite IH; reflexivity|].
    pose proof (split_nonempty sep (a ++ String sep b)) as N1.
    pose proof (split_nonempty sep a) as N2.
    destruct (split sep (a ++ String sep b)) as [|h1 t1]; [contradiction|].
    destruct (split sep a) as [|h2 t2]; [contradiction|].
    cbn [List.length] in *. exact IH.
Qed.

Lemma split_length_has sep s :
  has_char sep s = true -> (2 <= List.length (split sep s))%nat.
Proof.
  induction s as [|c s IH]; cbn [has_char split]; [discriminate|].
  destruct (Ascii.eqb c sep).
  - intros _. pose proof (split_nonempty sep s) as N.
    destruct (split sep s); [contradiction|]. cbn [List.length]. lia.
  - cbn [orb]. intros H. specialize (IH H).
    destruct (split sep s) as [|h t]; cbn [List.length] in *; lia.
Qed.

(** The line sent for a name without a bar has two fields, which
    [file_client_new.py] refuses; for a name with a bar it has more than
    two, which [flet_client.py] refuses. *)
Lemma new_refuses_two_fields name n :
  has_char "|" name = false ->
  ClientNew.parse_header (name ++ "|" ++ py_str n) = inl ClientNew.invalid_header.
Proof.
  intros Hb. unfold ClientNew.parse_header.
  change (name ++ "|" ++ py_str n)%string with (name ++ String "|" (py_str n))%string.
  rewrite split_field by exact Hb.
  rewrite split_last by (apply py_str_has_no; reflexivity). reflexivity.
Qed.

Lemma flet_refuses_more_fields name n :
  has_char "|" name = true ->
  exists fields : nat,
    (3 <= fields)%nat
    /\ FletClient.parse_header (name ++ "|" ++ py_str n)
       = inl (FletClient.unpack_error fields).
Proof.
  intros Hb. unfold FletClient.parse_header.
  pose proof (split_app_length "|" name (py_str n)) as L.
  pose proof (split_length_has "|" name Hb) as L1.
  pose proof (split_nonempty "|" (py_str n)) as N.
  change (name ++ "|" ++ py_str n)%string with (name ++ String "|" (py_str n))%string.
  destruct (split "|" (py_str n)) as [|x xs]; [contradiction|].
  destruct (split "|" (name ++ String "|" (py_str n))) as [|f1 [|f2 [|f3 fs]]];
    cbn [List.length] in L; try lia.
  exists (S (S (S (List.length fs)))). split; [lia | reflexivity].
Qed.

Lemma flet_refuses_line client dest cb w s lb line e content :
  connected client = true -> socket client = Some s ->
  incoming (inbox s) = lb ++ newline :: content ->
  contains newline lb = false ->
  decode lb = inr line -> FletClient.parse_header line = inl e ->
  exists q,
    FletClient.receive_file client dest cb w
    = Some (Raises e, with_record (with_inbox client q) (failed_record w dest e), w).
Proof.
  intros Hc Hs I C D P.
  destruct (flet_header_loop_finds (S (weight (inbox s))) (inbox s) []) as (hd & q & RH).
  { rewrite app_nil_l, I, contains_app. cbn. apply orb_true_r. }
  { lia. }
  destruct (flet_header_loop_stream _ _ _ _ _ RH) as [IQ N].
  rewrite app_nil_l, I in IQ.
  destruct (header_prefix_parts _ _ _ _ IQ C N) as [Ehd _].
  exists q. unfold FletClient.receive_file, FletClient.try_body, FletClient.read_header.
  rewrite Hc, Hs, RH. cbn [negb]. rewrite Ehd.
  unfold FletClient.decode_header, py_find.
  rewrite (find_from_at _ _ _ 0 C). cbn [Z.add]. rewrite slice_to_at, D, P. reflexivity.
Qed.

Lemma new_refuses_line client dest cb w s lb line e content :
  connected client = true -> socket client = Some s ->
  incoming (inbox s) = lb ++ newline :: content ->
  contains newline lb = false ->
  len lb + BUFFER_SIZE <= ClientNew.HEADER_LIMIT ->
  decode lb = inr line -> ClientNew.parse_header line = inl e ->
  exists q,
    ClientNew.receive_file client dest cb w
    = Some (Raises e, with_record (with_inbox client q) (failed_record w dest e), w).
Proof.
  intros Hc Hs I C L D P.
  destruct (new_header_loop_finds (S (weight (inbox s))) 0 (inbox s) [] lb content)
    as (hd & q & RH); [rewrite app_nil_l; exact I | exact C | exact L | lia |].
  pose proof (new_header_loop_stream _ _ _ _ _ _ RH) as [IQ N].
  rewrite app_nil_l, I in IQ.
  destruct (header_prefix_parts _ _ _ _ IQ C N) as [Ehd _].
  exists q. apply (new_receive_decode_failure client dest cb w s hd e q Hc Hs RH).
  rewrite Ehd. unfold ClientNew.decode_header, py_find.
  rewrite (find_from_at _ _ _ 0 C). cbn [Z.add]. rewrite slice_to_at, D, P. reflexivity.
Qed.

(** X7.  [file_client_new.py] receives from neither server: the line
    both send for a file whose name has no bar has two fields, and
    [receive_file] raises [ValueError("Invalid file header format")] for
    it, whatever the size and the content, records the failure and writes
    nothing. *)
Theorem new_client_refuses_the_header_the_servers_send :
  forall (client : FileClient) (dest : string) (cb : bool) (w : world) (s : socket_obj)
         (name : string) (n : Z) (content : bytes),
    connected client = true ->
    socket client = Some s ->
    has_char "|" name = false ->
    has_char "010" name = false ->
    utf8_valid (encode name) = true ->
    len (ServerNew.encode_header name n) + BUFFER_SIZE <= ClientNew.HEADER_LIMIT ->
    incoming (inbox s) = ServerNew.encode_header name n ++ content ->
    FletServer.encode_header name n = ServerNew.encode_header name n
    /\ exists q,
         ClientNew.receive_file client dest cb w
         = Some (Raises ClientNew.invalid_header,
                 with_record (with_inbox client q)
                   (failed_record w dest ClientNew.invalid_header), w).
Proof.
  intros client dest cb w s name n content Hc Hs Hb Hn Hu L I.
  split; [apply same_header_line|].
  unfold ServerNew.encode_header in I, L. rewrite <- app_assoc in I.
  rewrite len_app in L. change (len [newline]) with 1 in L.
  apply (new_refuses_line client dest cb w s (encode (name ++ "|" ++ py_str n))
           (name ++ "|" ++ py_str n) ClientNew.invalid_header content Hc Hs I).
  - apply line_has_no_newline, Hn.
  - lia.
  - apply decode_line2, Hu.
  - apply new_refuses_two_fields, Hb.
Qed.

Lemma new_client_refuses_the_header_the_servers_send_witness :
  exists q,
    ClientNew.receive_file
      (client_on [Data (encode "notes.txt|5" ++ [newline] ++ encode "hello")]) "out" true w0
    = Some (Raises ClientNew.invalid_header,
            with_record
              (with_inbox (client_on [Data (encode "notes.txt|5" ++ [newline] ++ encode "hello")])
                 q)
              (failed_record w0 "out" ClientNew.invalid_header), w0).
Proof.
  exact (proj2 (new_client_refuses_the_header_the_servers_send
                  (client_on [Data (encode "notes.txt|5" ++ [newline] ++ encode "hello")])
                  "out" true w0
                  {| sockname := ("127.0.0.1", 50000);
                     inbox := [Data (encode "notes.txt|5" ++ [newline] ++ encode "hello")] |}
                  "notes.txt" 5 (encode "hello")
                  eq_refl eq_refl eq_refl eq_refl eq_refl
                  ltac:(vm_compute; discriminate) eq_refl)).
Defined.

(** X8.  A file whose name holds a bar cannot be received by
    [flet_client.py]: the line the servers send for it has three fields or
    more, and [receive_file] raises the [ValueError] of the unpacking into
    two names, records the failure and writes nothing. *)
Theorem flet_client_refuses_a_name_with_a_bar :
  forall (client : FileClient) (dest : string) (cb : bool) (w : world) (s : socket_obj)
         (name : string) (n : Z) (content : bytes),
    connected client = true ->
    socket client = Some s ->
    has_char "|" name = true ->
    has_char "010" name = false ->
    utf8_valid (encode name) = true ->
    incoming (inbox s) = ServerNew.encode_header name n ++ content ->
    exists (fields : nat) q,
      (3 <= fields)%nat
      /\ kind (FletClient.unpack_error fields) = ValueError
      /\ FletClient.receive_file client dest cb w
         = Some (Raises (FletClient.unpack_error fields),
                 with_record (with_inbox client q)
                   (failed_record w dest (FletClient.unpack_error fields)), w).
Proof.
  intros client dest cb w s name n content Hc Hs Hb Hn Hu I.
  unfold ServerNew.encode_header in I. rewrite <- app_assoc in I.
  destruct (flet_refuses_more_fields name n Hb) as (fields & Hf & P).
  destruct (flet_refuses_line client dest cb w s (encode (name ++ "|" ++ py_str n))
              (name ++ "|" ++ py_str n) _ content Hc Hs I
              (line_has_no_newline name n Hn) (decode_line2 name n Hu) P) as [q E].
  exists fields, q. split; [exact Hf|]. split; [|exact E].
  destruct fields as [|[|[|k]]]; try lia. reflexivity.
Qed.

Lemma flet_client_refuses_a_name_with_a_bar_witness :
  exists (fields : nat) q,
    (3 <= fields)%nat
    /\ FletClient.receive_file
         (client_on [Data (encode "a|b.txt|5" ++ [newline] ++ encode "hello")]) "out" true w0
       = Some (Raises (FletClient.unpack_error fields),
               with_record
                 (with_inbox
                    (client_on [Data (encode "a|b.txt|5" ++ [newline] ++ encode "hello")]) q)
                 (failed_record w0 "out" (FletClient.unpack_error fields)), w0).
Proof.
  destruct (flet_client_refuses_a_name_with_a_bar
              (client_on [Data (encode "a|b.txt|5" ++ [newline] ++ encode "hello")])
              "out" true w0
              {| sockname := ("127.0.0.1", 50000);
                 inbox := [Data (encode "a|b.txt|5" ++ [newline] ++ encode "hello")] |}
              "a|b.txt" 5 (encode "hello")
              eq_refl eq_refl eq_refl eq_refl eq_refl eq_refl)
    as (fields & q & Hf & _ & E).
  exists fields, q. split; [exact Hf | exact E].
Defined.

(** ** What a call never touches *)

Lemma with_inbox_sockname c q :
  option_map sockname (socket (with_inbox c q)) = option_map sockname (socket c).
Proof. unfold with_inbox. cbn. destruct (socket c); reflexivity. Qed.

Lemma append_empty (s : string) : (s ++ "")%string = s.
Proof. induction s as [|c s IH]; cbn; [reflexivity | rewrite IH; reflexivity]. Qed.

Lemma flet_start_outside w dest q rem :
  same_outside dest w (FletClient.t_world (FletClient.start w dest q rem)).
Proof.
  cbn [FletClient.start FletClient.t_world]. repeat split.
  intros p' Hp. cbn [with_fs fs]. unfold FletClient.open_destination.
  destruct (is_empty rem);
    [|rewrite append_file_other by exact Hp]; apply open_file_other, Hp.
Qed.

Lemma new_start_outside attempt f q h rem :
  same_outside (ClientNew.target (ClientNew.save_path f) h) (ClientNew.env f)
    (ClientNew.t_world (ClientNew.start attempt f q h rem)).
Proof.
  cbn [ClientNew.start ClientNew.t_world]. repeat split.
  intros p' Hp. cbn [with_fs fs]. unfold ClientNew.open_destination.
  destruct (ClientNew.choose_mode _ _ _); cbv zeta iota.
  - destruct (is_empty rem);
      [|rewrite append_file_other by exact Hp]; apply open_file_other, Hp.
  - apply open_file_other, Hp.
Qed.

Lemma left_alone_failure keeps client w q rec e :
  left_alone keeps client w (Some (Raises e, with_record (with_inbox client q) rec, w)).
Proof.
  cbn. repeat split. - apply with_inbox_sockname. - exists [rec]. reflexivity.
Qed.

Lemma flet_receive_left_alone client dest cb w :
  left_alone (fun p => p <> dest) client w (FletClient.receive_file client dest cb w).
Proof.
  unfold FletClient.receive_file.
  destruct (connected client) eqn:Hc; cbn [negb].
  2:{ cbn. repeat split. exists []. symmetry. apply app_nil_r. }
  unfold FletClient.try_body.
  destruct (socket client) as [s|] eqn:Hs.
  2:{ cbn. repeat split. exists [failed_record w dest
            (Raise AttributeError "'NoneType' object has no attribute 'recv'")]. reflexivity. }
  destruct (flet_read_header_total (inbox s)) as [[[e|hd] q] RH]; rewrite RH.
  { apply left_alone_failure. }
  destruct (FletClient.decode_header hd) as [e|[h rem]].
  { apply left_alone_failure. }
  destruct (flet_payload_loop_total (S (weight q)) cb dest (FletClient.h_size h)
              (FletClient.start w dest q rem)) as [[x t] RP]; [cbn; lia|].
  unfold FletClient.read_payload. cbn [FletClient.start FletClient.t_inbox].
  cbn [FletClient.start FletClient.t_inbox] in RP. rewrite RP.
  destruct (flet_payload_loop_stream _ _ _ _ _ _ _ RP) as (_ & _ & _ & _ & O).
  pose proof (same_outside_trans _ _ _ _ (flet_start_outside w dest q rem) O)
    as (F1 & D1 & N1 & T1).
  destruct x as [e|]; cbn [left_alone].
  - repeat split; try assumption.
    + apply with_inbox_sockname.
    + eexists [_]. reflexivity.
  - destruct cb; repeat split; try assumption;
      try apply with_inbox_sockname; eexists [_]; reflexivity.
Qed.

Lemma target_cases dest h : exists ext, ClientNew.target dest h = (dest ++ ext)%string.
Proof.
  unfold ClientNew.target. destruct (String.eqb _ _).
  - exists (ClientNew.h_extension h). reflexivity.
  - exists ""%string. symmetry. apply append_empty.
Qed.

Lemma new_receive_left_alone client dest cb w :
  left_alone (fun p => forall ext, p <> (dest ++ ext)%string) client w
    (ClientNew.receive_file client dest cb w).
Proof.
  destruct (connected client) eqn:Hc.
  2:{ unfold ClientNew.receive_file. rewrite Hc. cbn. repeat split.
      exists []. symmetry. apply app_nil_r. }
  destruct (socket client) as [s|] eqn:Hs.
  2:{ unfold ClientNew.receive_file, ClientNew.retry_range. rewrite Hc. cbn [negb].
      rewrite !new_attempts_cons.
      unfold ClientNew.attempt_body, ClientNew.transfer_once.
      cbn [ClientNew.self ClientNew.env ClientNew.save_path ClientNew.last_exception
           Z.ltb Z.compare].
      rewrite Hs. cbn. rewrite Hs. cbn. rewrite Hs. cbn. repeat split.
      exists []. symmetry. apply app_nil_r. }
  destruct (new_read_header_total 0 (inbox s)) as [[[hd|hd e|e] q] RH].
  2:{ exfalso. exact (new_first_header_never_breaks _ _ _ _ RH). }
  2:{ rewrite (new_receive_header_failure _ _ _ _ _ _ _ Hc Hs RH). apply left_alone_failure. }
  destruct (ClientNew.decode_header hd) as [e|[h rem]] eqn:DH.
  { rewrite (new_receive_decode_failure _ _ _ _ _ _ _ _ Hc Hs RH DH). apply left_alone_failure. }
  destruct (new_read_payload_total 0 cb (ClientNew.target dest h) (ClientNew.h_size h)
              (ClientNew.start 0 (first_frame client dest w) q h rem)) as [[px t] RP].
  destruct (new_receive_payload _ _ _ _ _ _ _ _ _ _ _ Hc Hs RH DH RP) as [E _].
  cbv zeta in E. rewrite E. clear E.
  unfold ClientNew.read_payload in RP.
  destruct (new_payload_loop_stream _ _ _ _ _ _ _ _ RP) as (_ & _ & _ & _ & O).
  pose proof (same_outside_trans _ _ _ _
                (new_start_outside 0 (first_frame client dest w) q h rem) O)
    as (F1 & D1 & N1 & T1).
  cbn [first_frame ClientNew.env ClientNew.save_path] in F1, D1, N1, T1.
  assert (F : forall p, (forall ext, p <> (dest ++ ext)%string) ->
                        fs (ClientNew.t_world t) p = fs w p).
  { intros p Hp. apply F1. destruct (target_cases dest h) as [ext ->]. apply Hp. }
  assert (S1 : option_map sockname
                 (socket (with_inbox (with_inbox client q) (ClientNew.t_inbox t)))
               = option_map sockname (socket client)).
  { rewrite !with_inbox_sockname. reflexivity. }
  destruct px as [|e|e]; cbn [left_alone].
  - destruct cb; repeat split; try assumption; eexists [_]; reflexivity.
  - repeat split; try assumption. eexists [_]. reflexivity.
  - repeat split; try assumption. eexists [_]. reflexivity.
Qed.

(** X9.  Whatever arrives and however the call ends, [receive_file] of
    either client comes to an end, dials nobody, leaves the flag
    [connected] and the address of the socket as they were, only appends to
    the history, and changes no file but the destination: in
    [flet_client.py] the path as given, in [file_client_new.py] the path as
    given or with an extension added.  In particular the retries of
    [file_client_new.py] never reconnect. *)
Theorem receive_file_leaves_the_rest_alone :
  forall (client : FileClient) (dest : string) (cb : bool) (w : world),
    left_alone (fun p => forall ext, p <> (dest ++ ext)%string) client w
      (ClientNew.receive_file client dest cb w)
    /\ left_alone (fun p => p <> dest) client w (FletClient.receive_file client dest cb w).
Proof.
  intros client dest cb w. split.
  - apply new_receive_left_alone.
  - apply flet_receive_left_alone.
Qed.

(** * More of the sending side *)

(** Whatever [sendall] does, what it put on the stream is the start of
    the data; all of it when it did not raise. *)
Lemma sendall_script_prefix data c r written c' :
  sendall_script data c = (r, written, c') ->
  exists rest, data = written ++ rest /\ (r = None -> rest = []).
Proof.
  revert data r written c'. induction c as [|[k|msg] c IH]; intros data r written c'.
  - destruct data; cbn [sendall_script]; intros [= <- <- <-]; exists [];
      rewrite ?app_nil_r; split; reflexivity.
  - destruct data as [|b d]; cbn [sendall_script].
    { intros [= <- <- <-]. exists []. split; reflexivity. }
    destruct (List.length (b :: d) <=? k)%nat.
    { intros [= <- <- <-]. exists []. rewrite app_nil_r. split; reflexivity. }
    destruct (sendall_script (skipn k (b :: d)) c) as [[r0 w0] c0] eqn:E.
    intros [= <- <- <-]. destruct (IH _ _ _ _ E) as (rest & Hd & Hr).
    exists rest. split; [|exact Hr].
    rewrite <- app_assoc, <- Hd. symmetry. apply firstn_skipn.
  - destruct data as [|b d]; cbn [sendall_script]; intros [= <- <- <-].
    + exists []. split; reflexivity.
    + exists (b :: d). split; [reflexivity | discriminate].
Qed.

Lemma sendall_any data sock r sock' :
  sendall data sock = (r, sock') ->
  peername sock' = peername sock
  /\ exists written rest,
       wire sock' = wire sock ++ written /\ data = written ++ rest
       /\ (r = None -> rest = []).
Proof.
  unfold sendall. destruct (sendall_script data (capacity sock)) as [[r0 w] c] eqn:E.
  intros [= <- <-]. split; [reflexivity|].
  destruct (sendall_script_prefix _ _ _ _ _ E) as (rest & Hd & Hr).
  exists w, rest. split; [reflexivity|]. split; [exact Hd | exact Hr].
Qed.

(** The sending loop of [file_server_new.py], however it ends: the stream
    got a start of the unread bytes, all of them when the loop ended by
    itself; the peer, the files and the clock are as before. *)
Lemma new_send_loop_any fuel cb fsz s r s' :
  ServerNew.send_loop fuel cb fsz s = Some (r, s') ->
  peername (s_sock s') = peername (s_sock s)
  /\ s_fs (s_env s') = s_fs (s_env s)
  /\ s_now (s_env s') = s_now (s_env s)
  /\ exists written rest,
       wire (s_sock s') = wire (s_sock s) ++ written
       /\ unread s = written ++ rest
       /\ (r = None -> rest = []).
Proof.
  revert s. induction fuel as [|fuel IH]; intros s; cbn [ServerNew.send_loop]; [discriminate|].
  cbv zeta. destruct (is_empty (firstn (Z.to_nat BUFFER_SIZE) (unread s))) eqn:E.
  - intros [= <- <-]. cbn [s_env s_sock log s_fs s_now]. repeat split.
    exists [], (unread s). rewrite app_nil_r. repeat split.
    intros _. apply first_chunk_empty, E.
  - destruct (sendall _ (s_sock s)) as [x sock'] eqn:S.
    destruct (sendall_any _ _ _ _ S) as (Hp & written & rest & Hw & Hd & Hr).
    assert (Stop : forall e1 n1,
               peername sock' = peername (s_sock s)
               /\ s_fs e1 = s_fs (s_env s) -> s_now e1 = s_now (s_env s) ->
               forall rr, rr <> None ->
               Some (rr, {| unread := skipn (Z.to_nat BUFFER_SIZE) (unread s);
                            s_sock := sock'; s_env := e1; sent_bytes := n1 |}) = Some (r, s') ->
               peername (s_sock s') = peername (s_sock s)
               /\ s_fs (s_env s') = s_fs (s_env s)
               /\ s_now (s_env s') = s_now (s_env s)
               /\ exists written rest,
                    wire (s_sock s') = wire (s_sock s) ++ written
                    /\ unread s = written ++ rest
                    /\ (r = None -> rest = [])).
    { intros e1 n1 [H1 H2] H3 rr Hrr [= <- <-]. cbn [s_sock s_env].
      split; [exact H1|]. split; [exact H2|]. split; [exact H3|].
      exists written, (rest ++ skipn (Z.to_nat BUFFER_SIZE) (unread s)).
      split; [exact Hw|]. split; [|contradiction].
      rewrite app_assoc, <- Hd. symmetry. apply firstn_skipn. }
    destruct x as [x|].
    { eapply Stop; [split; [exact Hp | reflexivity] | reflexivity | discriminate]. }
    specialize (Hr eq_refl). subst rest. rewrite app_nil_r in Hd. subst written.
    assert (Go : forall e1 n1,
               s_fs e1 = s_fs (s_env s) -> s_now e1 = s_now (s_env s) ->
               ServerNew.send_loop fuel cb fsz
                 {| unread := skipn (Z.to_nat BUFFER_SIZE) (unread s);
                    s_sock := sock'; s_env := e1; sent_bytes := n1 |} = Some (r, s') ->
               peername (s_sock s') = peername (s_sock s)
               /\ s_fs (s_env s') = s_fs (s_env s)
               /\ s_now (s_env s') = s_now (s_env s)
               /\ exists written rest,
                    wire (s_sock s') = wire (s_sock s) ++ written
                    /\ unread s = written ++ rest
                    /\ (r = None -> rest = [])).
    { intros e1 n1 H2 H3 L. destruct (IH _ L) as (P1 & P2 & P3 & w1 & r1 & Q1 & Q2 & Q3).
      cbn [s_sock s_env unread] in *.
      split; [congruence|]. split; [congruence|]. split; [congruence|].
      exists (firstn (Z.to_nat BUFFER_SIZE) (unread s) ++ w1), r1.
      split; [rewrite Q1, Hw, app_assoc; reflexivity|].
      split; [|exact Q3].
      rewrite <- app_assoc, <- Q2. symmetry. apply firstn_skipn. }
    destruct cb.
    + destruct (py_percent _ fsz) as [x|percent].
      * eapply Stop; [split; [exact Hp | reflexivity] | reflexivity | discriminate].
      * apply Go; reflexivity.
    + apply Go; reflexivity.
Qed.


(** X11.  Whatever the transport does and however the call ends,
    [send_file] of [file_server_new.py] puts on the stream a start of the
    header line followed by the content of the file, and never anything
    else; all of it when it returns [True]; and nothing at all when the file
    does not exist. *)
Theorem new_send_file_sends_a_start_of_the_file :
  forall (server : ServerNew.FileServer) (sock : peer) (file_path : string) (cb : bool)
         (e : server_env),
    match ServerNew.send_file server sock file_path cb e with
    | Some (b, _, sock', e') =>
      match s_fs e file_path with
      | Some content =>
        exists written rest,
          wire sock' = wire sock ++ written
          /\ ServerNew.encode_header (basename file_path) (len content) ++ content
             = written ++ rest
          /\ (b = true -> rest = [])
      | None => b = false /\ wire sock' = wire sock /\ s_trace e' = s_trace e
      end
    | None => False
    end.
Proof.
  intros server sock file_path cb e.
  unfold ServerNew.send_file, ServerNew.try_body.
  destruct (s_fs e file_path) as [content|] eqn:Hf; cbv zeta.
  2:{ repeat split. }
  destruct (sendall _ sock) as [[x|] sock1] eqn:S;
    destruct (sendall_any _ _ _ _ S) as (_ & w1 & r1 & Hw & Hd & Hr).
  { exists w1, (r1 ++ content). split; [exact Hw|].
    split; [rewrite app_assoc, <- Hd; reflexivity | discriminate]. }
  specialize (Hr eq_refl). subst r1. rewrite app_nil_r in Hd. subst w1.
  match goal with
  | |- context [ServerNew.send_loop ?f ?c ?z ?s0] =>
    destruct (new_send_loop_total f c z s0 ltac:(cbn [unread]; lia)) as [[r s'] L];
    rewrite L; destruct (new_send_loop_any _ _ _ _ _ _ L)
      as (_ & _ & _ & w2 & r2 & Hw2 & Hd2 & Hr2)
  end.
  cbn [s_sock unread] in Hw2, Hd2.
  destruct r as [x|];
    exists (ServerNew.encode_header (basename file_path) (len content) ++ w2), r2;
    (split; [rewrite Hw2, Hw, app_assoc; reflexivity|]);
    (split; [rewrite <- app_assoc, <- Hd2; reflexivity|]).
  - discriminate.
  - intros _. apply Hr2. reflexivity.
Qed.

(** The sending loop of [flet_server.py], however it ends: the stream got
    no more than the unread bytes; when the loop ended by itself the count
    has reached the size, whatever the transport took; it ends by itself
    when the transport does not fail. *)
Lemma flet_send_loop_any fuel fsz s r s' :
  sent_bytes s + len (unread s) = fsz ->
  FletServer.send_loop fuel fsz s = Some (r, s') ->
  len (wire (s_sock s')) <= len (wire (s_sock s)) + len (unread s)
  /\ s_now (s_env s') = s_now (s_env s)
  /\ (r = None -> sent_bytes s' = fsz)
  /\ (no_fault (capacity (s_sock s)) = true -> r = None).
Proof.
  revert s. induction fuel as [|fuel IH]; intros s Hi; cbn [FletServer.send_loop].
  - destruct (sent_bytes s <? fsz) eqn:C; [discriminate|]. apply Z.ltb_ge in C.
    intros [= <- <-]. pose proof (len_nonneg (unread s)). repeat split; lia.
  - destruct (sent_bytes s <? fsz) eqn:C.
    2:{ apply Z.ltb_ge in C. intros [= <- <-]. pose proof (len_nonneg (unread s)).
        repeat split; lia. }
    cbv zeta. destruct (is_empty (firstn (Z.to_nat BUFFER_SIZE) (unread s))) eqn:E.
    + intros [= <- <-]. cbn [s_sock s_env log s_now sent_bytes].
      pose proof (len_nonneg (unread s)) as Hl.
      rewrite (first_chunk_empty _ E) in Hi. cbn in Hi.
      split; [lia|]. split; [reflexivity|]. split; [intros _; lia | reflexivity].
    + assert (Hs : len (unread s)
                   = len (firstn (Z.to_nat BUFFER_SIZE) (unread s))
                     + len (skipn (Z.to_nat BUFFER_SIZE) (unread s))).
      { rewrite <- len_app, firstn_skipn. reflexivity. }
      unfold send. destruct (capacity (s_sock s)) as [|[k|msg] c] eqn:Hc.
      * intros L. apply IH in L; [|cbn [sent_bytes unread]; lia].
        cbn [s_sock s_env log s_now sent_bytes unread wire capacity] in L.
        destruct L as (L1 & L2 & L3 & L4). rewrite len_app in L1.
        split; [lia|]. split; [exact L2|]. split; [exact L3|]. intros _. apply L4. reflexivity.
      * intros L. apply IH in L; [|cbn [sent_bytes unread]; lia].
        cbn [s_sock s_env log s_now sent_bytes unread wire capacity] in L.
        destruct L as (L1 & L2 & L3 & L4). rewrite len_app in L1.
        assert (len (firstn k (firstn (Z.to_nat BUFFER_SIZE) (unread s)))
                <= len (firstn (Z.to_nat BUFFER_SIZE) (unread s))).
        { unfold len. rewrite (length_firstn k). lia. }
        split; [lia|]. split; [exact L2|]. split; [exact L3|].
        cbn [no_fault forallb andb]. exact L4.
      * intros [= <- <-]. cbn [s_sock s_env log s_now sent_bytes unread wire capacity].
        pose proof (len_nonneg (unread s)).
        split; [lia|]. split; [reflexivity|]. split; discriminate.
Qed.

(** X12.  [_send_file] of [flet_server.py] counts what it offers, not
    what the transport takes: it never raises and appends one record per
    call; when the file exists and the transport does not fail it returns
    [True] and records [Complete] with the size of the file, although the
    stream may have got less than the header and the content, never more;
    when it fails the record has size [0]; a file that does not exist
    sends nothing. *)
Theorem flet_send_file_counts_what_it_offers :
  forall (server : FletServer.FileServer) (sock : peer) (file_path : string)
         (client_info : string) (e : server_env),
    match FletServer._send_file server sock file_path client_info e with
    | Some (b, server', sock', e') =>
      exists nm st sz,
        FletServer.transfer_history server' =
        FletServer.transfer_history server
        ++ [{| FletServer.tr_timestamp := s_now e;
               FletServer.tr_file_name := nm;
               FletServer.tr_size := sz;
               FletServer.tr_client := client_info;
               FletServer.tr_status := st |}]
        /\ match s_fs e file_path with
           | Some content =>
             len (wire sock')
             <= len (wire sock)
                + len (FletServer.encode_header (basename file_path) (len content))
                + len content
             /\ (no_fault (capacity sock) = true -> b = true)
             /\ (if b then st = "Complete" /\ sz = len content /\ nm = basename file_path
                 else (exists x, st = ("Failed: " ++ text x)%string) /\ sz = 0)
           | None =>
             b = false /\ wire sock' = wire sock /\ s_trace e' = s_trace e
             /\ st = ("Failed: " ++ text (no_such_file file_path))%string /\ sz = 0
           end
    | None => False
    end.
Proof.
  intros server sock file_path client_info e.
  unfold FletServer._send_file. cbv zeta.
  destruct (s_fs e file_path) as [content|] eqn:Hf.
  2:{ do 3 eexists. split; [reflexivity|]. repeat split. }
  set (line := FletServer.encode_header (basename file_path) (len content)).
  destruct (send line sock) as [[x|n] sock1] eqn:S.
  - assert (K : wire sock1 = wire sock /\ no_fault (capacity sock) = false).
    { unfold send in S. destruct (capacity sock) as [|[k|msg] c]; try discriminate S.
      injection S as _ <-. split; reflexivity. }
    destruct K as [K1 K2].
    do 3 eexists. cbn [FletServer.add FletServer.transfer_history s_now log].
    split; [reflexivity|]. rewrite K1, K2.
    pose proof (len_nonneg line). pose proof (len_nonneg content).
    split; [lia|]. split; [discriminate|]. split; [eexists; reflexivity | reflexivity].
  - assert (K : len (wire sock1) <= len (wire sock) + len line
                /\ (no_fault (capacity sock) = true -> no_fault (capacity sock1) = true)).
    { unfold send in S. destruct (capacity sock) as [|[k|msg] c]; try discriminate S;
        injection S as _ <-; cbn [wire capacity]; rewrite len_app.
      - split; [lia | reflexivity].
      - split; [|cbn [no_fault forallb andb]; intros H; exact H].
        unfold len. rewrite length_firstn. lia. }
    destruct K as [K1 K2].
    match goal with
    | |- context [FletServer.send_loop ?f ?z ?s0] =>
      destruct (flet_send_loop_total f z s0 ltac:(cbn [unread]; lia)) as [[r s'] L];
      rewrite L; destruct (flet_send_loop_any f z s0 r s') as (A1 & A2 & A3 & A4);
      [cbn [sent_bytes unread]; lia | exact L |]
    end.
    cbn [s_sock s_env log s_now unread] in A1, A2, A4.
    destruct r as [x|].
    + do 3 eexists. cbn [FletServer.add FletServer.transfer_history].
      rewrite A2. split; [reflexivity|].
      split; [lia|]. split.
      * intros H. specialize (A4 (K2 H)). discriminate A4.
      * split; [eexists; reflexivity | reflexivity].
    + do 3 eexists. cbn [FletServer.add FletServer.transfer_history].
      rewrite A2. split; [reflexivity|].
      split; [lia|]. split; [reflexivity|].
      split; [|split; reflexivity].
      unfold FletServer.final_status. rewrite (A3 eq_refl), Z.leb_refl. reflexivity.
Qed.

(** X13.  An empty file: [send_file] of [file_server_new.py] sends the
    header line with size [0], reads once, finds nothing and returns [True];
    the callback, given or not, is never called, so that the percentage,
    which would divide by the size, is never computed.  [_send_file] of
    [flet_server.py] sends the header line and does not read at all. *)
Theorem empty_file_sends_the_header_only :
  forall (file_path : string) (e : server_env) (sock : peer),
    s_fs e file_path = Some [] ->
    (forall server cb,
        no_fault (capacity sock) = true ->
        exists server' sock' e',
          ServerNew.send_file server sock file_path cb e = Some (true, server', sock', e')
          /\ s_trace e' = s_trace e
                          ++ [Sent (ServerNew.encode_header (basename file_path) 0);
                              ReadChunk []]
          /\ wire sock' = wire sock ++ ServerNew.encode_header (basename file_path) 0)
    /\ (forall server client_info,
        capacity sock = [] ->
        exists server' sock' e',
          FletServer._send_file server sock file_path client_info e
            = Some (true, server', sock', e')
          /\ s_trace e' = s_trace e
                          ++ [Sent (FletServer.encode_header (basename file_path) 0)]
          /\ wire sock' = wire sock ++ FletServer.encode_header (basename file_path) 0).
Proof.
  intros file_path e sock Hf. split.
  - intros server cb Hn.
    unfold ServerNew.send_file, ServerNew.try_body. rewrite Hf. cbv zeta.
    change (len (@nil byte)) with 0.
    destruct (sendall_no_fault (ServerNew.encode_header (basename file_path) 0) sock Hn)
      as (sock1 & S & _).
    rewrite S. destruct (sendall_wire _ _ _ S) as (Hw & Hk & _). rewrite Hk.
    cbn [ServerNew.send_loop List.length unread firstn skipn is_empty s_sock s_env
         Z.to_nat BUFFER_SIZE Pos.to_nat Pos.iter_op].
    do 3 eexists. split; [reflexivity|]. cbn [log s_trace s_env s_sock].
    split; [rewrite firstn_nil, <- app_assoc; reflexivity | exact Hw].
  - intros server client_info Hcap.
    unfold FletServer._send_file. rewrite Hf. cbv zeta.
    change (len (@nil byte)) with 0.
    unfold send. rewrite Hcap. cbn [FletServer.send_loop sent_bytes Z.ltb Z.compare].
    do 3 eexists. split; [reflexivity|]. cbn [s_env s_sock log s_trace wire].
    rewrite skipn_app, skipn_all, Nat.sub_diag. cbn [skipn]. rewrite app_nil_l.
    split; reflexivity.
Qed.

Lemma empty_file_sends_the_header_only_witness :
  exists server' sock' e',
    ServerNew.send_file no_transfers (open_peer [TxAccept 3]) "empty.txt" true
      {| s_fs := set_file no_files "empty.txt" []; s_now := "2024-05-01 12:00:00";
         s_trace := [] |}
    = Some (true, server', sock', e')
    /\ s_trace e' = [Sent (encode "empty.txt|0" ++ [newline]); ReadChunk []]
    /\ wire sock' = encode "empty.txt|0" ++ [newline].
Proof.
  exact (proj1 (empty_file_sends_the_header_only "empty.txt"
                  {| s_fs := set_file no_files "empty.txt" [];
                     s_now := "2024-05-01 12:00:00"; s_trace := [] |}
                  (open_peer [TxAccept 3]) eq_refl)
           no_transfers true eq_refl).
Defined.

(** ** Malformed headers *)

Lemma decode_error_kind data e : decode data = inl e -> is_value_error e = true.
Proof. unfold decode. destruct (utf8_valid data); [discriminate|]. intros [= <-]. reflexivity. Qed.

Lemma new_decode_header_error hd e :
  ClientNew.decode_header hd = inl e ->
  is_value_error e = true
  /\ (e = ClientNew.invalid_header \/ kind e = UnicodeDecodeError).
Proof.
  unfold ClientNew.decode_header.
  destruct (decode _) as [x|line] eqn:D.
  - intros [= <-]. split; [exact (decode_error_kind _ _ D)|]. right.
    unfold decode in D. destruct (utf8_valid _); [discriminate|]. injection D as <-. reflexivity.
  - unfold ClientNew.parse_header.
    destruct (split "|" line) as [|f1 [|f2 [|f3 [|f4 fs]]]];
      try (intros [= <-]; split; [reflexivity | left; reflexivity]).
    destruct (py_int f2); [discriminate|].
    intros [= <-]. split; [reflexivity | left; reflexivity].
Qed.

Lemma flet_decode_header_error hd e :
  FletClient.decode_header hd = inl e -> is_value_error e = true.
Proof.
  unfold FletClient.decode_header.
  destruct (decode _) as [x|line] eqn:D.
  - intros [= <-]. exact (decode_error_kind _ _ D).
  - unfold FletClient.parse_header.
    destruct (split "|" line) as [|f1 [|f2 [|f3 fs]]];
      try (intros [= <-]; reflexivity).
    destruct (py_int f2); [discriminate|]. intros [= <-]. reflexivity.
Qed.

(** X14.  A header line that does not decode or parse: both clients
    raise a [ValueError] (for bytes that are no UTF-8, its subclass
    [UnicodeDecodeError]); [file_client_new.py] gives every parse error the
    text [Invalid file header format].  The error is recorded under the
    path as given and the world is as before: the destination is neither
    created nor truncated. *)
Theorem malformed_header_is_a_value_error :
  forall (client : FileClient) (dest : string) (cb : bool) (w : world) (s : socket_obj)
         (header_data : bytes) (q : list event) (e : exn),
    connected client = true ->
    socket client = Some s ->
    (FletClient.read_header (inbox s) = Some (inr header_data, q) ->
     FletClient.decode_header header_data = inl e ->
     FletClient.receive_file client dest cb w
     = Some (Raises e, with_record (with_inbox client q) (failed_record w dest e), w)
     /\ is_value_error e = true)
    /\ (ClientNew.read_header 0 (inbox s) = Some (ClientNew.HeaderRead header_data, q) ->
        ClientNew.decode_header header_data = inl e ->
        ClientNew.receive_file client dest cb w
        = Some (Raises e, with_record (with_inbox client q) (failed_record w dest e), w)
        /\ is_value_error e = true
        /\ (e = ClientNew.invalid_header \/ kind e = UnicodeDecodeError)).
Proof.
  intros client dest cb w s hd q e Hc Hs. split.
  - intros RH DH. split; [|exact (flet_decode_header_error _ _ DH)].
    unfold FletClient.receive_file, FletClient.try_body. rewrite Hc, Hs, RH, DH. reflexivity.
  - intros RH DH. split; [exact (new_receive_decode_failure _ _ _ _ _ _ _ _ Hc Hs RH DH)|].
    exact (new_decode_header_error _ _ DH).
Qed.

Lemma malformed_header_is_a_value_error_witness :
  (exists e,
      FletClient.receive_file (client_on [Data (encode "onlyonefield" ++ [newline])])
        "out" true w0
      = Some (Raises e,
              with_record (with_inbox (client_on [Data (encode "onlyonefield" ++ [newline])]) [])
                (failed_record w0 "out" e), w0)
      /\ is_value_error e = true)
  /\ ClientNew.receive_file (client_on [Data (encode "name|notanumber|.txt" ++ [newline])])
       "out" true w0
     = Some (Raises ClientNew.invalid_header,
             with_record
               (with_inbox (client_on [Data (encode "name|notanumber|.txt" ++ [newline])]) [])
               (failed_record w0 "out" ClientNew.invalid_header), w0).
Proof.
  split.
  - eexists.
    exact (proj1 (malformed_header_is_a_value_error
                    (client_on [Data (encode "onlyonefield" ++ [newline])]) "out" true w0
                    {| sockname := ("127.0.0.1", 50000);
                       inbox := [Data (encode "onlyonefield" ++ [newline])] |}
                    (encode "onlyonefield" ++ [newline]) [] _ eq_refl eq_refl)
             eq_refl eq_refl).
  - exact (proj1 (proj2 (malformed_header_is_a_value_error
                    (client_on [Data (encode "name|notanumber|.txt" ++ [newline])])
                    "out" true w0
                    {| sockname := ("127.0.0.1", 50000);
                       inbox := [Data (encode "name|notanumber|.txt" ++ [newline])] |}
                    (encode "name|notanumber|.txt" ++ [newline]) []
                    ClientNew.invalid_header eq_refl eq_refl)
             eq_refl eq_refl)).
Defined.

(** * Connecting, disconnecting, listening *)

(** X15.  [disconnect] of either client.  On a client that is not
    connected it does nothing.  When [close] goes through, the flag is
    cleared and the history kept; from then on a second [disconnect] does
    nothing, [receive_file] of either client refuses with
    [ConnectionError("Not connected to server")] without a record, and
    [connect] dials again.  When [close] raises, the error is swallowed and
    the flag stays set: [connect] then refuses, as on any connected
    client. *)
Theorem disconnect_clears_the_flag_unless_close_raises :
  forall (close : socket_obj -> option exn * socket_obj) (client : FileClient),
    (connected client = false -> disconnect close client = client)
    /\ (forall s s',
          connected client = true -> socket client = Some s -> close s = (None, s') ->
          connected (disconnect close client) = false
          /\ download_history (disconnect close client) = download_history client
          /\ disconnect close (disconnect close client) = disconnect close client
          /\ (forall dest cb w,
                ClientNew.receive_file (disconnect close client) dest cb w
                = Some (Raises not_connected, disconnect close client, w)
                /\ FletClient.receive_file (disconnect close client) dest cb w
                   = Some (Raises not_connected, disconnect close client, w))
          /\ (forall host_name port w s2,
                network w host_name port = Some s2 ->
                connect (disconnect close client) host_name port w
                = (true,
                   {| socket := Some s2; connected := true;
                      download_history := download_history client |},
                   with_dial w host_name port)))
    /\ (forall s e s',
          connected client = true -> socket client = Some s -> close s = (Some e, s') ->
          connected (disconnect close client) = true
          /\ download_history (disconnect close client) = download_history client
          /\ forall host_name port w,
               connect (disconnect close client) host_name port w
               = (false, disconnect close client, w)).
Proof.
  intros close client. split; [|split].
  - intros Hc. unfold disconnect. rewrite Hc. reflexivity.
  - intros s s' Hc Hs Hcl.
    assert (E : disconnect close client
                = {| socket := Some s'; connected := false;
                     download_history := download_history client |}).
    { unfold disconnect. rewrite Hc, Hs, Hcl. reflexivity. }
    rewrite E. split; [reflexivity|]. split; [reflexivity|]. split; [reflexivity|].
    split.
    + intros dest cb w. split; reflexivity.
    + intros host_name port w s2 Hn. unfold connect. cbn [connected download_history].
      rewrite Hn. reflexivity.
  - intros s e s' Hc Hs Hcl.
    assert (E : disconnect close client
                = {| socket := Some s'; connected := true;
                     download_history := download_history client |}).
    { unfold disconnect. rewrite Hc, Hs, Hcl. reflexivity. }
    rewrite E. split; [reflexivity|]. split; [reflexivity|].
    intros host_name port w. reflexivity.
Qed.

Lemma disconnect_clears_the_flag_unless_close_raises_witness :
  connected (disconnect closes (client_on dropped_after_1000)) = false
  /\ ClientNew.receive_file (disconnect closes (client_on dropped_after_1000)) "out" true w0
     = Some (Raises not_connected, disconnect closes (client_on dropped_after_1000), w0)
  /\ connected (disconnect close_fails (client_on dropped_after_1000)) = true
  /\ connect (disconnect close_fails (client_on dropped_after_1000)) "127.0.0.1" 12345 w0
     = (false, disconnect close_fails (client_on dropped_after_1000), w0).
Proof.
  destruct (disconnect_clears_the_flag_unless_close_raises closes
              (client_on dropped_after_1000)) as (_ & Hok & _).
  destruct (Hok {| sockname := ("127.0.0.1", 50000); inbox := dropped_after_1000 |}
              {| sockname := ("127.0.0.1", 50000); inbox := [] |} eq_refl eq_refl eq_refl)
    as (H1 & _ & _ & H2 & _).
  destruct (disconnect_clears_the_flag_unless_close_raises close_fails
              (client_on dropped_after_1000)) as (_ & _ & Hbad).
  destruct (Hbad {| sockname := ("127.0.0.1", 50000); inbox := dropped_after_1000 |}
              (Raise OSError "[Errno 5] Input/output error")
              {| sockname := ("127.0.0.1", 50000); inbox := dropped_after_1000 |}
              eq_refl eq_refl eq_refl) as (H3 & _ & H4).
  split; [exact H1|]. split; [exact (proj1 (H2 "out" true w0))|].
  split; [exact H3 | exact (H4 "127.0.0.1" 12345 w0)].
Defined.

(** X16.  [start] and [stop] of [file_server_new.py].  A running server
    refuses [start] and stays as it is; a stopped one ignores [stop].
    [start] on a stopped server binds: when that fails it returns [False]
    and the server is still stopped; when it goes through it returns
    [True], the flag is set and one listening thread is started, and the
    clients and the history are kept.  [stop] on a running server clears
    the flag, closes every client and then the listening socket, forgets the
    clients and keeps the history; after it [start] binds again. *)
Theorem file_server_new_starts_once_and_stops_once :
  forall (self : ListenNew.FileServer) (host_name : string) (port : Z) (os : host),
    (ListenNew.is_running self = true ->
       ListenNew.start self host_name port os = (false, self, os)
       /\ exists self' os',
            ListenNew.stop self os = (self', os')
            /\ ListenNew.is_running self' = false
            /\ ListenNew.connected_clients self' = []
            /\ ListenNew.transfer_history self' = ListenNew.transfer_history self
            /\ closed os' = closed os ++ map peername (ListenNew.connected_clients self)
                            ++ match ListenNew.server_socket self with
                               | Some l => [address l]
                               | None => []
                               end
            /\ started os' = started os
            /\ ListenNew.stop self' os' = (self', os')
            /\ (fst (fst (ListenNew.start self' host_name port os')) = true
                <-> listen_at os host_name port <> None))
    /\ (ListenNew.is_running self = false ->
        ListenNew.stop self os = (self, os)
        /\ exists ok self' os',
             ListenNew.start self host_name port os = (ok, self', os')
             /\ ListenNew.is_running self' = ok
             /\ (ok = true <-> listen_at os host_name port <> None)
             /\ ListenNew.server_socket self'
                = Some (match listen_at os host_name port with
                        | Some l => l
                        | None => unbound_socket
                        end)
             /\ ListenNew.connected_clients self' = ListenNew.connected_clients self
             /\ ListenNew.transfer_history self' = ListenNew.transfer_history self
             /\ started os' = started os ++ (if ok then [(host_name, port)] else [])
             /\ closed os' = closed os
             /\ (ok = true -> ListenNew.start self' host_name port os' = (false, self', os'))).
Proof.
  intros self host_name port os. split.
  - intros Hr. split; [unfold ListenNew.start; rewrite Hr; reflexivity|].
    unfold ListenNew.stop. rewrite Hr. cbn [negb]. do 2 eexists.
    split; [reflexivity|]. cbn. repeat split.
    + destruct (listen_at os host_name port); [discriminate | intros H; discriminate H].
    + intros H. destruct (listen_at os host_name port); [reflexivity | contradiction].
  - intros Hr. split; [unfold ListenNew.stop; rewrite Hr; reflexivity|].
    unfold ListenNew.start. rewrite Hr.
    destruct (listen_at os host_name port) as [l|] eqn:L.
    + do 3 eexists. split; [reflexivity|]. cbn. repeat split; try discriminate.
    + do 3 eexists. split; [reflexivity|]. cbn. rewrite app_nil_r.
      repeat split; try discriminate. intros H. contradiction.
Qed.

Lemma file_server_new_starts_once_and_stops_once_witness :
  exists ok self' os',
    ListenNew.start ListenNew.new_server "127.0.0.1" 12345 free_host = (ok, self', os')
    /\ ListenNew.is_running self' = ok
    /\ (ok = true <-> listen_at free_host "127.0.0.1" 12345 <> None)
    /\ (ok = true -> ListenNew.start self' "127.0.0.1" 12345 os' = (false, self', os')).
Proof.
  destruct (proj2 (file_server_new_starts_once_and_stops_once ListenNew.new_server
                     "127.0.0.1" 12345 free_host) eq_refl)
    as (_ & ok & self' & os' & H1 & H2 & H3 & _ & _ & _ & _ & _ & H4).
  exists ok, self', os'. repeat split; try assumption; apply H3.
Defined.

Lemma accept_loop_keeps callback todo clients calls :
  exists accepted later,
    arriving todo = accepted ++ later
    /\ ListenNew.kept (ListenNew.accept_loop callback todo clients calls)
       = clients ++ accepted
    /\ ListenNew.announced (ListenNew.accept_loop callback todo clients calls)
       = calls ++ match callback with
                  | Some _ => map client_addr accepted
                  | None => []
                  end
    /\ (never_raises callback -> later = []).
Proof.
  revert clients calls. induction todo as [|[client|msg] rest IH]; intros clients calls.
  - exists [], []. destruct callback; cbn; rewrite !app_nil_r; repeat split; intros; reflexivity.
  - cbn [ListenNew.accept_loop arriving]. destruct callback as [f|].
    + destruct (f (client_addr client)) eqn:F.
      * exists [client], (arriving rest). cbn. repeat split.
        intros H. rewrite H in F. discriminate F.
      * destruct (IH (clients ++ [client]) (calls ++ [client_addr client]))
          as (acc & later & A & K & C & N).
        exists (client :: acc), later. rewrite A, K, C, <- !app_assoc. repeat split.
        exact N.
    + destruct (IH (clients ++ [client]) calls) as (acc & later & A & K & C & N).
      exists (client :: acc), later. rewrite A, K, C, <- !app_assoc. repeat split.
      exact N.
  - exists [], []. destruct callback; cbn; rewrite !app_nil_r; repeat split; intros; reflexivity.
Qed.

(** X17.  [_listen_for_clients] of [file_server_new.py] on a running
    server: the clients accepted are appended to [connected_clients] in the
    order of arrival, none is ever removed, and the callback, when there is
    one, is called once for each of them with its [host:port], in that
    order.  The loop goes on until [accept] fails or the callback raises:
    with a callback that does not raise, every connection that arrives
    before [accept] fails is kept. *)
Theorem listening_keeps_the_clients_in_order :
  forall (self : ListenNew.FileServer) (callback : option (string -> option exn))
         (l : listener),
    ListenNew.is_running self = true ->
    ListenNew.server_socket self = Some l ->
    exists accepted later,
      arriving (arrivals l) = accepted ++ later
      /\ ListenNew.connected_clients (fst (ListenNew._listen_for_clients self callback))
         = ListenNew.connected_clients self ++ accepted
      /\ snd (ListenNew._listen_for_clients self callback)
         = match callback with
           | Some _ => map client_addr accepted
           | None => []
           end
      /\ ListenNew.is_running (fst (ListenNew._listen_for_clients self callback)) = true
      /\ ListenNew.transfer_history (fst (ListenNew._listen_for_clients self callback))
         = ListenNew.transfer_history self
      /\ (never_raises callback -> later = []).
Proof.
  intros self callback l Hr Hs.
  unfold ListenNew._listen_for_clients. rewrite Hr, Hs. cbn [negb fst snd].
  destruct (accept_loop_keeps callback (arrivals l) (ListenNew.connected_clients self) [])
    as (acc & later & A & K & C & N).
  exists acc, later. cbn [ListenNew.connected_clients ListenNew.is_running
                          ListenNew.transfer_history].
  rewrite K, C. repeat split; assumption.
Qed.

Lemma listening_keeps_the_clients_in_order_witness :
  exists self' os',
    ListenNew.start ListenNew.new_server "127.0.0.1" 12345 free_host = (true, self', os')
    /\ ListenNew.connected_clients
         (fst (ListenNew._listen_for_clients self' (Some (fun _ => None))))
       = arriving two_callers
    /\ snd (ListenNew._listen_for_clients self' (Some (fun _ => None)))
       = ["10.0.0.1:40001"; "10.0.0.2:40002"].
Proof.
  do 2 eexists. split; [reflexivity|].
  match goal with
  | |- context [ListenNew._listen_for_clients ?s ?c] =>
    destruct (listening_keeps_the_clients_in_order s c
                {| address := ("127.0.0.1", 12345); arrivals := two_callers |}
                eq_refl eq_refl) as (acc & later & A & K & C & _ & _ & N)
  end.
  specialize (N (fun _ => eq_refl)). subst later. rewrite app_nil_r in A. subst acc.
  split; [exact K | exact C].
Defined.

(** X18.  [start] and [stop] of [flet_server.py] have no guard.  [start]
    binds whether the server runs or not: on success the flag is set and
    the listening socket replaced; on failure it returns [False] and the
    flag stays as it was, so that a server that was running still counts as
    running, with a socket that is not bound.  [stop] always clears the
    flag, closes the listening socket and then every client, and forgets
    the clients; the selected file and the history are kept by both. *)
Theorem flet_server_start_and_stop_are_unguarded :
  forall (self : ListenFlet.FileServer) (host_name : string) (port : Z) (os : host),
    (exists ok self',
        ListenFlet.start self host_name port os = (ok, self')
        /\ (ok = true <-> listen_at os host_name port <> None)
        /\ ListenFlet.running self' = (ok || ListenFlet.running self)%bool
        /\ ListenFlet.server_socket self'
           = Some (match listen_at os host_name port with
                   | Some l => l
                   | None => unbound_socket
                   end)
        /\ ListenFlet.clients self' = ListenFlet.clients self
        /\ ListenFlet.selected_file self' = ListenFlet.selected_file self
        /\ ListenFlet.transfer_history self' = ListenFlet.transfer_history self)
    /\ (exists self' os',
        ListenFlet.stop self os = (self', os')
        /\ ListenFlet.running self' = false
        /\ ListenFlet.clients self' = []
        /\ ListenFlet.selected_file self' = ListenFlet.selected_file self
        /\ ListenFlet.transfer_history self' = ListenFlet.transfer_history self
        /\ closed os' = closed os
                        ++ match ListenFlet.server_socket self with
                           | Some l => [address l]
                           | None => []
                           end
                        ++ map peername (ListenFlet.clients self)
        /\ fst (ListenFlet.stop self' os') = self').
Proof.
  intros self host_name port os. split.
  - unfold ListenFlet.start. destruct (listen_at os host_name port) as [l|].
    + do 2 eexists. split; [reflexivity|]. cbn. repeat split; discriminate.
    + do 2 eexists. split; [reflexivity|]. cbn. repeat split; try discriminate.
      intros H. contradiction.
  - unfold ListenFlet.stop. do 2 eexists. split; [reflexivity|]. cbn. repeat split.
Qed.

(** ** What a failed transfer leaves behind *)

Lemma py_percent_error a b e : py_percent a b = inl e -> is_socket_error e = false.
Proof.
  unfold py_percent. destruct (b =? 0); [intros [= <-]; reflexivity|].
  destruct (true_div a b); try (intros [= <-]; reflexivity);
    unfold int_of_float; destruct (SFmul _ _ _ _); intros [= <-]; reflexivity.
Qed.

Lemma flet_take_chunk_error cb p fsz chunk q' t t' e :
  FletClient.take_chunk cb p fsz chunk q' t = (t', Some e) -> is_socket_error e = false.
Proof.
  unfold FletClient.take_chunk. destruct (pop_tick _) as [due w2].
  destruct (cb && due)%bool; [|discriminate].
  destruct (py_percent _ _) eqn:P; [|discriminate].
  intros [= _ <-]. exact (py_percent_error _ _ _ P).
Qed.

Lemma new_take_chunk_error cb p fsz chunk q' t t' e :
  ClientNew.take_chunk cb p fsz chunk q' t = (t', Some e) -> is_socket_error e = false.
Proof.
  unfold ClientNew.take_chunk. destruct (pop_tick _) as [due w2].
  destruct (cb && due)%bool; [|discriminate].
  destruct (py_percent _ _) eqn:P; [|discriminate].
  intros [= _ <-]. exact (py_percent_error _ _ _ P).
Qed.

(** An error of the transport leaves the payload loop of [flet_client.py]
    short of the size. *)
Lemma flet_payload_loop_fault fuel cb p fsz t e t' :
  FletClient.payload_loop fuel cb p fsz t = Some (Some e, t') ->
  FletClient.received_bytes t < fsz
  /\ (is_socket_error e = true -> FletClient.received_bytes t' < fsz).
Proof.
  revert t. induction fuel as [|fuel IH]; intros t; cbn [FletClient.payload_loop].
  - destruct (FletClient.received_bytes t <? fsz); discriminate.
  - destruct (FletClient.received_bytes t <? fsz) eqn:C; [|discriminate].
    apply Z.ltb_lt in C. unfold FletClient.payload_turn.
    destruct (recv _ (FletClient.t_inbox t)) as [[x|chunk] q'] eqn:R.
    + intros [= <- <-]. split; [exact C | intros _; exact C].
    + destruct (is_empty chunk); [discriminate|].
      destruct (FletClient.take_chunk cb p fsz chunk q' t) as [t1 [x|]] eqn:T.
      * intros [= <- <-]. split; [exact C|].
        rewrite (flet_take_chunk_error _ _ _ _ _ _ _ _ T). discriminate.
      * intros H. split; [exact C | exact (proj2 (IH _ H))].
Qed.

(** In the first attempts of [file_client_new.py] the payload loop is left
    by an exception only for an error of the percentage. *)
Lemma new_payload_loop_raise fuel attempt cb p fsz t e t' :
  attempt < ClientNew.MAX_RETRIES - 1 ->
  ClientNew.payload_loop fuel attempt cb p fsz t = Some (ClientNew.PayloadRaise e, t') ->
  ClientNew.received_bytes t < fsz /\ is_socket_error e = false.
Proof.
  intros A. apply Z.ltb_lt in A.
  revert t. induction fuel as [|fuel IH]; intros t; cbn [ClientNew.payload_loop].
  - destruct (ClientNew.received_bytes t <? fsz); discriminate.
  - destruct (ClientNew.received_bytes t <? fsz) eqn:C; [|discriminate].
    apply Z.ltb_lt in C. unfold ClientNew.payload_turn, ClientNew.payload_handler.
    rewrite A.
    destruct (recv _ (ClientNew.t_inbox t)) as [[x|chunk] q'] eqn:R; [discriminate|].
    destruct (is_empty chunk); [discriminate|].
    destruct (ClientNew.take_chunk cb p fsz chunk q' t) as [t1 [x|]] eqn:T.
    + intros [= <- <-]. split; [exact C|]. exact (new_take_chunk_error _ _ _ _ _ _ _ _ T).
    + intros H. split; [exact C | exact (proj2 (IH _ H))].
Qed.

(** X19.  A call of [receive_file] that raises either failed before the
    header was decoded, and then the world is as before, or failed while
    the payload was read, and then the destination is left in place with
    the bytes written so far: a start of what followed the header line on
    the stream, shorter than the declared size.  Nothing is removed or
    rolled back. *)
Theorem failed_transfer_leaves_the_partial_file :
  forall (client : FileClient) (dest : string) (cb : bool) (w : world) (s : socket_obj)
         (e : exn),
    connected client = true ->
    socket client = Some s ->
    (forall client' w',
        FletClient.receive_file client dest cb w = Some (Raises e, client', w') ->
        w' = w
        \/ exists line h received,
             decode (first_line (incoming (inbox s))) = inr line
             /\ FletClient.parse_header line = inr h
             /\ fs w' dest = Some (slice_to (after_newline (incoming (inbox s))) received)
             /\ 0 <= received <= len (after_newline (incoming (inbox s)))
             /\ received < FletClient.h_size h)
    /\ (forall client' w',
        ClientNew.receive_file client dest cb w = Some (Raises e, client', w') ->
        w' = w
        \/ exists line h received,
             decode (first_line (incoming (inbox s))) = inr line
             /\ ClientNew.parse_header line = inr h
             /\ fs w' (ClientNew.target dest h)
                = Some (slice_to (after_newline (incoming (inbox s))) received)
             /\ 0 <= received <= len (after_newline (incoming (inbox s)))
             /\ received < ClientNew.h_size h).
Proof.
  intros client dest cb w s e Hc Hs. split.
  - intros client' w'.
    unfold FletClient.receive_file, FletClient.try_body. rewrite Hc, Hs. cbn [negb].
    destruct (FletClient.read_header (inbox s)) as [[[x|hd] q]|] eqn:RH; try discriminate.
    { intros [= _ _ <-]. left. reflexivity. }
    destruct (FletClient.decode_header hd) as [x|[h rem]] eqn:DH.
    { intros [= _ _ <-]. left. reflexivity. }
    destruct (FletClient.read_payload cb dest (FletClient.h_size h)
                (FletClient.start w dest q rem)) as [[[x|] t]|] eqn:RP; try discriminate.
    intros [= <- _ <-]. right.
    unfold FletClient.read_header in RH.
    destruct (flet_header_loop_stream _ _ _ _ _ RH) as [I N].
    rewrite app_nil_l in I.
    destruct (flet_decode_header_parts _ _ _ DH) as (line & DL & PH & Erem).
    destruct (first_line_prefix hd (incoming q) N) as [FL AN].
    rewrite I in FL, AN.
    unfold FletClient.read_payload in RP.
    destruct (flet_payload_loop_stream _ _ _ _ _ _ _ RP) as (more & rest & G & IQ & _).
    destruct (flet_payload_loop_fault _ _ _ _ _ _ _ RP) as [L0 Lf].
    pose proof (flet_payload_loop_inv _ cb dest (FletClient.h_size h)
                  (FletClient.start w dest q rem) (Some x) t (Z.lt_le_incl _ _ L0) RP) as B.
    destruct (G rem) as [Gf Gc]; [cbn; apply flet_open_destination|].
    cbn [FletClient.start FletClient.t_inbox] in IQ.
    cbn [FletClient.start FletClient.received_bytes] in Gc, B.
    assert (Hlen : FletClient.received_bytes t = len (rem ++ more)).
    { rewrite Gc, len_app. reflexivity. }
    exists line, h, (FletClient.received_bytes t).
    split; [rewrite FL; exact DL|]. split; [exact PH|].
    split; [rewrite AN, <- Erem, IQ, app_assoc, Hlen, slice_to_at; exact Gf|].
    split.
    { rewrite AN, <- Erem, IQ, Hlen, !len_app.
      pose proof (len_nonneg rem). pose proof (len_nonneg more). pose proof (len_nonneg rest).
      lia. }
    apply Lf. unfold is_socket_error.
    rewrite (flet_payload_loop_errors _ _ _ _ (FletClient.start w dest q rem) _ _
               (len_nonneg rem) RP). reflexivity.
  - intros client' w' R.
    destruct (new_read_header_total 0 (inbox s)) as [[hx q] RH].
    destruct hx as [hd|hd x|x].
    2:{ exfalso. exact (new_first_header_never_breaks _ _ _ _ RH). }
    2:{ rewrite (new_receive_header_failure _ _ _ _ _ _ _ Hc Hs RH) in R.
        injection R as _ _ <-. left. reflexivity. }
    destruct (ClientNew.decode_header hd) as [x|[h rem]] eqn:DH.
    { rewrite (new_receive_decode_failure _ _ _ _ _ _ _ _ Hc Hs RH DH) in R.
      injection R as _ _ <-. left. reflexivity. }
    destruct (new_read_payload_total 0 cb (ClientNew.target dest h) (ClientNew.h_size h)
                (ClientNew.start 0 (first_frame client dest w) q h rem)) as [[px t] RP].
    destruct (new_receive_payload _ _ _ _ _ _ _ _ _ _ _ Hc Hs RH DH RP) as [E Hpx].
    rewrite E in R. clear E. right.
    unfold ClientNew.read_header in RH.
    pose proof (new_header_loop_stream _ _ _ _ _ _ RH) as [I N].
    rewrite app_nil_l in I.
    destruct (new_decode_header_parts _ _ _ DH) as (line & DL & PH & Erem).
    destruct (first_line_prefix hd (incoming q) N) as [FL AN].
    rewrite I in FL, AN.
    unfold ClientNew.read_payload in RP.
    destruct (new_payload_loop_stream _ _ _ _ _ _ _ _ RP) as (more & rest & G & IQ & _).
    destruct (G rem) as [Gf Gc].
    { cbn [ClientNew.start ClientNew.t_world first_frame ClientNew.env ClientNew.save_path
           with_fs fs].
      apply open_destination_wb. reflexivity. }
    cbn [ClientNew.start ClientNew.t_inbox] in IQ.
    cbn [ClientNew.start ClientNew.received_bytes] in Gc.
    assert (Hlen : ClientNew.received_bytes t = len (rem ++ more)).
    { rewrite Gc, len_app. reflexivity. }
    assert (K : ClientNew.received_bytes t < ClientNew.h_size h
                /\ w' = ClientNew.t_world t).
    { destruct px as [|x|x]; try discriminate R; injection R as <- _ <-.
      - split; [exact Hpx | reflexivity].
      - exfalso.
        destruct (new_payload_loop_raise _ 0 _ _ _ _ _ _
                    ltac:(unfold ClientNew.MAX_RETRIES; lia) RP) as [_ Ls].
        pose proof (new_payload_loop_errors _ _ _ _ _
                      (ClientNew.start 0 (first_frame client dest w) q h rem) _ _
                      (len_nonneg rem) RP) as Ke.
        cbn in Ke. unfold is_socket_error in Ls.
        destruct Ke as [->|Ke]; [discriminate Ls | rewrite Ke in Ls; discriminate Ls]. }
    destruct K as (K1 & ->).
    exists line, h, (ClientNew.received_bytes t).
    split; [rewrite FL; exact DL|]. split; [exact PH|].
    split; [rewrite AN, <- Erem, IQ, app_assoc, Hlen, slice_to_at; exact Gf|].
    split.
    { rewrite AN, <- Erem, IQ, Hlen, !len_app.
      pose proof (len_nonneg rem). pose proof (len_nonneg more). pose proof (len_nonneg rest).
      lia. }
    exact K1.
Qed.

Lemma failed_transfer_leaves_the_partial_file_witness :
  observe
    (FletClient.receive_file
       (client_on [Data (encode "a.txt|5" ++ [newline] ++ encode "abc"); Fault "reset"])
       "out.txt" true w0) "out.txt"
  = Some (Raises (Raise OSError "reset"), Some (encode "abc"), [], ["Failed: reset"], [])
  /\ exists client' w',
       FletClient.receive_file
         (client_on [Data (encode "a.txt|5" ++ [newline] ++ encode "abc"); Fault "reset"])
         "out.txt" true w0 = Some (Raises (Raise OSError "reset"), client', w')
       /\ (w' = w0
           \/ exists received,
                fs w' "out.txt"
                = Some (slice_to (after_newline (encode "a.txt|5" ++ [newline] ++ encode "abc"))
                          received)
                /\ received < 5).
Proof.
  split; [vm_compute; reflexivity|].
  destruct (FletClient.receive_file
              (client_on [Data (encode "a.txt|5" ++ [newline] ++ encode "abc"); Fault "reset"])
              "out.txt" true w0) as [[[[b|e] c'] w']|] eqn:E;
    try (vm_compute in E; discriminate E).
  assert (He : e = Raise OSError "reset") by (vm_compute in E; congruence).
  subst e. exists c', w'. split; [reflexivity|].
  destruct (proj1 (failed_transfer_leaves_the_partial_file
                     (client_on [Data (encode "a.txt|5" ++ [newline] ++ encode "abc");
                                 Fault "reset"])
                     "out.txt" true w0
                     {| sockname := ("127.0.0.1", 50000);
                        inbox := [Data (encode "a.txt|5" ++ [newline] ++ encode "abc");
                                  Fault "reset"] |}
                     (Raise OSError "reset") eq_refl eq_refl) c' w' E)
    as [H|(line & h & received & D & P & F & _ & S)].
  - left. exact H.
  - right. vm_compute in D. injection D as <-. vm_compute in P. injection P as <-.
    exists received. split; [exact F | exact S].
Defined.

(** ** The errors a call can raise *)

Lemma new_receive_file_errors client dest cb w s e client' w' :
  socket client = Some s ->
  ClientNew.receive_file client dest cb w = Some (Raises e, client', w') ->
  new_receive_error e.
Proof.
  intros Hs R. unfold new_receive_error.
  destruct (connected client) eqn:Hc.
  2:{ unfold ClientNew.receive_file in R. rewrite Hc in R. injection R as <- _ _. auto. }
  destruct (new_read_header_total 0 (inbox s)) as [[hx q] RH].
  destruct hx as [hd|hd x|x].
  2:{ exfalso. exact (new_first_header_never_breaks _ _ _ _ RH). }
  2:{ rewrite (new_receive_header_failure _ _ _ _ _ _ _ Hc Hs RH) in R.
      injection R as <- _ _. unfold ClientNew.read_header in RH.
      destruct (new_header_errors _ _ _ _ _ _ RH) as [H|[H|H]]; auto 10. }
  destruct (ClientNew.decode_header hd) as [x|[h rem]] eqn:DH.
  { rewrite (new_receive_decode_failure _ _ _ _ _ _ _ _ Hc Hs RH DH) in R.
    injection R as <- _ _.
    destruct (new_decode_header_error _ _ DH) as [_ [H|H]]; auto 10. }
  destruct (new_read_payload_total 0 cb (ClientNew.target dest h) (ClientNew.h_size h)
              (ClientNew.start 0 (first_frame client dest w) q h rem)) as [[px t] RP].
  destruct (new_receive_payload _ _ _ _ _ _ _ _ _ _ _ Hc Hs RH DH RP) as [E _].
  rewrite E in R. clear E. unfold ClientNew.read_payload in RP.
  pose proof (new_payload_loop_errors _ _ _ _ _
                (ClientNew.start 0 (first_frame client dest w) q h rem) _ _
                (len_nonneg rem) RP) as K.
  destruct px as [|x|x]; try discriminate R; injection R as <- _ _;
    destruct K as [K|K]; auto 10.
Qed.

Lemma flet_receive_file_errors client dest cb w s e client' w' :
  socket client = Some s ->
  FletClient.receive_file client dest cb w = Some (Raises e, client', w') ->
  flet_receive_error e
  /\ (e = not_connected \/ e = FletClient.closed_before_header
      \/ kind e <> ConnectionError).
Proof.
  intros Hs R. unfold flet_receive_error.
  unfold FletClient.receive_file, FletClient.try_body in R. rewrite Hs in R.
  destruct (connected client); cbn [negb] in R.
  2:{ injection R as <- _ _. auto. }
  destruct (FletClient.read_header (inbox s)) as [[[x|hd] q]|] eqn:RH; try discriminate R.
  { injection R as <- _ _.
    destruct (flet_read_header_errors _ _ _ RH) as [H|H]; [auto|].
    split; [auto|]. right. right. rewrite H. discriminate. }
  destruct (FletClient.decode_header hd) as [x|[h rem]] eqn:DH.
  { injection R as <- _ _. pose proof (flet_decode_header_error _ _ DH) as V.
    unfold is_value_error in V.
    destruct (kind x) eqn:Kx; try discriminate V; split; auto 10;
      right; right; discriminate. }
  destruct (FletClient.read_payload cb dest (FletClient.h_size h)
              (FletClient.start w dest q rem)) as [[[x|] t]|] eqn:RP; try discriminate R.
  injection R as <- _ _. unfold FletClient.read_payload in RP.
  pose proof (flet_payload_loop_errors _ _ _ _ (FletClient.start w dest q rem) _ _
                (len_nonneg rem) RP) as K.
  split; [auto|]. right. right. rewrite K. discriminate.
Qed.

(** X21.  The errors of [receive_file].  On a client that has a socket,
    [file_client_new.py] raises nothing but: the refusal of the guard,
    [ConnectionError] for a connection closed before the header or during
    the payload, the error of the transport, [ValueError] for a header that
    is too large or does not parse, or [UnicodeDecodeError].
    [flet_client.py] raises nothing but: the refusal of the guard,
    [ConnectionError] for a connection closed before the header, the error
    of the transport, or a [ValueError] or [UnicodeDecodeError] of the
    header; a close during the payload is no error there.  In neither does
    the percentage of the progress report raise: the count it is computed
    from lies within the size, and the size is positive by then. *)
Theorem receive_file_raises_only_these :
  forall (client : FileClient) (dest : string) (cb : bool) (w : world) (s : socket_obj)
         (e : exn) (client' : FileClient) (w' : world),
    socket client = Some s ->
    (ClientNew.receive_file client dest cb w = Some (Raises e, client', w') ->
     new_receive_error e)
    /\ (FletClient.receive_file client dest cb w = Some (Raises e, client', w') ->
        flet_receive_error e /\ e <> ClientNew.lost_during_transfer).
Proof.
  intros client dest cb w s e client' w' Hs. split.
  - intros R. exact (new_receive_file_errors _ _ _ _ _ _ _ _ Hs R).
  - intros R. destruct (flet_receive_file_errors _ _ _ _ _ _ _ _ Hs R) as [F1 F2].
    split; [exact F1|].
    intros ->. destruct F2 as [F2|[F2|F2]]; [discriminate F2 | discriminate F2|].
    apply F2. reflexivity.
Qed.

Lemma receive_file_raises_only_these_witness :
  exists e client' w',
    ClientNew.receive_file short_new "out" true w0 = Some (Raises e, client', w')
    /\ new_receive_error e.
Proof.
  destruct (ClientNew.receive_file short_new "out" true w0) as [[[[b|e] c'] w']|] eqn:E;
    try (vm_compute in E; discriminate E).
  exists e, c', w'. split; [reflexivity|].
  exact (proj1 (receive_file_raises_only_these short_new "out" true w0
                  {| sockname := ("127.0.0.1", 50000);
                     inbox := [Data (encode "a.txt|5|.txt" ++ [newline] ++ encode "abc")] |}
                  e c' w' eq_refl) E).
Defined.

(** ** The states a client object can reach *)

Lemma left_alone_history keeps client w r o client' w' :
  left_alone keeps client w r -> r = Some (o, client', w') ->
  connected client' = connected client
  /\ (socket client' = None <-> socket client = None)
  /\ exists added, download_history client' = download_history client ++ added.
Proof.
  intros L ->. cbn in L. destruct L as (_ & _ & _ & C & S & H & _).
  split; [exact C|]. split; [|exact H].
  destruct (socket client'), (socket client); cbn in S; try discriminate S;
    split; intros Q; try discriminate Q; reflexivity.
Qed.

Lemma client_step_history x y :
  client_step x y ->
  (exists added, download_history (fst y) = download_history (fst x) ++ added)
  /\ ((connected (fst x) = true -> socket (fst x) <> None) ->
      connected (fst y) = true -> socket (fst y) <> None).
Proof.
  intros S. destruct S as [c w host_name port|close c w|c w dest cb o c' w' R
                           |c w dest cb o c' w' R]; cbn [fst].
  - unfold connect. destruct (connected c) eqn:Hc; cbn [fst snd].
    + split; [exists []; symmetry; apply app_nil_r|]. intros I _. apply I. reflexivity.
    + destruct (network w host_name port); cbn [fst snd download_history socket connected];
        (split; [exists []; symmetry; apply app_nil_r|]); intros _ H; discriminate.
  - unfold disconnect. destruct (connected c) eqn:Hc; cbn [negb].
    2:{ split; [exists []; symmetry; apply app_nil_r|]. intros I H. rewrite Hc in H.
        discriminate H. }
    destruct (socket c) as [s|].
    + destruct (close s) as [[x|] s']; cbn [download_history socket connected];
        (split; [exists []; symmetry; apply app_nil_r|]); intros _ _; discriminate.
    + cbn [download_history socket connected].
      split; [exists []; symmetry; apply app_nil_r|]. intros _ H. discriminate H.
  - destruct (left_alone_history _ _ _ _ _ _ _ (new_receive_left_alone c dest cb w) R)
      as (C & S & H).
    split; [exact H|]. intros I Hc Hn. rewrite C in Hc. apply (I Hc). apply S, Hn.
  - destruct (left_alone_history _ _ _ _ _ _ _ (flet_receive_left_alone c dest cb w) R)
      as (C & S & H).
    split; [exact H|]. intros I Hc Hn. rewrite C in Hc. apply (I Hc). apply S, Hn.
Qed.

Lemma reachable_has_socket x :
  reachable x -> connected (fst x) = true -> socket (fst x) <> None.
Proof.
  induction 1 as [w|x y R IH S].
  - cbn. discriminate.
  - exact (proj2 (client_step_history _ _ S) IH).
Qed.

(** X22.  The states a client object can reach from [FileClient()] by
    calls of [connect], [disconnect] and [receive_file]: whenever the flag
    [connected] is set there is a socket object, so that [receive_file]
    never fails for want of one (no [AttributeError]); and no method ever
    removes or rewrites a record of the history: every call leaves the old
    history as a prefix of the new one. *)
Theorem a_set_flag_comes_with_a_socket :
  (forall x, reachable x -> connected (fst x) = true -> socket (fst x) <> None)
  /\ (forall x y,
        client_step x y ->
        exists added, download_history (fst y) = download_history (fst x) ++ added)
  /\ (forall c w dest cb e c' w',
        reachable (c, w) ->
        (ClientNew.receive_file c dest cb w = Some (Raises e, c', w')
         \/ FletClient.receive_file c dest cb w = Some (Raises e, c', w')) ->
        kind e <> AttributeError).
Proof.
  split; [exact reachable_has_socket|].
  split; [intros x y S; exact (proj1 (client_step_history x y S))|].
  intros c w dest cb e c' w' R H.
  pose proof (reachable_has_socket _ R) as I. cbn [fst] in I.
  destruct (connected c) eqn:Hc.
  2:{ destruct H as [H|H];
        [unfold ClientNew.receive_file in H | unfold FletClient.receive_file in H];
        rewrite Hc in H; injection H as <- _ _; discriminate. }
  destruct (socket c) as [s|] eqn:Hs; [|exfalso; apply I; reflexivity].
  destruct H as [H|H].
  - pose proof (new_receive_file_errors _ _ _ _ _ _ _ _ Hs H) as E.
    unfold new_receive_error in E.
    destruct E as [->|[->|[->|[E|[->|[->|E]]]]]]; try discriminate;
      rewrite E; discriminate.
  - destruct (flet_receive_file_errors _ _ _ _ _ _ _ _ Hs H) as [E _].
    unfold flet_receive_error in E.
    destruct E as [->|[->|[E|[E|E]]]]; try discriminate;
      rewrite E; discriminate.
Qed.

Lemma a_set_flag_comes_with_a_socket_witness :
  reachable
    (snd (fst (connect new_client "127.0.0.1" 12345
                 (quiet_world (serving "a.txt|5" (encode "hello")) no_files))),
     snd (connect new_client "127.0.0.1" 12345
            (quiet_world (serving "a.txt|5" (encode "hello")) no_files)))
  /\ socket
       (snd (fst (connect new_client "127.0.0.1" 12345
                    (quiet_world (serving "a.txt|5" (encode "hello")) no_files))))
     <> None.
Proof.
  assert (R : reachable
                (snd (fst (connect new_client "127.0.0.1" 12345
                             (quiet_world (serving "a.txt|5" (encode "hello")) no_files))),
                 snd (connect new_client "127.0.0.1" 12345
                        (quiet_world (serving "a.txt|5" (encode "hello")) no_files)))).
  { exact (reach_step _ _ (reach_new _) (step_connect new_client _ "127.0.0.1" 12345)). }
  split; [exact R|].
  exact (proj1 a_set_flag_comes_with_a_socket _ R eq_refl).
Defined.

(** ** Reading no further than the payload *)

(** X23.  A payload of at least a buffer less one byte is read exactly:
    when the stream brings a header line that parses, the bytes it declares
    and then more, [receive_file] of either client stores the declared
    bytes and leaves all that follows them queued on the socket, for a later
    call, however the transport cuts the stream.  (Below that size the
    bytes that follow may come in the read that brings the newline, and
    are then written to the file.) *)
Theorem a_payload_of_a_buffer_is_read_exactly :
  forall (client : FileClient) (dest : string) (cb : bool) (w : world) (s : socket_obj)
         (lb : bytes) (line : string) (content extra : bytes),
    connected client = true ->
    socket client = Some s ->
    incoming (inbox s) = lb ++ newline :: content ++ extra ->
    contains newline lb = false ->
    decode lb = inr line ->
    BUFFER_SIZE - 1 <= len content ->
    (forall h,
        FletClient.parse_header line = inr h ->
        FletClient.h_size h = len content ->
        stored (FletClient.receive_file client dest cb w) client w dest
          (FletClient.h_name h) content cb
        /\ leaves (FletClient.receive_file client dest cb w) extra)
    /\ (forall h,
        len lb + BUFFER_SIZE <= ClientNew.HEADER_LIMIT ->
        ClientNew.parse_header line = inr h ->
        ClientNew.h_size h = len content ->
        stored (ClientNew.receive_file client dest cb w) client w (ClientNew.target dest h)
          (ClientNew.h_name h) content cb
        /\ leaves (ClientNew.receive_file client dest cb w) extra).
Proof.
  intros client dest cb w s lb line content extra Hc Hs I C D B. split.
  - intros h P Hn.
    exact (flet_receives_more client dest cb w s lb line h content extra
             Hc Hs I (or_intror B) C D P Hn).
  - intros h L P Hn.
    exact (new_receives_more client dest cb w s lb line h content extra
             Hc Hs I (or_intror B) C L D P Hn).
Qed.

Lemma a_payload_of_a_buffer_is_read_exactly_witness :
  leaves
    (FletClient.receive_file
       (client_on [Data (encode "big.bin|4095" ++ [newline] ++ firstn 10 (sample 4095));
                   Data (skipn 10 (sample 4095) ++ encode "next.txt|3")])
       "out.bin" true w0)
    (encode "next.txt|3").
Proof.
  exact (proj2 (proj1 (a_payload_of_a_buffer_is_read_exactly
           (client_on [Data (encode "big.bin|4095" ++ [newline] ++ firstn 10 (sample 4095));
                       Data (skipn 10 (sample 4095) ++ encode "next.txt|3")])
           "out.bin" true w0
           {| sockname := ("127.0.0.1", 50000);
              inbox := [Data (encode "big.bin|4095" ++ [newline] ++ firstn 10 (sample 4095));
                        Data (skipn 10 (sample 4095) ++ encode "next.txt|3")] |}
           (encode "big.bin|4095") "big.bin|4095" (sample 4095) (encode "next.txt|3")
           eq_refl eq_refl ltac:(vm_compute; reflexivity) eq_refl eq_refl
           ltac:(vm_compute; discriminate))
           {| FletClient.h_name := "big.bin"; FletClient.h_size := 4095 |}
           eq_refl ltac:(vm_compute; reflexivity))).
Defined.

(** ** The percentages the callback gets *)

Lemma reports_percentages fsz lo hi l :
  reports fsz lo hi l -> 0 <= lo -> hi <= fsz ->
  Forall (fun c : progress_call => is_percentage (fst (fst c))) l.
Proof.
  induction 1 as [lo hi L|lo hi percent received rest L P R IH]; intros H0 H1.
  - constructor.
  - pose proof (reports_bounds _ _ _ _ R) as B. constructor.
    + destruct (py_percent_within received fsz ltac:(lia) ltac:(lia)) as (p & E & Hp).
      rewrite E in P. injection P as <-. exact Hp.
    + apply IH; lia.
Qed.

(** The calls the payload loop of [flet_client.py] adds, from a count
    that is not negative. *)
Lemma flet_payload_loop_percentages fuel cb p fsz t ex t' :
  0 <= FletClient.received_bytes t ->
  FletClient.payload_loop fuel cb p fsz t = Some (ex, t') ->
  exists mids,
    calls (FletClient.t_world t') = calls (FletClient.t_world t) ++ mids
    /\ Forall (fun c : progress_call => is_percentage (fst (fst c))) mids
    /\ (cb = false -> mids = []).
Proof.
  intros H0 H. destruct (flet_payload_loop_reports _ _ _ _ _ _ _ H) as (mids & C & R & N).
  destruct (Z.le_gt_cases (FletClient.received_bytes t) fsz) as [L|L].
  - exists mids. split; [exact C|]. split; [|exact N].
    apply (reports_percentages _ _ _ _ R H0).
    exact (proj2 (flet_payload_loop_inv _ _ _ _ _ _ _ L H)).
  - exists []. rewrite app_nil_r. split; [|split; [constructor | reflexivity]].
    destruct fuel; cbn [FletClient.payload_loop] in H;
      rewrite (proj2 (Z.ltb_ge _ _)) in H by lia; injection H as _ <-; reflexivity.
Qed.

Lemma new_payload_loop_percentages fuel attempt cb p fsz t ex t' :
  0 <= ClientNew.received_bytes t ->
  ClientNew.payload_loop fuel attempt cb p fsz t = Some (ex, t') ->
  exists mids,
    calls (ClientNew.t_world t') = calls (ClientNew.t_world t) ++ mids
    /\ Forall (fun c : progress_call => is_percentage (fst (fst c))) mids
    /\ (cb = false -> mids = []).
Proof.
  intros H0 H. destruct (new_payload_loop_reports _ _ _ _ _ _ _ _ H) as (mids & C & R & N).
  destruct (Z.le_gt_cases (ClientNew.received_bytes t) fsz) as [L|L].
  - exists mids. split; [exact C|]. split; [|exact N].
    apply (reports_percentages _ _ _ _ R H0).
    exact (proj2 (proj1 (new_payload_loop_inv _ _ _ _ _ _ _ _ L H))).
  - exists []. rewrite app_nil_r. split; [|split; [constructor | reflexivity]].
    destruct fuel; cbn [ClientNew.payload_loop] in H;
      rewrite (proj2 (Z.ltb_ge _ _)) in H by lia; injection H as _ <-; reflexivity.
Qed.

Lemma tells_nothing cb w o client' : tells_percentages cb w (Some (o, client', w)).
Proof.
  exists []. rewrite app_nil_r. split; [reflexivity|]. split; [constructor | reflexivity].
Qed.

Lemma tells_final cb w1 w mids received size o client' :
  calls w1 = calls w ++ mids ->
  Forall (fun c : progress_call => is_percentage (fst (fst c))) mids ->
  (cb = false -> mids = []) ->
  tells_percentages cb w
    (Some (o, client', if cb then with_call w1 (100, received, size) else w1)).
Proof.
  intros C F N. destruct cb; cbn [tells_percentages].
  - exists (mids ++ [(100, received, size)]). cbn [calls with_call].
    split; [rewrite C, app_assoc; reflexivity|]. split; [|discriminate].
    apply Forall_app. split; [exact F|]. constructor; [|constructor].
    cbn. unfold is_percentage. lia.
  - exists mids. split; [exact C|]. split; [exact F | exact N].
Qed.

(** X24.  What [receive_file] of either client tells the callback,
    whatever arrives and however the call ends: the call comes to an end,
    each call of the callback it makes reports a percentage from 0 to 100,
    rounding of the division and of the product included, and without a
    callback none is made.  The percentage is computed only for a count
    that is positive and within a positive size, so that it never divides
    by zero or overflows. *)
Theorem receive_file_reports_percentages :
  forall (client : FileClient) (dest : string) (cb : bool) (w : world),
    tells_percentages cb w (ClientNew.receive_file client dest cb w)
    /\ tells_percentages cb w (FletClient.receive_file client dest cb w).
Proof.
  intros client dest cb w. split.
  - destruct (connected client) eqn:Hc.
    2:{ unfold ClientNew.receive_file. rewrite Hc. apply tells_nothing. }
    destruct (socket client) as [s|] eqn:Hs.
    2:{ unfold ClientNew.receive_file, ClientNew.retry_range. rewrite Hc. cbn [negb].
        rewrite !new_attempts_cons.
        unfold ClientNew.attempt_body, ClientNew.transfer_once.
        cbn [ClientNew.self ClientNew.env ClientNew.save_path ClientNew.last_exception
             Z.ltb Z.compare].
        rewrite Hs. cbn. rewrite Hs. cbn. rewrite Hs. cbn.
        exists []. rewrite app_nil_r. split; [reflexivity|].
        split; [constructor | reflexivity]. }
    destruct (new_read_header_total 0 (inbox s)) as [[[hd|hd e|e] q] RH].
    2:{ exfalso. exact (new_first_header_never_breaks _ _ _ _ RH). }
    2:{ rewrite (new_receive_header_failure _ _ _ _ _ _ _ Hc Hs RH). apply tells_nothing. }
    destruct (ClientNew.decode_header hd) as [e|[h rem]] eqn:DH.
    { rewrite (new_receive_decode_failure _ _ _ _ _ _ _ _ Hc Hs RH DH).
      apply tells_nothing. }
    destruct (new_read_payload_total 0 cb (ClientNew.target dest h) (ClientNew.h_size h)
                (ClientNew.start 0 (first_frame client dest w) q h rem)) as [[px t] RP].
    destruct (new_receive_payload _ _ _ _ _ _ _ _ _ _ _ Hc Hs RH DH RP) as [E _].
    cbv zeta in E. rewrite E. clear E.
    unfold ClientNew.read_payload in RP.
    destruct (new_payload_loop_percentages _ _ _ _ _
                (ClientNew.start 0 (first_frame client dest w) q h rem) _ _
                (len_nonneg rem) RP) as (mids & C & F & N).
    cbn [ClientNew.start ClientNew.t_world with_fs calls first_frame ClientNew.env] in C.
    destruct px as [|e|e].
    + apply (tells_final cb _ w mids _ _ _ _ C F N).
    + exists mids. split; [exact C|]. split; [exact F | exact N].
    + exists mids. split; [exact C|]. split; [exact F | exact N].
  - unfold FletClient.receive_file.
    destruct (connected client) eqn:Hc; cbn [negb]; [|apply tells_nothing].
    unfold FletClient.try_body.
    destruct (socket client) as [s|] eqn:Hs; [|apply tells_nothing].
    destruct (flet_read_header_total (inbox s)) as [[[e|hd] q] RH]; rewrite RH;
      [apply tells_nothing|].
    destruct (FletClient.decode_header hd) as [e|[h rem]]; [apply tells_nothing|].
    destruct (flet_payload_loop_total (S (weight q)) cb dest (FletClient.h_size h)
                (FletClient.start w dest q rem)) as [[x t] RP]; [cbn; lia|].
    unfold FletClient.read_payload. cbn [FletClient.start FletClient.t_inbox].
    pose proof RP as RP'. cbn [FletClient.start FletClient.t_inbox] in RP'. rewrite RP'.
    destruct (flet_payload_loop_percentages _ _ _ _ (FletClient.start w dest q rem) _ _
                (len_nonneg rem) RP) as (mids & C & F & N).
    cbn [FletClient.start FletClient.t_world with_fs calls] in C.
    destruct x as [e|].
    + exists mids. split; [exact C|]. split; [exact F | exact N].
    + apply (tells_final cb _ w mids _ _ _ _ C F N).
Qed.

(** * The percentages of the sending side *)

(** With a transport that does not fail the sending loop of
    [file_server_new.py] ends by itself, with a callback as without: the
    count stays within the size of the file. *)
Lemma new_send_loop_no_fault fuel cb fsz s :
  no_fault (capacity (s_sock s)) = true ->
  (List.length (unread s) < fuel)%nat ->
  0 <= sent_bytes s -> sent_bytes s + len (unread s) <= fsz ->
  exists s', ServerNew.send_loop fuel cb fsz s = Some (None, s').
Proof.
  revert s. induction fuel as [|fuel IH]; intros s Hc Hf H0 H1; [lia|].
  cbn [ServerNew.send_loop]. cbv zeta.
  destruct (is_empty (firstn (Z.to_nat BUFFER_SIZE) (unread s))) eqn:E; [eauto|].
  pose proof (first_chunk_nonempty _ E) as Hne.
  pose proof (is_empty_false _ E) as Hp.
  destruct (sendall_no_fault (firstn (Z.to_nat BUFFER_SIZE) (unread s)) _ Hc)
    as (sock' & S & Hc').
  rewrite S.
  assert (Hl : (List.length (skipn (Z.to_nat BUFFER_SIZE) (unread s)) < fuel)%nat).
  { rewrite length_skipn. destruct (unread s); [congruence|].
    cbn [List.length] in *. unfold BUFFER_SIZE. lia. }
  assert (Hs : len (firstn (Z.to_nat BUFFER_SIZE) (unread s))
               + len (skipn (Z.to_nat BUFFER_SIZE) (unread s)) = len (unread s)).
  { rewrite <- len_app, firstn_skipn. reflexivity. }
  pose proof (len_nonneg (skipn (Z.to_nat BUFFER_SIZE) (unread s))) as Hk.
  assert (Hd : 0 < len (firstn (Z.to_nat BUFFER_SIZE) (unread s))) by (unfold len; lia).
  destruct cb.
  - destruct (py_percent_within
                (sent_bytes s + len (firstn (Z.to_nat BUFFER_SIZE) (unread s))) fsz
                ltac:(lia) ltac:(lia)) as (percent & P & _).
    rewrite P. apply IH; cbn [s_sock unread sent_bytes]; [exact Hc' | exact Hl | lia | lia].
  - apply IH; cbn [s_sock unread sent_bytes]; [exact Hc' | exact Hl | lia | lia].
Qed.

(** The percentages of a run of the sending loop that started within the
    size: each from 0 to 100, and the last one 100. *)
Lemma sends_percentages cb fsz sent rest tr :
  sends cb fsz sent rest tr ->
  0 <= sent -> sent + len rest = fsz ->
  Forall is_percentage (percentages tr)
  /\ (cb = false -> percentages tr = [])
  /\ (cb = true -> rest <> [] -> exists ps, percentages tr = ps ++ [100]).
Proof.
  induction 1 as [sent|sent rest tr Hcb Hne S IH|sent rest percent tr Hcb Hne P S IH];
    intros H0 H1.
  - cbn. split; [constructor|]. split; [reflexivity|]. intros _ H. contradiction.
  - assert (Hs : len (firstn (Z.to_nat BUFFER_SIZE) rest)
                 + len (skipn (Z.to_nat BUFFER_SIZE) rest) = len rest).
    { rewrite <- len_app, firstn_skipn. reflexivity. }
    pose proof (len_nonneg (firstn (Z.to_nat BUFFER_SIZE) rest)) as Hd.
    destruct (IH ltac:(lia) ltac:(lia)) as (F & N & _).
    cbn [percentages]. split; [exact F|]. split; [exact N|].
    intros C. rewrite Hcb in C. discriminate C.
  - assert (Hs : len (firstn (Z.to_nat BUFFER_SIZE) rest)
                 + len (skipn (Z.to_nat BUFFER_SIZE) rest) = len rest).
    { rewrite <- len_app, firstn_skipn. reflexivity. }
    assert (Hd : 0 < len (firstn (Z.to_nat BUFFER_SIZE) rest)).
    { destruct rest; [contradiction|]. unfold len. rewrite length_firstn.
      cbn [List.length]. unfold BUFFER_SIZE. lia. }
    pose proof (len_nonneg (skipn (Z.to_nat BUFFER_SIZE) rest)) as Hk.
    destruct (IH ltac:(lia) ltac:(lia)) as (F & _ & L).
    cbn [percentages]. split; [|split].
    + constructor; [|exact F].
      destruct (py_percent_within (sent + len (firstn (Z.to_nat BUFFER_SIZE) rest)) fsz
                  ltac:(lia) ltac:(lia)) as (p & E & Hp).
      rewrite E in P. injection P as <-. exact Hp.
    + intros C. rewrite Hcb in C. discriminate C.
    + intros _ _. destruct (skipn (Z.to_nat BUFFER_SIZE) rest) as [|b rest'] eqn:K.
      * exists []. cbn [app]. inversion S as [sent0| |]; subst; try contradiction.
        cbn [percentages]. f_equal.
        change (len []) with 0 in Hs.
        replace (sent + len (firstn (Z.to_nat BUFFER_SIZE) rest)) with (sent + len rest) in P
          by lia.
        rewrite py_percent_full in P by lia. injection P as <-. reflexivity.
      * destruct (L Hcb ltac:(discriminate)) as [ps E]. exists (percent :: ps).
        rewrite E. reflexivity.
Qed.

(** X25.  [send_file] of [file_server_new.py] with a callback: when the
    file exists and no send fails the call returns [True], as it does
    without a callback; the percentage never raises, since the count it is
    computed from is positive and within the size; the percentages given to
    the callback lie between 0 and 100, and the last one, for a file that
    is not empty, is 100.  Without a callback none is computed. *)
Theorem send_file_reports_up_to_a_hundred :
  forall (file_path : string) (content : bytes) (e : server_env) (sock : peer)
         (server : ServerNew.FileServer) (cb : bool),
    s_fs e file_path = Some content ->
    no_fault (capacity sock) = true ->
    exists server' sock' e' tr,
      ServerNew.send_file server sock file_path cb e = Some (true, server', sock', e')
      /\ s_trace e' = s_trace e ++ tr
      /\ Forall is_percentage (percentages tr)
      /\ (cb = false -> percentages tr = [])
      /\ (cb = true -> content <> [] -> exists ps, percentages tr = ps ++ [100]).
Proof.
  intros file_path content e sock server cb Hf Hn.
  assert (R : exists server' sock' e',
             ServerNew.send_file server sock file_path cb e
             = Some (true, server', sock', e')).
  { unfold ServerNew.send_file, ServerNew.try_body. rewrite Hf. cbv zeta.
    destruct (sendall_no_fault (ServerNew.encode_header (basename file_path) (len content))
                sock Hn) as (sock1 & S & Hn1).
    rewrite S.
    match goal with
    | |- context [ServerNew.send_loop ?f cb ?z ?s] =>
      destruct (new_send_loop_no_fault f cb z s Hn1 ltac:(cbn [unread]; lia)
                  ltac:(cbn [sent_bytes]; lia) ltac:(cbn [sent_bytes unread]; lia))
        as [s' E]; rewrite E
    end.
    do 3 eexists. reflexivity. }
  destruct R as (server' & sock' & e' & R).
  destruct (new_send_file_true _ _ _ _ _ _ _ _ _ Hf R) as (tr & rec & Ht & Hs & _).
  destruct (sends_percentages _ _ _ _ _ Hs ltac:(lia) ltac:(lia)) as (F & N & L).
  exists server', sock', e', (Sent (ServerNew.encode_header (basename file_path) (len content))
                              :: tr).
  split; [exact R|]. split; [exact Ht|]. cbn [percentages].
  split; [exact F|]. split; [exact N | exact L].
Qed.

Lemma send_file_reports_up_to_a_hundred_witness :
  exists server' sock' e' tr,
    ServerNew.send_file no_transfers (open_peer [TxAccept 4]) "docs/notes.txt" true notes_env
    = Some (true, server', sock', e')
    /\ s_trace e' = s_trace notes_env ++ tr
    /\ Forall is_percentage (percentages tr).
Proof.
  destruct (send_file_reports_up_to_a_hundred "docs/notes.txt" (encode "hello") notes_env
              (open_peer [TxAccept 4]) no_transfers true eq_refl eq_refl)
    as (server' & sock' & e' & tr & R & T & F & _).
  exists server', sock', e', tr. split; [exact R|]. split; [exact T | exact F].
Defined.
